(** * Tile38: spatial query resolution and execution (internal/server/search.go)

    A shallow embedding of [parseRectArea], [cmdSearchArgs], [cmdNearby],
    [cmdWITHINorINTERSECTS], [multiGlobParse] and [cmdSearch], and the
    properties of the specification that are about them.

    Conventions.
    - Go's [float64] is the kernel's binary64 [float]; comparisons are the
      boolean [<?] and [<=?] of [PrimFloat], false on NaN as in Go.
    - Go's [int] is 64 bits wide: a [Z] with the wrap-around written out
      ([int_of_uint64], [wrap_int]); [uint64] is a [Z] in [0, 2^64).
    - A Go [string] is its bytes, a [string] here; [strings.ToLower] folds
      ASCII strings byte by byte and hands any other string to the Unicode
      tables, which are a field of [Library].
    - A Go function with named results and early [return]s is a step on a
      [frame] holding the variables that survive the statement ([lfs], [err],
      [vs]); a step either goes on with a value or has returned.
    - Packages of the repository that search.go only calls (the index, the
      scan writer, the base token parser, bing, glob, clip, buffer) and the
      Go libraries it uses are the fields of the classes [Library] and
      [Index]; every theorem holds for all their instances. *)

From Stdlib Require Import ZArith List String Ascii Bool Lia.
From Stdlib Require Import PrimFloat.
From stdpp Require Import base option gmap strings.

Set Warnings "-inexact-float".
Local Open Scope string_scope.
Local Open Scope Z_scope.

(* ===================================================================== *)
(** ** Go primitives *)

Definition float64 := float.

(** [int(u)] for a [uint64] value [u]: the bits are kept, values from 2^63
    on come out negative. *)
Definition int_of_uint64 (u : Z) : Z :=
  if u <? 2 ^ 63 then u else u - 2 ^ 64.

(** The result of an [int] operation, wrapped into [-2^63, 2^63). *)
Definition wrap_int (z : Z) : Z := (z + 2 ^ 63) mod 2 ^ 64 - 2 ^ 63.

(** [uint64(i)] for an [int] value [i]. *)
Definition uint64_of_int (i : Z) : Z := i mod 2 ^ 64.

(** The two halves of [strings.ToLower] that need no table.  A Go string
    is a sequence of bytes.  [isASCII]: every byte is below [utf8.RuneSelf],
    0x80.  [lowerASCII]: the bytes 'A'..'Z' moved to 'a'..'z', the others
    kept.  [ToLower] itself is defined below, after [Library]: on a string
    with a byte from 0x80 on it maps every rune through [unicode.ToLower]. *)
Definition lower_ascii (c : ascii) : ascii :=
  let n := nat_of_ascii c in
  if ((65 <=? n)%nat && (n <=? 90)%nat)%bool then ascii_of_nat (n + 32) else c.

Fixpoint lowerASCII (s : string) : string :=
  match s with
  | EmptyString => EmptyString
  | String c r => String (lower_ascii c) (lowerASCII r)
  end.

Fixpoint isASCII (s : string) : bool :=
  match s with
  | EmptyString => true
  | String c r => (nat_of_ascii c <? 128)%nat && isASCII r
  end.

(** Go's [<] on strings: bytewise lexicographic order. *)
Definition str_lt (a b : string) : bool := String.ltb a b.
Definition str_le (a b : string) : bool := String.leb a b.

(* ===================================================================== *)
(** ** Errors *)

(** The error values search.go returns.  [errorsNew] stands for
    [errors.New] and [fmt.Errorf], [errFrom] for an error handed back by a
    collaborator. *)
Inductive error : Type :=
| errInvalidNumberOfArguments
| errInvalidArgument (arg : string)
| errNotRectangle
| errKeyNotFound
| errIDNotFound
| errorsNew (msg : string)
| errFrom (pkg : string).

Definition is_errNotRectangle (e : option error) : bool :=
  match e with Some errNotRectangle => true | _ => false end.

(* ===================================================================== *)
(** ** Geometry *)

Module geometry.
Record Point : Type := mkPoint { X : float64; Y : float64 }.
Record Rect : Type := mkRect { Min : Point; Max : Point }.
End geometry.

Module geojson.
(** [geojson.Object] as far as search.go builds it: the nil interface, the
    three shapes it constructs itself, and objects made by a library
    ([Parse], [clip.Clip], [buffer.Simple], a stored object's [Geo]),
    which it never looks into. *)
Inductive Object : Type :=
| nil
| Rect (r : geometry.Rect)
| Point (p : geometry.Point)
| Circle (center : geometry.Point) (meters : float64) (steps : Z)
| Other (json : string).

Definition NewRect := Rect.
Definition NewPoint := Point.
Definition NewCircle := Circle.
End geojson.

Definition defaultCircleSteps : Z := 64.

Module bing.
(** Modelled from the spec: the constants of package bing, which is not
    under src/; section 6 gives the latitude domain
    [-85.05112878, 85.05112878] and the longitude domain [-180, 180]. *)
Definition MinLatitude : float64 := (-85.05112878)%float.
Definition MaxLatitude : float64 := 85.05112878%float.
Definition MinLongitude : float64 := (-180)%float.
Definition MaxLongitude : float64 := 180%float.
End bing.

(** The four bounds a tile, quadkey or geohash decoder returns, in the order
    [minLat, minLon, maxLat, maxLon]. *)
Record Bounds : Type := mkBounds
  { minLat : float64; minLon : float64; maxLat : float64; maxLon : float64 }.

Definition rect_of_bounds (b : Bounds) : geometry.Rect :=
  geometry.mkRect (geometry.mkPoint (minLon b) (minLat b))
                  (geometry.mkPoint (maxLon b) (maxLat b)).

(* ===================================================================== *)
(** ** Tokens *)

(** Modelled from the spec: [tokenval] is declared in the server's token
    file, which is not under src/.  The resolver "consumes tokens and
    returns the remaining tokens": the first token and the rest when there
    is one, the zero values and [ok = false] otherwise. *)
Definition tokenval (vs : list string) : list string * string * bool :=
  match vs with
  | [] => ([], "", false)
  | tok :: nvs => (nvs, tok, true)
  end.

(** The guard [!ok || tok == ""] that follows a required token. *)
Definition missing (tok : string) (ok : bool) : bool :=
  negb ok || (tok =? "")%string.

(* ===================================================================== *)
(** ** The search descriptor *)

(** [outputT] is an integer enumeration declared with the scan writer; its
    constants are fields of [Library]. *)
Definition outputT := Z.

(** WHERE, WHEREIN and WHEREEVAL filters: search.go only counts them and
    hands them on. *)
Inductive whereT : Type := mkWhere (field : string).
Inductive whereinT : Type := mkWherein (field : string).
Inductive whereevalT : Type := mkWhereeval (script : string).

(** The fields of [searchScanBaseTokens] that search.go reads or writes.
    The struct is embedded in [liveFenceSwitches], which is how [lfs.tileX],
    [lfs.mvt] and the like reach it. *)
Record searchScanBaseTokens : Type := mkBase {
  key : string;
  cursor : Z;             (* uint64 *)
  output : outputT;
  precision : Z;          (* uint64 *)
  fence : bool;
  distance : bool;
  globs : list string;
  wheres : list whereT;
  whereins : list whereinT;
  whereevals : list whereevalT;
  nofields : bool;
  limit : Z;              (* uint64 *)
  sparse : Z;             (* uint8 *)
  desc : bool;
  clip : bool;
  buffer : float64;
  hasbuffer : bool;
  mvt : bool;
  tileX : Z;
  tileY : Z;
  tileZ : Z
}.

(** [var t searchScanBaseTokens]: every field at its zero value. *)
Definition zeroBase : searchScanBaseTokens :=
  mkBase "" 0 0 0 false false [] [] [] [] false 0 0 false false 0%float false
         false 0 0 0.

Record roamSwitches : Type := mkRoam {
  on : bool;
  rkey : string;          (* roam.key *)
  id : string;
  pattern : bool;
  meters : float64;
  scan : string
}.

Definition zeroRoam : roamSwitches := mkRoam false "" "" false 0%float "".

Record liveFenceSwitches : Type := mkLfs {
  base : searchScanBaseTokens;
  obj : geojson.Object;
  cmd : string;
  roam : roamSwitches
}.

Definition zeroLfs : liveFenceSwitches := mkLfs zeroBase geojson.nil "" zeroRoam.

(** [goingLive], the text of the live-fence signal; the constant is
    declared outside search.go. *)
Definition goingLive : string := "going live".

(** [liveFenceSwitches.Error]: the method that lets a descriptor be returned
    where an [error] is expected. *)
Definition lfs_Error (l : liveFenceSwitches) : string := goingLive.

(** [liveFenceSwitches.usingLua]. *)
Definition usingLua (l : liveFenceSwitches) : bool :=
  (0 <? length (whereevals (base l)))%nat.

(** *** Field assignments *)

Definition with_fence (v : bool) (t : searchScanBaseTokens) :=
  mkBase (key t) (cursor t) (output t) (precision t) v (distance t) (globs t)
    (wheres t) (whereins t) (whereevals t) (nofields t) (limit t) (sparse t)
    (desc t) (clip t) (buffer t) (hasbuffer t) (mvt t) (tileX t) (tileY t)
    (tileZ t).

Definition with_output (v : outputT) (t : searchScanBaseTokens) :=
  mkBase (key t) (cursor t) v (precision t) (fence t) (distance t) (globs t)
    (wheres t) (whereins t) (whereevals t) (nofields t) (limit t) (sparse t)
    (desc t) (clip t) (buffer t) (hasbuffer t) (mvt t) (tileX t) (tileY t)
    (tileZ t).

Definition with_mvt (v : bool) (t : searchScanBaseTokens) :=
  mkBase (key t) (cursor t) (output t) (precision t) (fence t) (distance t)
    (globs t) (wheres t) (whereins t) (whereevals t) (nofields t) (limit t)
    (sparse t) (desc t) (clip t) (buffer t) (hasbuffer t) v (tileX t) (tileY t)
    (tileZ t).

Definition with_tile (x y z : Z) (t : searchScanBaseTokens) :=
  mkBase (key t) (cursor t) (output t) (precision t) (fence t) (distance t)
    (globs t) (wheres t) (whereins t) (whereevals t) (nofields t) (limit t)
    (sparse t) (desc t) (clip t) (buffer t) (hasbuffer t) (mvt t) x y z.

Definition lfs_base (g : searchScanBaseTokens -> searchScanBaseTokens)
    (l : liveFenceSwitches) : liveFenceSwitches :=
  mkLfs (g (base l)) (obj l) (cmd l) (roam l).

Definition lfs_obj (o : geojson.Object) (l : liveFenceSwitches) :=
  mkLfs (base l) o (cmd l) (roam l).

Definition lfs_cmd (c : string) (l : liveFenceSwitches) :=
  mkLfs (base l) (obj l) c (roam l).

Definition lfs_roam (g : roamSwitches -> roamSwitches)
    (l : liveFenceSwitches) : liveFenceSwitches :=
  mkLfs (base l) (obj l) (cmd l) (g (roam l)).

Definition roam_on (v : bool) (r : roamSwitches) :=
  mkRoam v (rkey r) (id r) (pattern r) (meters r) (scan r).
Definition roam_key (v : string) (r : roamSwitches) :=
  mkRoam (on r) v (id r) (pattern r) (meters r) (scan r).
Definition roam_id (v : string) (r : roamSwitches) :=
  mkRoam (on r) (rkey r) v (pattern r) (meters r) (scan r).
Definition roam_pattern (v : bool) (r : roamSwitches) :=
  mkRoam (on r) (rkey r) (id r) v (meters r) (scan r).
Definition roam_meters (v : float64) (r : roamSwitches) :=
  mkRoam (on r) (rkey r) (id r) (pattern r) v (scan r).
Definition roam_scan (v : string) (r : roamSwitches) :=
  mkRoam (on r) (rkey r) (id r) (pattern r) (meters r) v.

(* ===================================================================== *)
(** ** Collections *)

Module object.
(** A stored object: its id and its geometry ([Geo]). *)
Record Object : Type := mkObject { ID : string; Geo : geojson.Object }.
End object.

(** A collection maps ids to objects; the server maps keys to
    collections.  A missing entry is Go's nil. *)
Record Collection : Type := mkCollection { items : gmap string object.Object }.

Definition col_Get (col : Collection) (id : string) : option object.Object :=
  items col !! id.

Definition col_Count (col : Collection) : Z := Z.of_nat (size (items col)).

Record Server : Type := mkServer { cols : gmap string Collection }.

Definition cols_Get (s : Server) (key : string) : option Collection :=
  cols s !! key.

(* ===================================================================== *)
(** ** Libraries the resolver calls *)

Class Library : Type := {
  (** [strconv.ParseFloat(s, 64)]: the number and the error.  Beside a
      non-nil error Go hands back a number too: 0 for a syntax error, an
      infinity for a range error. *)
  strconv_ParseFloat : string -> float64 * option error;
  (** [strings.Map(unicode.ToLower, s)], which [strings.ToLower] returns for
      a string that is not all ASCII. *)
  strings_Map_ToLower : string -> string;
  (** [strconv.Atoi]; the result is an [int]. *)
  Atoi : string -> option Z;
  (** [geohash.BoundingBox]. *)
  geohash_BoundingBox : string -> Bounds;
  (** [bing.QuadKeyToBounds]; [None] is a non-nil error. *)
  bing_QuadKeyToBounds : string -> option Bounds;
  (** [bing.TileXYToBounds(x, y, z)]. *)
  bing_TileXYToBounds : Z -> Z -> Z -> Bounds;
  (** [geojson.Parse] with the server's parse options. *)
  geojson_Parse : string -> geojson.Object * option error;
  (** [string(sectr.NewSector(origin, meters, b1, b2).JSON())], the
      arguments being [lon lat meters b1 b2]. *)
  sectr_JSON : float64 -> float64 -> float64 -> float64 -> float64 -> string;
  (** [clip.Clip] with the server's index options. *)
  clip_Clip : geojson.Object -> geojson.Object -> geojson.Object;
  (** [buffer.Simple]. *)
  buffer_Simple : geojson.Object -> float64 -> geojson.Object * option error;
  (** [glob.IsGlob]. *)
  glob_IsGlob : string -> bool;
  (** [glob.Parse(pattern, desc).Limits]. *)
  glob_Limits : string -> bool -> string * string;
  (** [Server.parseSearchScanBaseTokens(cmd, t, vs)], declared in the
      server's token file. *)
  parseSearchScanBaseTokens :
    Server -> string -> searchScanBaseTokens -> list string ->
    list string * searchScanBaseTokens * option error;
  (** The constants of [outputT] that search.go names. *)
  outputBounds : outputT;
  outputCount : outputT;
  defaultSearchOutput : outputT
}.

(** [strconv.ParseFloat] as its callers test it, [err != nil] first: the
    number when the error is nil, [None] when it is not. *)
Definition ParseFloat `{Library} (s : string) : option float64 :=
  match strconv_ParseFloat s with
  | (x, None) => Some x
  | (_, Some _) => None
  end.

(** [strings.ToLower]: a string of ASCII bytes takes the library's fast
    path, [lowerASCII]; any other string is mapped rune by rune through
    [unicode.ToLower], which folds letters outside ASCII too (U+0130 to 'i',
    U+212A to 'k'). *)
Definition ToLower `{Library} (s : string) : string :=
  if isASCII s then lowerASCII s else strings_Map_ToLower s.

(* ===================================================================== *)
(** ** parseRectArea *)

(** The six results of [parseRectArea]. *)
Record RectArea : Type := mkRectArea {
  nvs : list string;
  grect : geojson.Object;
  rtileX : Z;
  rtileY : Z;
  rtileZ : Z;
  rerr : option error
}.

(** A [return] after [err = e]: the other named results still hold their
    zero values. *)
Definition rectFail (e : error) : RectArea :=
  mkRectArea [] geojson.nil 0 0 0 (Some e).

(** Lines 175-194: the [mvt] expansion and clamping, statement by
    statement; each assignment reads the fields as the previous ones left
    them. *)
Definition expandMvt (rect : geometry.Rect) : geometry.Rect :=
  let minX := geometry.X (geometry.Min rect) in
  let minY := geometry.Y (geometry.Min rect) in
  let maxX := geometry.X (geometry.Max rect) in
  let maxY := geometry.Y (geometry.Max rect) in
  let minY := (minY - (maxY - minY) * 0.1)%float in
  let maxY := (maxY + (maxY - minY) * 0.1)%float in
  let minX := (minX - (maxX - minX) * 0.1)%float in
  let maxX := (maxX + (maxX - minX) * 0.1)%float in
  let minY := if (minY <? bing.MinLatitude)%float then bing.MinLatitude else minY in
  let maxY := if (bing.MaxLatitude <? maxY)%float then bing.MaxLatitude else maxY in
  let minX := if (minX <? bing.MinLongitude)%float then bing.MinLongitude else minX in
  let maxX := if (bing.MaxLongitude <? maxX)%float then bing.MaxLongitude else maxX in
  geometry.mkRect (geometry.mkPoint minX minY) (geometry.mkPoint maxX maxY).

Section ParseRectArea.
Context `{Library}.

(** A required token, then the rest of the case. *)
Definition rectToken (vs : list string)
    (k : list string -> string -> RectArea) : RectArea :=
  let '(vs, tok, ok) := tokenval vs in
  if missing tok ok then rectFail errInvalidNumberOfArguments else k vs tok.

Definition rectFloat (s : string) (k : float64 -> RectArea) : RectArea :=
  match ParseFloat s with
  | None => rectFail (errInvalidArgument s)
  | Some x => k x
  end.

(** [strconv.Atoi] followed by the range guard of a tile coordinate. *)
Definition rectInt (s : string) (bad : Z -> bool)
    (k : Z -> RectArea) : RectArea :=
  match Atoi s with
  | None => rectFail (errInvalidArgument s)
  | Some x => if bad x then rectFail (errInvalidArgument s) else k x
  end.

(** Lines 174-196, common to the four cases that do not return early. *)
Definition rectDone (ltyp : string) (vs : list string)
    (rect : geometry.Rect) (x y z : Z) : RectArea :=
  let rect := if (ltyp =? "mvt")%string then expandMvt rect else rect in
  mkRectArea vs (geojson.NewRect rect) x y z None.

Definition parseRectArea (ltyp : string) (vs : list string) : RectArea :=
  if (ltyp =? "bounds")%string then
    rectToken vs (fun vs sminLat =>
    rectToken vs (fun vs sminLon =>
    rectToken vs (fun vs smaxlat =>
    rectToken vs (fun vs smaxlon =>
    rectFloat sminLat (fun minLat =>
    rectFloat sminLon (fun minLon =>
    rectFloat smaxlat (fun maxLat =>
    rectFloat smaxlon (fun maxLon =>
    rectDone ltyp vs
      (geometry.mkRect (geometry.mkPoint minLon minLat)
                       (geometry.mkPoint maxLon maxLat)) 0 0 0))))))))
  else if (ltyp =? "hash")%string then
    rectToken vs (fun vs hash =>
    rectDone ltyp vs (rect_of_bounds (geohash_BoundingBox hash)) 0 0 0)
  else if (ltyp =? "quadkey")%string then
    rectToken vs (fun vs key =>
    match bing_QuadKeyToBounds key with
    | None => rectFail (errInvalidArgument key)
    | Some b => rectDone ltyp vs (rect_of_bounds b) 0 0 0
    end)
  else if ((ltyp =? "tile") || (ltyp =? "mvt"))%string then
    rectToken vs (fun vs sx =>
    rectToken vs (fun vs sy =>
    rectToken vs (fun vs sz =>
    rectInt sx (fun x => x <? 0) (fun x =>
    rectInt sy (fun y => y <? 0) (fun y =>
    rectInt sz (fun z => (z <? 0) || (23 <? z)) (fun z =>
    rectDone ltyp vs (rect_of_bounds (bing_TileXYToBounds x y z)) x y z))))))
  else rectFail errNotRectangle.

End ParseRectArea.

(* ===================================================================== *)
(** ** cmdSearchArgs *)

(** The variables of [cmdSearchArgs] that outlive a statement: the two named
    results and the token cursor. *)
Record frame : Type := mkFrame {
  lfs : liveFenceSwitches;
  err : option error;
  vs : list string
}.

(** A statement either falls through with a value or executes [return]. *)
Inductive flow (A : Type) : Type :=
| Next (a : A)
| Return.
Arguments Next {A} a.
Arguments Return {A}.

Definition step (A : Type) : Type := frame -> frame * flow A.

Definition ret {A} (a : A) : step A := fun f => (f, Next a).

Definition bind {A B} (m : step A) (k : A -> step B) : step B :=
  fun f =>
    match m f with
    | (f', Next a) => k a f'
    | (f', Return) => (f', Return)
    end.

Notation "'do' x <- m ; k" := (bind m (fun x => k))
  (at level 10, x name, m at level 100, k at level 200).
Notation "m ;; k" := (bind m (fun _ => k))
  (at level 100, k at level 200, right associativity).

(** [return] *)
Definition return_ {A} : step A := fun f => (f, Return).

(** [err = e] *)
Definition setErr (e : option error) : step unit :=
  fun f => (mkFrame (lfs f) e (vs f), Next tt).

(** [err = e; return] *)
Definition fail {A} (e : error) : step A :=
  fun f => (mkFrame (lfs f) (Some e) (vs f), Return).

(** An assignment to a field of [lfs]. *)
Definition setLfs (g : liveFenceSwitches -> liveFenceSwitches) : step unit :=
  fun f => (mkFrame (g (lfs f)) (err f) (vs f), Next tt).

Definition getLfs : step liveFenceSwitches := fun f => (f, Next (lfs f)).

Definition getVs : step (list string) := fun f => (f, Next (vs f)).

Definition setVs (l : list string) : step unit :=
  fun f => (mkFrame (lfs f) (err f) l, Next tt).

(** [vs, tok, ok = tokenval(vs)] *)
Definition token : step (string * bool) :=
  fun f =>
    let '(nvs, tok, ok) := tokenval (vs f) in
    (mkFrame (lfs f) (err f) nvs, Next (tok, ok)).

(** [if vs, tok, ok = tokenval(vs); !ok || tok == "" {
       err = errInvalidNumberOfArguments; return }] *)
Definition required : step string :=
  do p <- token;
  if missing (fst p) (snd p) then fail errInvalidNumberOfArguments
  else ret (fst p).

Definition when (b : bool) (m : step unit) : step unit :=
  if b then m else ret tt.

Section CmdSearchArgs.
Context `{Library}.

(** [if x, err = strconv.ParseFloat(s, 64); err != nil {
       err = errInvalidArgument(s); return }]; a successful call leaves
    [err] nil. *)
Definition float_arg (s : string) : step float64 :=
  match ParseFloat s with
  | None => fail (errInvalidArgument s)
  | Some x => setErr None ;; ret x
  end.

(** [meters, err = strconv.ParseFloat(s, 64);
     if err != nil || meters < 0 { err = errInvalidArgument(s); return }] *)
Definition radius_arg (s : string) : step float64 :=
  match ParseFloat s with
  | None => fail (errInvalidArgument s)
  | Some m =>
      if (m <? 0)%float then fail (errInvalidArgument s)
      else setErr None ;; ret m
  end.

(** Lines 238-273. *)
Definition casePoint (cmd : string) : step unit :=
  do slat <- required;
  do slon <- required;
  do lat <- float_arg slat;
  do lon <- float_arg slon;
  if (cmd =? "nearby")%string then
    do p <- token;
    do meters <-
      (if snd p && negb (fst p =? "")%string then radius_arg (fst p)
       else ret (-1)%float);
    setLfs (lfs_obj (geojson.NewCircle (geometry.mkPoint lon lat) meters
                                       defaultCircleSteps))
  else
    setLfs (lfs_obj (geojson.NewPoint (geometry.mkPoint lon lat))).

(** Lines 274-306. *)
Definition caseCircle (ltyp : string) : step unit :=
  do l <- getLfs;
  when (clip (base l)) (fail (errInvalidArgument ("cannot clip with " ++ ltyp))) ;;
  do slat <- required;
  do slon <- required;
  do lat <- float_arg slat;
  do lon <- float_arg slon;
  do smeters <- required;
  do meters <- radius_arg smeters;
  setLfs (lfs_obj (geojson.NewCircle (geometry.mkPoint lon lat) meters
                                     defaultCircleSteps)).

(** [lfs.obj, err = geojson.Parse(...); if err != nil { return }] *)
Definition parse_obj (json : string) : step unit :=
  let '(o, e) := geojson_Parse json in
  setLfs (lfs_obj o) ;; setErr e ;;
  match e with Some _ => return_ | None => ret tt end.

(** Lines 307-320. *)
Definition caseObject : step unit :=
  do l <- getLfs;
  when (clip (base l)) (fail (errInvalidArgument "cannot clip with object")) ;;
  do o <- required;
  parse_obj o.

(** [fmt.Errorf("equal bearings (%s == %s), use CIRCLE instead", sb1, sb2)] *)
Definition equalBearings (sb1 sb2 : string) : error :=
  errorsNew ("equal bearings (" ++ sb1 ++ " == " ++ sb2 ++
             "), use CIRCLE instead").

(** Lines 321-380.  [b1 == b2] is Go's comparison of two [float64]. *)
Definition caseSector (ltyp : string) : step unit :=
  do l <- getLfs;
  when (clip (base l)) (fail (errInvalidArgument ("cannot clip with " ++ ltyp))) ;;
  do slat <- required;
  do slon <- required;
  do smeters <- required;
  do sb1 <- required;
  do sb2 <- required;
  do lat <- float_arg slat;
  do lon <- float_arg slon;
  do meters <- float_arg smeters;
  do b1 <- float_arg sb1;
  do b2 <- float_arg sb2;
  if (b1 =? b2)%float then fail (equalBearings sb1 sb2)
  else parse_obj (sectr_JSON lon lat meters b1 b2).

(** Lines 381-389: all six left-hand sides are assigned, also when
    [parseRectArea] fails. *)
Definition caseRect (ltyp : string) : step unit :=
  do v <- getVs;
  let r := parseRectArea ltyp v in
  setVs (nvs r) ;;
  setLfs (fun l => lfs_base (with_tile (rtileX r) (rtileY r) (rtileZ r))
                            (lfs_obj (grect r) l)) ;;
  setErr (rerr r) ;;
  match rerr r with
  | Some _ => return_
  | None => when (ltyp =? "mvt")%string (setLfs (lfs_base (with_mvt true)))
  end.

(** Lines 390-413.  The clip guard sets [err] and goes on. *)
Definition caseGet (s : Server) : step unit :=
  do l <- getLfs;
  when (clip (base l)) (setErr (Some (errInvalidArgument "cannot clip with get"))) ;;
  do key <- required;
  do id <- required;
  match cols_Get s key with
  | None => fail errKeyNotFound
  | Some col =>
      match col_Get col id with
      | None => fail errIDNotFound
      | Some o => setLfs (lfs_obj (object.Geo o))
      end
  end.

(** [if vs, lfs.roam.X, ok = tokenval(vs); !ok || lfs.roam.X == "" {...}]:
    the token is stored in the field before it is tested. *)
Definition required_into (g : string -> roamSwitches -> roamSwitches)
  : step string :=
  do p <- token;
  setLfs (lfs_roam (g (fst p))) ;;
  if missing (fst p) (snd p) then fail errInvalidNumberOfArguments
  else ret (fst p).

(** [if lfs.roam.meters, err = strconv.ParseFloat(smeters, 64); err != nil {
       err = errInvalidArgument(smeters); return }]: the number is stored
    in the field before the error is tested and with no test of its sign;
    on a failure the field holds the number ParseFloat hands back with its
    error. *)
Definition roam_meters_arg (s : string) : step unit :=
  let '(m, e) := strconv_ParseFloat s in
  setLfs (lfs_roam (roam_meters m)) ;;
  match e with
  | Some _ => fail (errInvalidArgument s)
  | None => setErr None
  end.

(** Lines 414-446. *)
Definition caseRoam : step unit :=
  setLfs (lfs_roam (roam_on true)) ;;
  do k <- required_into roam_key;
  do i <- required_into roam_id;
  setLfs (lfs_roam (roam_pattern (glob_IsGlob i))) ;;
  do smeters <- required;
  roam_meters_arg smeters ;;
  do p <- token;
  if snd p then
    if negb (ToLower (fst p) =? "scan")%string
    then fail (errInvalidArgument (fst p))
    else
      do scan <- required;
      setLfs (lfs_roam (roam_scan scan))
  else ret tt.

(** The [switch ltyp] of lines 237-446; a kind no case names (["geo"])
    falls through. *)
Definition switchKind (s : Server) (cmd ltyp : string) : step unit :=
  if (ltyp =? "point")%string then casePoint cmd
  else if (ltyp =? "circle")%string then caseCircle ltyp
  else if (ltyp =? "object")%string then caseObject
  else if (ltyp =? "sector")%string then caseSector ltyp
  else if ((ltyp =? "bounds") || (ltyp =? "hash") || (ltyp =? "tile")
           || (ltyp =? "mvt") || (ltyp =? "quadkey"))%string
       then caseRect ltyp
  else if (ltyp =? "get")%string then caseGet s
  else if (ltyp =? "roam")%string then caseRoam
  else ret tt.

(** Whether a token names a rectangle kind a [clipby] clause accepts. *)
Definition clipKind (ltok : string) : bool :=
  ((ltok =? "bounds") || (ltok =? "hash") || (ltok =? "tile")
   || (ltok =? "quadkey"))%string.

(** One round of the loop of lines 450-480. *)
Definition clipClause : step unit :=
  do tok <- required;
  if negb (ToLower tok =? "clipby")%string
  then fail errInvalidNumberOfArguments
  else
    do tok <- required;
    let ltok := ToLower tok in
    if clipKind ltok then
      do v <- getVs;
      let r := parseRectArea ltok v in
      setVs (nvs r) ;;
      setLfs (lfs_base (with_tile (rtileX r) (rtileY r) (rtileZ r))) ;;
      setErr (rerr r) ;;
      if is_errNotRectangle (rerr r)
      then fail (errInvalidArgument ("cannot clipby " ++ ltok))
      else
        match rerr r with
        | Some _ => return_
        | None => setLfs (fun l => lfs_obj (clip_Clip (obj l) (grect r)) l)
        end
    else fail (errInvalidArgument ("cannot clipby " ++ ltok)).

(** [for len(vs) > 0 { ... }].  Every round takes at least one token, so
    [length vs] rounds are enough ([clipLoop_exit]). *)
Fixpoint clipLoop (fuel : nat) : step unit :=
  fun f =>
    match vs f, fuel with
    | [], _ => (f, Next tt)
    | _ :: _, O => (f, Next tt)
    | _ :: _, S n => (clipClause ;; clipLoop n) f
    end.

(** Lines 482-488. *)
Definition applyBuffer : step unit :=
  do l <- getLfs;
  if hasbuffer (base l) then
    let '(o, e) := buffer_Simple (obj l) (buffer (base l)) in
    setLfs (lfs_obj o) ;; setErr e ;;
    match e with Some _ => return_ | None => ret tt end
  else ret tt.

(** The three guards of lines 217-219: the output mode is BOUNDS, the
    command is within or intersects, and the kind token parses as a
    number. *)
Definition isImplicitBounds (cmd : string) (o : outputT) (typ : string) : bool :=
  (o =? outputBounds)
  && ((cmd =? "within") || (cmd =? "intersects"))%string
  && bool_decide (is_Some (ParseFloat typ)).

(** Lines 217-226: an output mode BOUNDS followed by a number is the first
    coordinate of an implicit BOUNDS target. *)
Definition implicitBounds (cmd typ : string) : step string :=
  do l <- getLfs;
  if isImplicitBounds cmd (output (base l)) typ
  then
    setLfs (lfs_base (with_output defaultSearchOutput)) ;;
    do v <- getVs;
    setVs (typ :: v) ;;
    ret "BOUNDS"
  else ret typ.

(** [types[ltyp]] on a [map[string]bool]: false for a missing key. *)
Definition lookupType (types : gmap string bool) (ltyp : string) : bool :=
  default false (types !! ltyp).

(** Lines 211-489, after the base tokens are stored in [lfs]. *)
Definition resolveTarget (s : Server) (cmd : string)
    (types : gmap string bool) : step unit :=
  do typ <- required;
  do typ <- implicitBounds cmd typ;
  let ltyp := ToLower typ in
  do l <- getLfs;
  let found :=
    lookupType types ltyp
    || (fence (base l) && (ltyp =? "roam")%string && (cmd =? "nearby")%string) in
  if negb found then fail (errInvalidArgument typ)
  else
    switchKind s cmd ltyp ;;
    do v <- getVs;
    clipLoop (length v) ;;
    applyBuffer.

Definition cmdSearchArgs (s : Server) (fromFenceCmd : bool) (cmd : string)
    (vs : list string) (types : gmap string bool)
  : liveFenceSwitches * option error :=
  let t := if fromFenceCmd then with_fence true zeroBase else zeroBase in
  let '(vs, t, e) := parseSearchScanBaseTokens s cmd t vs in
  match e with
  | Some _ => (zeroLfs, e)
  | None =>
      let f := fst (resolveTarget s cmd types
                      (mkFrame (lfs_base (fun _ => t) zeroLfs) None vs)) in
      (lfs f, err f)
  end.

End CmdSearchArgs.

Definition nearbyTypes : gmap string bool := {[ "point" := true ]}.

Definition withinOrIntersectsTypes : gmap string bool :=
  list_to_map
    [("geo", true); ("bounds", true); ("hash", true); ("tile", true);
     ("quadkey", true); ("get", true); ("object", true); ("circle", true);
     ("point", true); ("sector", true); ("mvt", true)].

(* ===================================================================== *)
(** ** The scan writer and the index *)

(** What a command writes to its buffer itself. *)
Inductive chunk : Type :=
| okTrue                      (* the opening of the JSON reply, ok = true *)
| elapsed                     (* the elapsed field and the closing brace *)
| written (text : string).    (* text written by the scan writer *)

Module resp.
Inductive Value : Type :=
| NOMessage
| BytesValue (wr : list chunk)
| Native (text : string).
End resp.

Inductive Type_ : Type := JSON | RESP.

Record Message : Type := mkMessage {
  Args : list string;
  OutputType : Type_;
  Deadline : Z
}.

(** The fields of [ScanWriterParams] that search.go sets. *)
Record ScanWriterParams : Type := mkParams {
  p_obj : object.Object;
  p_dist : float64;
  p_distOutput : bool;
  p_ignoreGlobMatch : bool;
  p_skipTesting : bool;
  p_clip : geojson.Object
}.

(** The fields of the scan writer that search.go reads or writes.  [wr] is
    the buffer the command created and handed to [newScanWriter]: the
    command and the writer append to the same buffer. *)
Record scanWriter : Type := mkSw {
  col : option Collection;
  sw_output : outputT;
  sw_wheres : list whereT;
  sw_globs : list string;
  globEverything : bool;
  count : Z;                  (* uint64 *)
  wr : list chunk;
  respOut : resp.Value
}.

Definition sw_count (n : Z) (sw : scanWriter) : scanWriter :=
  mkSw (col sw) (sw_output sw) (sw_wheres sw) (sw_globs sw)
       (globEverything sw) n (wr sw) (respOut sw).

(** [wr.WriteString(c)] *)
Definition sw_write (c : chunk) (sw : scanWriter) : scanWriter :=
  mkSw (col sw) (sw_output sw) (sw_wheres sw) (sw_globs sw)
       (globEverything sw) (count sw) (wr sw ++ [c]) (respOut sw).

(** A value of Go's interface type [error] as a command returns it: an
    ordinary error, or a descriptor ([liveFenceSwitches] has an [Error]
    method). *)
Inductive goerror : Type :=
| plain (e : error)
| live (sargs : liveFenceSwitches).

Definition Error (e : goerror) : option string :=
  match e with
  | live sargs => Some (lfs_Error sargs)
  | plain (errorsNew msg) => Some msg
  | plain _ => None            (* texts declared outside search.go *)
  end.

(** The scan writer and the collection's index, both declared outside
    search.go.  A traversal is given by the candidates the index would hand
    to the callback, in order, were the callback never to stop it. *)
Class Index : Type := {
  newScanWriter :
    Server -> Message -> string -> outputT -> Z -> list string -> bool ->
    Z -> Z -> list whereT -> list whereinT -> list whereevalT -> bool ->
    bool -> Z -> Z -> Z -> scanWriter * option error;
  pushObject : scanWriter -> ScanWriterParams -> scanWriter * bool * option error;
  writeFoot : scanWriter -> scanWriter;
  retrerr : error -> resp.Value * option goerror;
  (** [o.Geo().Distance(target)], a method of the geometry library. *)
  Distance : geojson.Object -> geojson.Object -> float64;
  Nearby : Collection -> geojson.Object -> list (object.Object * float64);
  Intersects : Collection -> geojson.Object -> Z -> list object.Object;
  Within : Collection -> geojson.Object -> Z -> list object.Object;
  SearchValues : Collection -> bool -> list object.Object;
  SearchValuesRange : Collection -> string -> string -> bool -> list object.Object
}.

(** The calls a command makes to the index. *)
Inductive call : Type :=
| CallNearby (target : geojson.Object)
| CallIntersects (target : geojson.Object) (sparse : Z)
| CallWithin (target : geojson.Object) (sparse : Z)
| CallSearchValues (desc : bool)
| CallSearchValuesRange (lo hi : string) (desc : bool).

(** The state a traversal callback works on: the scan writer, the captured
    [ierr], and a log of the parameters handed to [pushObject]. *)
Record exec : Type := mkExec {
  sw : scanWriter;
  ierr : option error;
  pushed : list ScanWriterParams
}.

(** How the index drives a callback: candidate after candidate, until the
    callback returns false. *)
Fixpoint traverse {C : Type} (iter : C -> exec -> exec * bool)
    (cands : list C) (e : exec) : exec :=
  match cands with
  | [] => e
  | c :: rest =>
      let '(e', keepGoing) := iter c e in
      if keepGoing then traverse iter rest e' else e'
  end.

(** What a command hands back: its two results or a panic, with the index
    calls it made, the last state of the scan writer if it made one, and the
    log of pushed candidates. *)
Inductive outcome : Type :=
| Returned (res : resp.Value) (err : option goerror)
| Panicked.

Record result : Type := mkResult {
  out : outcome;
  calls : list call;
  writer : option scanWriter;
  pushes : list ScanWriterParams
}.

Definition sparseError : error :=
  errorsNew "cannot use SPARSE without a point distance".

Section Commands.
Context `{Library} `{Index}.

(** The common callback body: [pushObject], then capture its error. *)
Definition push (params : ScanWriterParams) (e : exec) : exec * bool :=
  let '(sw', keepGoing, err) := pushObject (sw e) params in
  match err with
  | Some x => (mkExec sw' (Some x) (pushed e ++ [params]), false)
  | None => (mkExec sw' (ierr e) (pushed e ++ [params]), keepGoing)
  end.

(** [iterStep] of [cmdNearby], lines 536-549. *)
Definition iterStep (sargs : liveFenceSwitches) (o : object.Object)
    (dist : float64) : exec -> exec * bool :=
  push (mkParams o dist (distance (base sargs)) true true geojson.nil).

(** The callback of the SPARSE branch, lines 558-564. *)
Definition iterSparse (sargs : liveFenceSwitches)
    (o : object.Object) : exec -> exec * bool :=
  let dist :=
    if distance (base sargs) then Distance (object.Geo o) (obj sargs)
    else 0%float in
  iterStep sargs o dist.

(** The callback of the nearest-first branch, lines 567-576. *)
Definition iterNearby (sargs : liveFenceSwitches) (maxDist : float64)
    (c : object.Object * float64) : exec -> exec * bool :=
  fun e =>
    let '(o, dist) := c in
    if ((0 <? maxDist) && (maxDist <? dist))%float then (e, false)
    else
      let meters := if distance (base sargs) then dist else 0%float in
      iterStep sargs o meters e.

(** The block [if sw.col != nil { ... }] of [cmdNearby], lines 535-579.
    [inl] is the early [return] of line 554, [None] the panic of the type
    assertion of [sargs.obj] to a circle on another kind of object. *)
Definition nearbyDispatch (sargs : liveFenceSwitches) (e : exec)
  : option (error + exec * list call) :=
  match col (sw e) with
  | None => Some (inr (e, []))
  | Some c =>
      match obj sargs with
      | geojson.Circle _ maxDist _ =>
          if 0 <? sparse (base sargs) then
            if (maxDist <? 0)%float then Some (inl sparseError)
            else
              Some (inr (traverse (iterSparse sargs)
                           (Intersects c (obj sargs) (sparse (base sargs))) e,
                         [CallIntersects (obj sargs) (sparse (base sargs))]))
          else
            Some (inr (traverse (iterNearby sargs maxDist)
                         (Nearby c (obj sargs)) e,
                       [CallNearby (obj sargs)]))
      | _ => None
      end
  end.

(** [newScanWriter] as the three commands call it; [matchValues] is true
    for SEARCH only. *)
Definition makeWriter (s : Server) (msg : Message)
    (sargs : liveFenceSwitches) (matchValues : bool)
  : scanWriter * option error :=
  let t := base sargs in
  newScanWriter s msg (key t) (output t) (precision t) (globs t) matchValues
    (cursor t) (limit t) (wheres t) (whereins t) (whereevals t) (nofields t)
    (mvt t) (tileX t) (tileY t) (tileZ t).

(** The lines after a traversal, the same in the three commands. *)
Definition finish (msg : Message) (e : exec) (cs : list call) : result :=
  match ierr e with
  | Some x =>
      let '(v, ge) := retrerr x in
      mkResult (Returned v ge) cs (Some (sw e)) (pushed e)
  | None =>
      let sw1 := writeFoot (sw e) in
      match OutputType msg with
      | JSON =>
          let sw2 := sw_write elapsed sw1 in
          mkResult (Returned (resp.BytesValue (wr sw2)) None) cs (Some sw2)
                   (pushed e)
      | RESP =>
          mkResult (Returned (respOut sw1) None) cs (Some sw1) (pushed e)
      end
  end.

(** The lines between [cmdSearchArgs] and the traversal: write the opening
    of a JSON reply. *)
Definition start (msg : Message) (sw0 : scanWriter) : exec :=
  let sw1 := match OutputType msg with
             | JSON => sw_write okTrue sw0
             | RESP => sw0
             end in
  mkExec sw1 None [].

Definition failed (e : goerror) : result :=
  mkResult (Returned resp.NOMessage (Some e)) [] None [].

(** [cmdNearby], lines 501-589.  An evaluator fault inside [pushObject] and
    its recovery are outside this model. *)
Definition cmdNearby (s : Server) (msg : Message) : result :=
  let vs := tail (Args msg) in
  let '(sargs, err) := cmdSearchArgs s false "nearby" vs nearbyTypes in
  match err with
  | Some e => failed (plain e)
  | None =>
      let sargs := lfs_cmd "nearby" sargs in
      if fence (base sargs) then failed (live sargs)
      else
        match makeWriter s msg sargs false with
        | (_, Some e) => failed (plain e)
        | (sw0, None) =>
            match nearbyDispatch sargs (start msg sw0) with
            | None => mkResult Panicked [] (Some (sw (start msg sw0))) []
            | Some (inl e) =>
                mkResult (Returned resp.NOMessage (Some (plain e))) []
                         (Some (sw (start msg sw0))) []
            | Some (inr (e, cs)) => finish msg e cs
            end
        end
  end.

(** The two callbacks of [cmdWITHINorINTERSECTS]. *)
Definition iterWithin (o : object.Object) : exec -> exec * bool :=
  push (mkParams o 0%float false false false geojson.nil).

Definition iterIntersects (sargs : liveFenceSwitches) (o : object.Object)
  : exec -> exec * bool :=
  push (mkParams o 0%float false false false
          (if clip (base sargs) then obj sargs else geojson.nil)).

(** The block [if sw.col != nil { switch cmd ... }], lines 634-663. *)
Definition withinDispatch (cmd : string) (sargs : liveFenceSwitches)
    (e : exec) : exec * list call :=
  match col (sw e) with
  | None => (e, [])
  | Some c =>
      if (cmd =? "within")%string then
        (traverse iterWithin (Within c (obj sargs) (sparse (base sargs))) e,
         [CallWithin (obj sargs) (sparse (base sargs))])
      else if (cmd =? "intersects")%string then
        (traverse (iterIntersects sargs)
           (Intersects c (obj sargs) (sparse (base sargs))) e,
         [CallIntersects (obj sargs) (sparse (base sargs))])
      else (e, [])
  end.

(** [cmdWITHINorINTERSECTS], lines 599-673. *)
Definition cmdWITHINorINTERSECTS (s : Server) (cmd : string) (msg : Message)
  : result :=
  let vs := tail (Args msg) in
  let '(sargs, err) := cmdSearchArgs s false cmd vs withinOrIntersectsTypes in
  match err with
  | Some e => failed (plain e)
  | None =>
      let sargs := lfs_cmd cmd sargs in
      if fence (base sargs) then failed (live sargs)
      else
        match makeWriter s msg sargs false with
        | (_, Some e) => failed (plain e)
        | (sw0, None) =>
            let '(e, cs) := withinDispatch cmd sargs (start msg sw0) in
            finish msg e cs
        end
  end.

Definition cmdWITHIN (s : Server) (msg : Message) : result :=
  cmdWITHINorINTERSECTS s "within" msg.

Definition cmdINTERSECTS (s : Server) (msg : Message) : result :=
  cmdWITHINorINTERSECTS s "intersects" msg.

(** [cmdSeachValuesArgs], lines 675-689. *)
Definition cmdSeachValuesArgs (s : Server) (vs : list string)
  : liveFenceSwitches * option error :=
  let '(vs, t, e) := parseSearchScanBaseTokens s "search" zeroBase vs in
  match e with
  | Some _ => (zeroLfs, e)
  | None =>
      let l := lfs_base (fun _ => t) zeroLfs in
      match vs with
      | [] => (l, None)
      | _ :: _ => (l, Some errInvalidNumberOfArguments)
      end
  end.

(** One round of the loop of [multiGlobParse], lines 693-716: the limits
    after pattern number [i], and whether the loop goes on. *)
Definition globRound (desc : bool) (first : bool) (limits g : string * string)
  : string * string * bool :=
  if ((fst g =? "") && (snd g =? ""))%string then (("", ""), false)
  else if first then (g, true)
  else if desc then
    ((if str_lt (fst limits) (fst g) then fst g else fst limits,
      if str_lt (snd g) (snd limits) then snd g else snd limits), true)
  else
    ((if str_lt (fst g) (fst limits) then fst g else fst limits,
      if str_lt (snd limits) (snd g) then snd g else snd limits), true).

Fixpoint globLoop (desc : bool) (first : bool) (limits : string * string)
    (globs : list string) : string * string :=
  match globs with
  | [] => limits
  | pattern :: rest =>
      let '(limits', go) := globRound desc first limits (glob_Limits pattern desc) in
      if go then globLoop desc false limits' rest else limits'
  end.

(** [multiGlobParse], lines 691-718. *)
Definition multiGlobParse (globs : list string) (desc : bool) : string * string :=
  globLoop desc true ("", "") globs.

(** The block [if sw.col != nil { ... }] of [cmdSearch], lines 750-790. *)
Definition searchDispatch (sargs : liveFenceSwitches) (e : exec)
  : exec * list call :=
  match col (sw e) with
  | None => (e, [])
  | Some c =>
      if (sw_output (sw e) =? outputCount)
         && (length (sw_wheres (sw e)) =? 0)%nat
         && globEverything (sw e)
      then
        let count := wrap_int (col_Count c - int_of_uint64 (cursor (base sargs))) in
        let count := if count <? 0 then 0 else count in
        (mkExec (sw_count (uint64_of_int count) (sw e)) (ierr e) (pushed e), [])
      else
        let limits := multiGlobParse (sw_globs (sw e)) (desc (base sargs)) in
        if ((fst limits =? "") && (snd limits =? ""))%string then
          (traverse iterWithin (SearchValues c (desc (base sargs))) e,
           [CallSearchValues (desc (base sargs))])
        else
          (traverse iterWithin
             (SearchValuesRange c (fst limits) (snd limits) (desc (base sargs))) e,
           [CallSearchValuesRange (fst limits) (snd limits) (desc (base sargs))])
  end.

(** [cmdSearch], lines 720-800. *)
Definition cmdSearch (s : Server) (msg : Message) : result :=
  let vs := tail (Args msg) in
  let '(sargs, err) := cmdSeachValuesArgs s vs in
  match err with
  | Some e => failed (plain e)
  | None =>
      match makeWriter s msg sargs true with
      | (_, Some e) => failed (plain e)
      | (sw0, None) =>
          let '(e, cs) := searchDispatch sargs (start msg sw0) in
          finish msg e cs
      end
  end.

End Commands.

(* ===================================================================== *)
(** ** A sample environment

    One instance of [Library] and [Index], to run the model on concrete
    commands; the general theorems below do not use it.  [strconv.Atoi] and
    [strconv.ParseFloat] are written out for decimal and hexadecimal
    literals; the tables of bing, geohash and Unicode are cut down to the
    entries the commands below need, as said at each of them. *)

Module Sample.

(** Decimal digits to a number. *)
Definition digit (c : ascii) : option Z :=
  let n := nat_of_ascii c in
  if ((48 <=? n)%nat && (n <=? 57)%nat)%bool then Some (Z.of_nat n - 48) else None.

Fixpoint digits (s : string) (acc : Z) : option Z :=
  match s with
  | EmptyString => Some acc
  | String c r =>
      match digit c with
      | Some d => digits r (10 * acc + d)
      | None => None
      end
  end.

(** An optional sign and at least one digit. *)
Definition integer (s : string) : option Z :=
  match s with
  | EmptyString => None
  | String "-" (String c r) => option_map Z.opp (digits (String c r) 0)
  | String "+" (String c r) => digits (String c r) 0
  | _ => digits s 0
  end.

(** [strconv.Atoi]: an integer literal that fits an [int]. *)
Definition atoi (s : string) : option Z :=
  match integer s with
  | Some n => if (- 2 ^ 63 <=? n) && (n <? 2 ^ 63) then Some n else None
  | None => None
  end.

Fixpoint float_of_pos (p : positive) : float64 :=
  match p with
  | xH => 1%float
  | xO q => (2 * float_of_pos q)%float
  | xI q => (2 * float_of_pos q + 1)%float
  end.

(** A whole number of size up to 2^53, which a [float64] holds exactly. *)
Definition float_of_Z (z : Z) : float64 :=
  match z with
  | Z0 => 0%float
  | Zpos p => float_of_pos p
  | Zneg p => (- float_of_pos p)%float
  end.

(** 2^n and 2^-n for the exponents of a [float64], all exact. *)
Fixpoint half_pow (p : positive) : float64 :=
  match p with
  | xH => 0.5%float
  | xO q => let h := half_pow q in (h * h)%float
  | xI q => let h := half_pow q in (h * h * 0.5)%float
  end.

Definition pow2 (x : Z) : float64 :=
  match x with
  | Z0 => 1%float
  | Zpos p => float_of_pos (2 ^ p)%positive
  | Zneg p => half_pow p
  end.

(** The [float64] nearest to [num / den], ties to even, and whether it
    overflows; [num] and [den] are above zero.  [q] is the quotient in units
    of the last place, 2^x. *)
Definition nearest (num den : Z) : float64 * bool :=
  let l := Z.log2 num - Z.log2 den in
  let e2 := if (if 0 <=? l then den * 2 ^ l <=? num else den <=? num * 2 ^ (- l))
            then l else l - 1 in
  let x := Z.max (e2 - 52) (-1074) in
  let n := if 0 <=? x then num else num * 2 ^ (- x) in
  let d := if 0 <=? x then den * 2 ^ x else den in
  let q := n / d in
  let r := n mod d in
  let q := if (d <? 2 * r) || ((d =? 2 * r) && Z.odd q) then q + 1 else q in
  if (971 <? x) || ((x =? 971) && (2 ^ 53 <=? q)) then (infinity, true)
  else ((float_of_Z q * pow2 x)%float, false).

(** The bytes of a string. *)
Definition codes (s : string) : list Z :=
  map (fun c => Z.of_nat (nat_of_ascii c)) (list_ascii_of_string s).

(** [lower(c)] of strconv: [c | ('x' - 'X')]. *)
Definition lower (c : Z) : Z := Z.lor c 32.

Definition isDigit (c : Z) : bool := (48 <=? c) && (c <=? 57).
Definition isHexLetter (c : Z) : bool := (97 <=? lower c) && (lower c <=? 102).

(** [underscoreOK] of strconv: an underscore stands between two digits, or
    between a base prefix and a digit.  [saw] is the last byte seen: 0 for a
    digit, 1 for an underscore, 2 for the start, 3 for another byte. *)
Fixpoint underscoresFrom (hex : bool) (saw : Z) (s : list Z) : bool :=
  match s with
  | [] => negb (saw =? 1)
  | c :: r =>
      if isDigit c || (hex && isHexLetter c) then underscoresFrom hex 0 r
      else if c =? 95 then
        if saw =? 0 then underscoresFrom hex 1 r else false
      else if saw =? 1 then false
      else underscoresFrom hex 3 r
  end.

Definition underscoreOK (s : list Z) : bool :=
  let s := match s with
           | c :: r => if (c =? 45) || (c =? 43) then r else s
           | [] => s
           end in
  match s with
  | 48 :: c :: r =>
      if (lower c =? 98) || (lower c =? 111) || (lower c =? 120)
      then underscoresFrom (lower c =? 120) 0 r
      else underscoresFrom false 2 s
  | _ => underscoresFrom false 2 s
  end.

(** The state of the digit loop of [readFloat]: the digits read after the
    leading zeros as a number, how many they are, and the place of the
    decimal point among them. *)
Record mantissa : Type := mkMantissa {
  sawdot : bool;
  sawdigits : bool;
  nd : Z;
  dp : Z;
  mant : Z;
  underscores : bool
}.

Fixpoint readDigits (hex : bool) (m : mantissa) (s : list Z) : mantissa * list Z :=
  match s with
  | [] => (m, [])
  | c :: r =>
      if c =? 95 then
        readDigits hex (mkMantissa (sawdot m) (sawdigits m) (nd m) (dp m) (mant m) true) r
      else if c =? 46 then
        if sawdot m then (m, s)
        else readDigits hex
               (mkMantissa true (sawdigits m) (nd m) (nd m) (mant m) (underscores m)) r
      else if isDigit c then
        if (c =? 48) && (nd m =? 0) then
          readDigits hex
            (mkMantissa (sawdot m) true (nd m) (dp m - 1) (mant m) (underscores m)) r
        else
          readDigits hex
            (mkMantissa (sawdot m) true (nd m + 1) (dp m)
               ((if hex then 16 else 10) * mant m + (c - 48)) (underscores m)) r
      else if hex && isHexLetter c then
        readDigits hex
          (mkMantissa (sawdot m) true (nd m + 1) (dp m)
             (16 * mant m + (lower c - 97 + 10)) (underscores m)) r
      else (m, s)
  end.

(** The digits of an exponent; the number stops growing at 10000. *)
Fixpoint readExponent (e : Z) (u : bool) (s : list Z) : Z * bool * list Z :=
  match s with
  | c :: r =>
      if c =? 95 then readExponent e true r
      else if isDigit c then
        readExponent (if e <? 10000 then 10 * e + (c - 48) else e) u r
      else (e, u, s)
  | [] => (e, u, [])
  end.

(** [readFloat] of strconv on a whole token: the sign, whether the literal
    is hexadecimal, the digits as a number and the exponent of the base (10,
    or 2 for a hexadecimal literal) that goes with them; [None] for a token
    that is no literal. *)
Definition readFloat (s : list Z) : option (bool * bool * Z * Z) :=
  let '(neg, t) := match s with
                   | 43 :: r => (false, r)
                   | 45 :: r => (true, r)
                   | _ => (false, s)
                   end in
  let '(hex, t) := match t with
                   | 48 :: c :: d :: r =>
                       if lower c =? 120 then (true, d :: r) else (false, t)
                   | _ => (false, t)
                   end in
  let '(m, t) := readDigits hex (mkMantissa false false 0 0 0 false) t in
  if negb (sawdigits m) then None
  else
    let dp := if sawdot m then dp m else nd m in
    let scale := if hex then 4 else 1 in
    let finish (dp : Z) (u : bool) (t : list Z) :=
      match t with
      | _ :: _ => None
      | [] =>
          if u && negb (underscoreOK s) then None
          else Some (neg, hex, mant m, if mant m =? 0 then 0 else dp - scale * nd m)
      end in
    match t with
    | c :: r =>
        if lower c =? (if hex then 112 else 101) then
          let '(esign, r) := match r with
                             | 43 :: r' => (1, r')
                             | 45 :: r' => (-1, r')
                             | _ => (1, r)
                             end in
          match r with
          | d :: _ =>
              if isDigit d then
                let '(e, u, t') := readExponent 0 (underscores m) r in
                finish (scale * dp + e * esign) u t'
              else None
          | [] => None
          end
        else if hex then None else finish (scale * dp) (underscores m) t
    | [] => if hex then None else finish (scale * dp) (underscores m) t
    end.

(** [strconv.ParseFloat(s, 64)]: the spellings of infinity and NaN, then the
    decimal and hexadecimal literals, rounded to the nearest [float64]; a
    token that is no literal gives 0 and a syntax error, a number too large
    an infinity and a range error. *)
Definition parseFloat (s : string) : float64 * option error :=
  let signed := match s with
                | String "+" r => (false, r)
                | String "-" r => (true, r)
                | _ => (false, s)
                end in
  let word := lowerASCII (snd signed) in
  if ((word =? "inf") || (word =? "infinity"))%string
  then (if fst signed then neg_infinity else infinity, None)
  else if (lowerASCII s =? "nan")%string then (nan, None)
  else
    match readFloat (codes s) with
    | None => (0%float, Some (errFrom "strconv.ParseFloat: invalid syntax"))
    | Some (neg, hex, m, e) =>
        let sign (x : float64) := if neg then (- x)%float else x in
        let rangeError := Some (errFrom "strconv.ParseFloat: value out of range") in
        (* the number is at least 2^lo and below 2^hi *)
        let lo := Z.log2 m + (if hex then e else if 0 <=? e then 3 * e else 4 * e) in
        let hi := Z.log2 m + 1 + (if hex then e else if 0 <=? e then 4 * e else 3 * e) in
        if m =? 0 then (sign 0%float, None)
        else if 1024 <? lo then (sign infinity, rangeError)
        else if hi <? -1080 then (sign 0%float, None)
        else
          let '(x, over) :=
            let b := if hex then 2 else 10 in
            if 0 <=? e then nearest (m * b ^ e) 1 else nearest m (b ^ (- e)) in
          (sign x, if over then rangeError else None)
    end.

(** [strings.Map(unicode.ToLower, s)] with a table cut down to Basic Latin,
    the Latin-1 capitals U+00C0..U+00DE, and the three capitals whose lower
    case lies in another block: U+0130 (to 'i'), U+212A (to 'k') and U+212B
    (to U+00E5).  Every other byte is kept as it is. *)
Fixpoint mapLower (s : list Z) : list Z :=
  let single (a : Z) := if (65 <=? a) && (a <=? 90) then a + 32 else a in
  match s with
  | [] => []
  | a :: r =>
      match r with
      | b :: r' =>
          if (a =? 196) && (b =? 176) then 105 :: mapLower r'
          else if (a =? 195) && (128 <=? b) && (b <=? 191) then
            195 :: (if (b <=? 158) && negb (b =? 151) then b + 32 else b)
                :: mapLower r'
          else if (a =? 226) && (b =? 132) then
            match r' with
            | c :: r'' =>
                if c =? 170 then 107 :: mapLower r''
                else if c =? 171 then 195 :: 165 :: mapLower r''
                else single a :: mapLower r
            | [] => single a :: mapLower r
            end
          else single a :: mapLower r
      | [] => [single a]
      end
  end.

Definition toLower (s : string) : string :=
  string_of_list_ascii
    (map (fun c => ascii_of_nat (Z.to_nat c)) (mapLower (codes s))).

Definition world : Bounds :=
  mkBounds bing.MinLatitude bing.MinLongitude bing.MaxLatitude bing.MaxLongitude.

(** [bing.TileXYToBounds] on the tiles of zoom levels 0 and 1, whose edges
    are the domain bounds, the equator and the prime meridian.  Deeper
    tiles are not tabulated. *)
Definition tileBounds (x y z : Z) : Bounds :=
  if z =? 1 then
    mkBounds (if y =? 0 then 0%float else bing.MinLatitude)
             (if x =? 0 then bing.MinLongitude else 0%float)
             (if y =? 0 then bing.MaxLatitude else 0%float)
             (if x =? 0 then 0%float else bing.MaxLongitude)
  else world.

(** Quadkeys of at most one digit. *)
Definition quadKeyBounds (k : string) : option Bounds :=
  if (k =? "0")%string then Some (tileBounds 0 0 1)
  else if (k =? "1")%string then Some (tileBounds 1 0 1)
  else if (k =? "2")%string then Some (tileBounds 0 1 1)
  else if (k =? "3")%string then Some (tileBounds 1 1 1)
  else None.

Fixpoint hasMeta (s : string) : bool :=
  match s with
  | EmptyString => false
  | String c r =>
      (Ascii.eqb c "*" || Ascii.eqb c "?" || Ascii.eqb c "[")%bool || hasMeta r
  end.

(** The literal text before the first [*] or [?]. *)
Fixpoint literalPrefix (s : string) : string :=
  match s with
  | EmptyString => EmptyString
  | String c r =>
      if (Ascii.eqb c "*" || Ascii.eqb c "?")%bool then EmptyString
      else String c (literalPrefix r)
  end.

(** Prefix bounds of a pattern: none for a pattern that starts with a
    metacharacter, else the prefix and the prefix followed by the largest
    byte, the outer one first under [desc]. *)
Definition globLimits (pattern : string) (desc : bool) : string * string :=
  let p := literalPrefix pattern in
  if (p =? "")%string then ("", "")
  else
    let hi := p ++ String (ascii_of_nat 255) EmptyString in
    if desc then (hi, p) else (p, hi).

Definition with_key (v : string) (t : searchScanBaseTokens) :=
  mkBase v (cursor t) (output t) (precision t) (fence t) (distance t) (globs t)
    (wheres t) (whereins t) (whereevals t) (nofields t) (limit t) (sparse t)
    (desc t) (clip t) (buffer t) (hasbuffer t) (mvt t) (tileX t) (tileY t)
    (tileZ t).
Definition with_cursor (v : Z) (t : searchScanBaseTokens) :=
  mkBase (key t) v (output t) (precision t) (fence t) (distance t) (globs t)
    (wheres t) (whereins t) (whereevals t) (nofields t) (limit t) (sparse t)
    (desc t) (clip t) (buffer t) (hasbuffer t) (mvt t) (tileX t) (tileY t)
    (tileZ t).
Definition with_distance (v : bool) (t : searchScanBaseTokens) :=
  mkBase (key t) (cursor t) (output t) (precision t) (fence t) v (globs t)
    (wheres t) (whereins t) (whereevals t) (nofields t) (limit t) (sparse t)
    (desc t) (clip t) (buffer t) (hasbuffer t) (mvt t) (tileX t) (tileY t)
    (tileZ t).
Definition with_globs (v : list string) (t : searchScanBaseTokens) :=
  mkBase (key t) (cursor t) (output t) (precision t) (fence t) (distance t) v
    (wheres t) (whereins t) (whereevals t) (nofields t) (limit t) (sparse t)
    (desc t) (clip t) (buffer t) (hasbuffer t) (mvt t) (tileX t) (tileY t)
    (tileZ t).
Definition with_sparse (v : Z) (t : searchScanBaseTokens) :=
  mkBase (key t) (cursor t) (output t) (precision t) (fence t) (distance t)
    (globs t) (wheres t) (whereins t) (whereevals t) (nofields t) (limit t) v
    (desc t) (clip t) (buffer t) (hasbuffer t) (mvt t) (tileX t) (tileY t)
    (tileZ t).
Definition with_desc (v : bool) (t : searchScanBaseTokens) :=
  mkBase (key t) (cursor t) (output t) (precision t) (fence t) (distance t)
    (globs t) (wheres t) (whereins t) (whereevals t) (nofields t) (limit t)
    (sparse t) v (clip t) (buffer t) (hasbuffer t) (mvt t) (tileX t) (tileY t)
    (tileZ t).
Definition with_clip (v : bool) (t : searchScanBaseTokens) :=
  mkBase (key t) (cursor t) (output t) (precision t) (fence t) (distance t)
    (globs t) (wheres t) (whereins t) (whereevals t) (nofields t) (limit t)
    (sparse t) (desc t) v (buffer t) (hasbuffer t) (mvt t) (tileX t) (tileY t)
    (tileZ t).

Definition oObjects : outputT := 2.
Definition oCount : outputT := 3.
Definition oBounds : outputT := 6.

(** The options that may follow the key, in any order; the first token
    that is none of them ends the base tokens. *)
Fixpoint options (fuel : nat) (t : searchScanBaseTokens) (vs : list string)
  : list string * searchScanBaseTokens * option error :=
  match fuel, vs with
  | S n, tok :: rest =>
      let l := if isASCII tok then lowerASCII tok else toLower tok in
      if (l =? "fence")%string then options n (with_fence true t) rest
      else if (l =? "clip")%string then options n (with_clip true t) rest
      else if (l =? "distance")%string then options n (with_distance true t) rest
      else if (l =? "desc")%string then options n (with_desc true t) rest
      else if (l =? "count")%string then options n (with_output oCount t) rest
      else if (l =? "bounds")%string then options n (with_output oBounds t) rest
      else if ((l =? "cursor") || (l =? "sparse") || (l =? "match"))%string then
        match rest with
        | [] => ([], t, Some errInvalidNumberOfArguments)
        | arg :: rest' =>
            if (l =? "match")%string
            then options n (with_globs (globs t ++ [arg]) t) rest'
            else
              match integer arg with
              | Some v =>
                  if (l =? "cursor")%string then
                    if (0 <=? v) && (v <? 2 ^ 64)
                    then options n (with_cursor v t) rest'
                    else ([], t, Some (errInvalidArgument arg))
                  else
                    if (1 <=? v) && (v <=? 8)
                    then options n (with_sparse v t) rest'
                    else ([], t, Some (errInvalidArgument arg))
              | None => ([], t, Some (errInvalidArgument arg))
              end
        end
      else (vs, t, None)
  | _, _ => (vs, t, None)
  end.

(** The key, then the options. *)
Definition baseTokens (s : Server) (cmd : string) (t : searchScanBaseTokens)
    (vs : list string) : list string * searchScanBaseTokens * option error :=
  match vs with
  | [] => ([], t, Some errInvalidNumberOfArguments)
  | k :: rest =>
      if (k =? "")%string then ([], t, Some errInvalidNumberOfArguments)
      else options (length rest) (with_output oObjects (with_key k t)) rest
  end.

#[export] Instance library : Library := {|
  strconv_ParseFloat := parseFloat;
  strings_Map_ToLower := toLower;
  Atoi := atoi;
  geohash_BoundingBox := fun _ => world;
  bing_QuadKeyToBounds := quadKeyBounds;
  bing_TileXYToBounds := tileBounds;
  geojson_Parse := fun json => (geojson.Other json, None);
  sectr_JSON := fun _ _ _ _ _ => "sector";
  clip_Clip := fun o _ => o;
  buffer_Simple := fun o _ => (o, None);
  glob_IsGlob := hasMeta;
  glob_Limits := globLimits;
  parseSearchScanBaseTokens := baseTokens;
  outputBounds := oBounds;
  outputCount := oCount;
  defaultSearchOutput := oObjects
|}.

(** The distance the sample index reports for a stored object, whatever the
    target: 0 for truck-1 and 300 km for any other. *)
Definition reported (o : object.Object) : float64 :=
  if (object.ID o =? "truck-1")%string then 0%float else 300000%float.

(** Candidates in the order of their distance, the nearest first. *)
Fixpoint nearer (c : object.Object * float64)
    (l : list (object.Object * float64)) : list (object.Object * float64) :=
  match l with
  | [] => [c]
  | d :: r => if (snd c <=? snd d)%float then c :: l else d :: nearer c r
  end.

Definition nearestFirst (l : list (object.Object * float64))
  : list (object.Object * float64) :=
  fold_right nearer [] l.

(** A scan writer that accepts every candidate and counts it, and an index
    that hands over every object of the collection. *)
#[export] Instance index : Index := {|
  newScanWriter := fun s msg key output precision globs matchValues cursor
                       limit wheres whereins whereevals nofields mvt x y z =>
    (mkSw (cols_Get s key) output wheres globs
          (forallb (fun g => (g =? "*")%string) globs) 0 [] (resp.Native ""),
     None);
  pushObject := fun sw p => (sw_count (count sw + 1) sw, true, None);
  writeFoot := fun sw => sw;
  retrerr := fun e => (resp.NOMessage, Some (plain e));
  Distance := fun _ _ => 0%float;
  Nearby := fun c _ =>
    nearestFirst (map (fun kv => (snd kv, reported (snd kv))) (map_to_list (items c)));
  Intersects := fun c _ _ => map snd (map_to_list (items c));
  Within := fun c _ _ => map snd (map_to_list (items c));
  SearchValues := fun c _ => map snd (map_to_list (items c));
  SearchValuesRange := fun c _ _ _ => map snd (map_to_list (items c))
|}.

(** A server with one collection, [fleet], of two trucks. *)
Definition truck (n : string) (lat lon : float64) : object.Object :=
  object.mkObject n (geojson.Point (geometry.mkPoint lon lat)).

Definition fleet : Collection :=
  mkCollection (list_to_map [("truck-1", truck "truck-1" 33%float (-115)%float);
                             ("truck-2", truck "truck-2" 34%float (-112)%float)]).

Definition server : Server := mkServer {[ "fleet" := fleet ]}.

Definition message (args : list string) : Message := mkMessage args RESP 0.

End Sample.

(* ===================================================================== *)
(** ** The vocabulary of the properties *)

(** The expansion as the specification words it: every edge moves outward
    by 10% of the height or width of the tile rectangle, the same amount on
    both sides, and is then clamped to the domain. *)
Definition expandMvt_symmetric (rect : geometry.Rect) : geometry.Rect :=
  let minX := geometry.X (geometry.Min rect) in
  let minY := geometry.Y (geometry.Min rect) in
  let maxX := geometry.X (geometry.Max rect) in
  let maxY := geometry.Y (geometry.Max rect) in
  let dy := ((maxY - minY) * 0.1)%float in
  let dx := ((maxX - minX) * 0.1)%float in
  let minY := (minY - dy)%float in
  let maxY := (maxY + dy)%float in
  let minX := (minX - dx)%float in
  let maxX := (maxX + dx)%float in
  let minY := if (minY <? bing.MinLatitude)%float then bing.MinLatitude else minY in
  let maxY := if (bing.MaxLatitude <? maxY)%float then bing.MaxLatitude else maxY in
  let minX := if (minX <? bing.MinLongitude)%float then bing.MinLongitude else minX in
  let maxX := if (bing.MaxLongitude <? maxX)%float then bing.MaxLongitude else maxX in
  geometry.mkRect (geometry.mkPoint minX minY) (geometry.mkPoint maxX maxY).

(** The circle a nearby point target resolves to. *)
Definition nearbyCircle (lat lon meters : float64) : geojson.Object :=
  geojson.NewCircle (geometry.mkPoint lon lat) meters defaultCircleSteps.
Arguments nearbyCircle (lat lon meters)%_float.

(** [x] is the minimum, or the maximum, of the strings of [l] in Go's
    order. *)
Definition minimum_of (l : list string) (x : string) : Prop :=
  In x l /\ forall y, In y l -> str_le x y = true.

Definition maximum_of (l : list string) (x : string) : Prop :=
  In x l /\ forall y, In y l -> str_le y x = true.

(** A pattern with no derivable bound: both limits empty. *)
Definition noBound (g : string * string) : bool :=
  ((fst g =? "") && (snd g =? ""))%string.

(** The limits of the patterns, in order. *)
Definition limitsOf `{Library} (globs : list string) (desc : bool)
  : list (string * string) :=
  map (fun pattern => glob_Limits pattern desc) globs.

(** [keeps I m V]: run from a frame where [I] holds, the step [m] leaves a
    frame where [I] holds, whether it falls through or returns, and a value
    it falls through with satisfies [V]. *)
Definition keeps {A : Type} (I : frame -> Prop) (m : step A) (V : A -> Prop)
  : Prop :=
  forall f, I f -> I (fst (m f)) /\ (forall a, snd (m f) = Next a -> V a).

(** The three tile fields of a descriptor. *)
Definition tiles (l : liveFenceSwitches) : Z * Z * Z :=
  (tileX (base l), tileY (base l), tileZ (base l)).

(** A token that does not name a tile-like kind. *)
Definition notTile `{Library} (tok : string) : Prop :=
  ToLower tok <> "tile" /\ ToLower tok <> "mvt".

(** The invariant of the tile fields: no token left names a tile-like kind,
    and the fields satisfy [K]. *)
Definition tileInv `{Library} (K : Z * Z * Z -> Prop) (f : frame) : Prop :=
  Forall notTile (vs f) /\ K (tiles (lfs f)).

(** The tile fields of a descriptor that is not a tile query. *)
Definition zeroTiles (x : Z * Z * Z) : Prop := x = (0, 0, 0).

(** The three rectangle kinds that are not tile-like. *)
Definition plainRect (ltyp : string) : Prop :=
  ltyp = "bounds" \/ ltyp = "hash" \/ ltyp = "quadkey".

(** The kind is a plain rectangle: named by the kind token, or BOUNDS
    implied by a number after the output mode BOUNDS. *)
Definition plainRectKind `{Library} (cmd : string) (o : outputT) (typ : string)
  : Prop :=
  isImplicitBounds cmd o typ = true
  \/ (isImplicitBounds cmd o typ = false /\ plainRect (ToLower typ)).

(** [cmdSearchArgs] as [cmdNearby] and [cmdWITHINorINTERSECTS] call it, on
    the sample server. *)
Definition resolve (cmd : string) (args : list string)
  : liveFenceSwitches * option error :=
  @cmdSearchArgs Sample.library Sample.server false cmd args
    (if (cmd =? "nearby")%string then nearbyTypes else withinOrIntersectsTypes).

(** The five kinds [parseRectArea] has a case for. *)
Definition rectKind (ltyp : string) : bool :=
  ((ltyp =? "bounds") || (ltyp =? "hash") || (ltyp =? "quadkey")
   || (ltyp =? "tile") || (ltyp =? "mvt"))%string.

(** The number of tokens each of these kinds reads. *)
Definition arity (ltyp : string) : nat :=
  if (ltyp =? "bounds")%string then 4%nat
  else if ((ltyp =? "hash") || (ltyp =? "quadkey"))%string then 1%nat
  else 3%nat.

(** A step that executes [return] only with an error stored in [err]. *)
Definition returnsWithError {A : Type} (m : step A) : Prop :=
  forall f f', m f = (f', Return) -> err f' <> None.

(** The descriptor after a [clipby] clause whose rectangle is [r]. *)
Definition clipped `{Library} (r : RectArea) (l : liveFenceSwitches)
  : liveFenceSwitches :=
  lfs_obj (clip_Clip (obj l) (grect r))
          (lfs_base (with_tile (rtileX r) (rtileY r) (rtileZ r)) l).

(** A callback that, on each candidate, pushes that candidate's object or
    stops without pushing. *)
Definition pushesOrStops {C : Type} (proj : C -> object.Object)
    (iter : C -> exec -> exec * bool) : Prop :=
  forall c e,
    (pushed (fst (iter c e)) = pushed e /\ snd (iter c e) = false)
    \/ (exists p, pushed (fst (iter c e)) = (pushed e ++ [p])%list
                  /\ p_obj p = proj c).

(** The parameters [cmdNearby] pushes: both tests off in the sink, no clip
    geometry, the distance flag of the descriptor. *)
Definition nearbyParams (sargs : liveFenceSwitches) (p : ScanWriterParams)
  : Prop :=
  p_ignoreGlobMatch p = true /\ p_skipTesting p = true
  /\ p_clip p = geojson.nil /\ p_distOutput p = distance (base sargs)
  /\ (distance (base sargs) = false -> p_dist p = 0%float).

(** The parameters [cmdWITHINorINTERSECTS] pushes: the candidate alone, and
    for intersects with a clip request the target as the clip geometry. *)
Definition withinParams (cmd : string) (sargs : liveFenceSwitches)
    (p : ScanWriterParams) : Prop :=
  p_ignoreGlobMatch p = false /\ p_skipTesting p = false
  /\ p_distOutput p = false
  /\ p_clip p = (if ((cmd =? "intersects")%string && clip (base sargs))%bool
                 then obj sargs else geojson.nil).

(* ===================================================================== *)
(** * Properties *)

(* ===================================================================== *)
(** ** The mvt rectangle (parseRectArea) *)

(** For every library, an [mvt] target that parses resolves to [expandMvt]
    of the tile's bounds. *)
Lemma parseRectArea_mvt `{Library} (sx sy sz : string) (x y z : Z)
    (rest : list string) :
  sx <> "" -> sy <> "" -> sz <> "" ->
  Atoi sx = Some x -> Atoi sy = Some y -> Atoi sz = Some z ->
  0 <= x -> 0 <= y -> 0 <= z <= 23 ->
  parseRectArea "mvt" (sx :: sy :: sz :: rest)
  = mkRectArea rest
      (geojson.Rect (expandMvt (rect_of_bounds (bing_TileXYToBounds x y z))))
      x y z None.
Proof.
  intros Hx Hy Hz Ax Ay Az Px Py Pz.
  unfold parseRectArea, rectToken, rectInt, rectDone, missing; simpl.
  apply String.eqb_neq in Hx, Hy, Hz. rewrite Hx, Hy, Hz; simpl.
  rewrite Ax, Ay, Az.
  replace (x <? 0) with false by lia.
  replace (y <? 0) with false by lia.
  replace (z <? 0) with false by lia.
  replace (23 <? z) with false by lia.
  reflexivity.
Qed.

(* ===================================================================== *)
(** ** Fence requests go live (cmdNearby, cmdWITHINorINTERSECTS) *)

Section GoingLive.
Context `{Library} `{Index}.

Lemma cmdNearby_fence (s : Server) (msg : Message) (sargs : liveFenceSwitches) :
  cmdSearchArgs s false "nearby" (tail (Args msg)) nearbyTypes = (sargs, None) ->
  fence (base sargs) = true ->
  cmdNearby s msg = failed (live (lfs_cmd "nearby" sargs)).
Proof.
  intros E F. unfold cmdNearby. rewrite E. simpl. rewrite F. reflexivity.
Qed.

Lemma cmdWITHINorINTERSECTS_fence (s : Server) (cmd : string) (msg : Message)
    (sargs : liveFenceSwitches) :
  cmdSearchArgs s false cmd (tail (Args msg)) withinOrIntersectsTypes
    = (sargs, None) ->
  fence (base sargs) = true ->
  cmdWITHINorINTERSECTS s cmd msg = failed (live (lfs_cmd cmd sargs)).
Proof.
  intros E F. unfold cmdWITHINorINTERSECTS. rewrite E. simpl. rewrite F.
  reflexivity.
Qed.

End GoingLive.

(** C3.  When the descriptor resolves and its fence flag is set, [cmdNearby]
    and [cmdWITHINorINTERSECTS] (so [cmdWITHIN] and [cmdINTERSECTS]) return
    [NOMessage] with, as the error value, the resolved descriptor with its
    [cmd] field filled in; the command has made no call to the index, created
    no scan writer and pushed no candidate; and the [Error] text of a
    descriptor is [goingLive].  The hypotheses are that [cmdSearchArgs]
    returned the descriptor without error and that its flag is set. *)
Theorem fence_request_goes_live `{Library} `{Index}
    (s : Server) (msg : Message) (sargs : liveFenceSwitches) :
  fence (base sargs) = true ->
  (cmdSearchArgs s false "nearby" (tail (Args msg)) nearbyTypes = (sargs, None) ->
     cmdNearby s msg
     = mkResult (Returned resp.NOMessage (Some (live (lfs_cmd "nearby" sargs))))
                [] None [])
  /\ (forall cmd : string,
      cmdSearchArgs s false cmd (tail (Args msg)) withinOrIntersectsTypes
        = (sargs, None) ->
      cmdWITHINorINTERSECTS s cmd msg
      = mkResult (Returned resp.NOMessage (Some (live (lfs_cmd cmd sargs))))
                 [] None [])
  /\ (forall cmd : string,
      Error (live (lfs_cmd cmd sargs)) = Some goingLive
      /\ base (lfs_cmd cmd sargs) = base sargs
      /\ obj (lfs_cmd cmd sargs) = obj sargs
      /\ roam (lfs_cmd cmd sargs) = roam sargs).
Proof.
  intros F. split; [|split].
  - intros E. apply (cmdNearby_fence _ _ _ E F).
  - intros cmd E. apply (cmdWITHINorINTERSECTS_fence _ _ _ _ E F).
  - intros cmd. repeat split.
Qed.

(* ===================================================================== *)
(** ** SPARSE (cmdNearby) *)

Section NearbyDispatch.
Context `{Library} `{Index}.

Lemma calls_finish (msg : Message) (e : exec) (cs : list call) :
  calls (finish msg e cs) = cs.
Proof.
  unfold finish. destruct (ierr e); [destruct (retrerr _) | destruct (OutputType msg)];
    reflexivity.
Qed.

Lemma pushes_finish (msg : Message) (e : exec) (cs : list call) :
  pushes (finish msg e cs) = pushed e.
Proof.
  unfold finish. destruct (ierr e); [destruct (retrerr _) | destruct (OutputType msg)];
    reflexivity.
Qed.

(** [cmdNearby] once the descriptor is resolved, is no fence request and
    the scan writer exists: the command is its dispatch block. *)
Lemma cmdNearby_dispatch (s : Server) (msg : Message)
    (sargs : liveFenceSwitches) (sw0 : scanWriter) :
  cmdSearchArgs s false "nearby" (tail (Args msg)) nearbyTypes = (sargs, None) ->
  fence (base sargs) = false ->
  makeWriter s msg (lfs_cmd "nearby" sargs) false = (sw0, None) ->
  cmdNearby s msg =
    match nearbyDispatch (lfs_cmd "nearby" sargs) (start msg sw0) with
    | None => mkResult Panicked [] (Some (sw (start msg sw0))) []
    | Some (inl e) =>
        mkResult (Returned resp.NOMessage (Some (plain e))) []
                 (Some (sw (start msg sw0))) []
    | Some (inr (e, cs)) => finish msg e cs
    end.
Proof.
  intros E F W. unfold cmdNearby. rewrite E. simpl. rewrite F.
  simpl in W. rewrite W. reflexivity.
Qed.

Lemma col_start (msg : Message) (sw0 : scanWriter) :
  col (sw (start msg sw0)) = col sw0.
Proof. unfold start. destruct (OutputType msg); reflexivity. Qed.

End NearbyDispatch.

(** C5 (amended).  For a nearby command whose descriptor resolves to a
    circle with [sparse > 0], that is no fence request, whose scan writer is
    created and whose key names an existing collection: if the radius is
    negative the command returns the error "cannot use SPARSE without a
    point distance" and makes no index call and pushes nothing; if the
    radius is not negative its only index call is [Intersects] on the
    target with the sparse factor, and [Nearby] is not called. *)
Theorem sparse_needs_a_distance `{Library} `{Index}
    (s : Server) (msg : Message) (sargs : liveFenceSwitches)
    (sw0 : scanWriter) (c : Collection)
    (center : geometry.Point) (maxDist : float64) (steps : Z) :
  cmdSearchArgs s false "nearby" (tail (Args msg)) nearbyTypes = (sargs, None) ->
  fence (base sargs) = false ->
  makeWriter s msg (lfs_cmd "nearby" sargs) false = (sw0, None) ->
  col sw0 = Some c ->
  obj sargs = geojson.Circle center maxDist steps ->
  0 < sparse (base sargs) ->
  ((maxDist <? 0)%float = true ->
     out (cmdNearby s msg) = Returned resp.NOMessage (Some (plain sparseError))
     /\ calls (cmdNearby s msg) = [] /\ pushes (cmdNearby s msg) = [])
  /\ ((maxDist <? 0)%float = false ->
     calls (cmdNearby s msg)
     = [CallIntersects (obj sargs) (sparse (base sargs))]).
Proof.
  intros E F W C O S.
  rewrite (cmdNearby_dispatch _ _ _ _ E F W).
  unfold nearbyDispatch. rewrite col_start, C. simpl. rewrite O.
  replace (0 <? sparse (base sargs)) with true by lia.
  split; intros M; rewrite M.
  - repeat split.
  - apply calls_finish.
Qed.

(** The callback of the nearest-first traversal, case by case. *)
Lemma iterNearby_cutoff `{Library} `{Index} (sargs : liveFenceSwitches)
    (maxDist : float64) (o : object.Object) (dist : float64) (e : exec) :
  iterNearby sargs maxDist (o, dist) e =
    if ((0 <? maxDist) && (maxDist <? dist))%float then (e, false)
    else iterStep sargs o (if distance (base sargs) then dist else 0%float) e.
Proof. reflexivity. Qed.

(** A traversal stops at the first candidate its callback refuses: the
    candidates after it are never handed to the callback. *)
Lemma traverse_stops {C : Type} (iter : C -> exec -> exec * bool)
    (before after : list C) (c : C) (e : exec) :
  (forall e', snd (iter c e') = false) ->
  traverse iter (before ++ c :: after) e = traverse iter (before ++ [c]) e.
Proof.
  intros Stop. revert e. induction before as [|b before IH]; intros e; simpl.
  - specialize (Stop e). destruct (iter c e) as [e' k]. simpl in Stop.
    subst k. reflexivity.
  - destruct (iter b e) as [e' k]. destruct k; [apply IH | reflexivity].
Qed.

(** Without SPARSE the dispatch block of [cmdNearby] is the nearest-first
    traversal with [iterNearby] as its callback. *)
Lemma nearbyDispatch_nearest `{Library} `{Index} (sargs : liveFenceSwitches)
    (e : exec) (c : Collection) (center : geometry.Point)
    (maxDist : float64) (steps : Z) :
  col (sw e) = Some c ->
  obj sargs = geojson.Circle center maxDist steps ->
  sparse (base sargs) = 0 ->
  nearbyDispatch sargs e
  = Some (inr (traverse (iterNearby sargs maxDist) (Nearby c (obj sargs)) e,
               [CallNearby (obj sargs)])).
Proof.
  intros C O S. unfold nearbyDispatch. rewrite C, O, S. reflexivity.
Qed.

(* ===================================================================== *)
(** ** The count shortcut (cmdSearch) *)

Section CountShortcut.
Context `{Library} `{Index}.

(** The shortcut is taken, and no index call is made, whatever the cursor. *)
Lemma searchDispatch_shortcut (sargs : liveFenceSwitches) (e : exec)
    (c : Collection) :
  col (sw e) = Some c ->
  sw_output (sw e) = outputCount ->
  sw_wheres (sw e) = [] ->
  globEverything (sw e) = true ->
  searchDispatch sargs e
  = (mkExec
       (sw_count
          (uint64_of_int
             (let n := wrap_int (col_Count c - int_of_uint64 (cursor (base sargs))) in
              if n <? 0 then 0 else n))
          (sw e))
       (ierr e) (pushed e), []).
Proof.
  intros C O W G. unfold searchDispatch. rewrite C, O, W, G.
  rewrite Z.eqb_refl. reflexivity.
Qed.

(** X23.  The count shortcut of [cmdSearch]: for a cursor below 2^63 the
    count is the collection's count less the cursor, floored at zero, and no
    traversal is made. *)
Lemma searchDispatch_count (sargs : liveFenceSwitches) (e : exec)
    (c : Collection) :
  col (sw e) = Some c ->
  sw_output (sw e) = outputCount ->
  sw_wheres (sw e) = [] ->
  globEverything (sw e) = true ->
  col_Count c < 2 ^ 63 ->
  0 <= cursor (base sargs) < 2 ^ 63 ->
  count (sw (fst (searchDispatch sargs e)))
    = Z.max (col_Count c - cursor (base sargs)) 0
  /\ snd (searchDispatch sargs e) = [].
Proof.
  intros C O W G Hc Hk.
  rewrite (searchDispatch_shortcut _ _ _ C O W G). simpl. split; [|reflexivity].
  assert (0 <= col_Count c) by (unfold col_Count; lia).
  unfold int_of_uint64, wrap_int, uint64_of_int.
  replace (cursor (base sargs) <? 2 ^ 63) with true by lia.
  set (d := col_Count c - cursor (base sargs)).
  assert (E : (d + 2 ^ 63) mod 2 ^ 64 - 2 ^ 63 = d).
  { rewrite Z.mod_small; lia. }
  rewrite E. destruct (Z.ltb_spec d 0).
  - rewrite Z.mod_small; lia.
  - rewrite Z.mod_small; lia.
Qed.

(** For a cursor from 2^63 on, [int(cursor)] is negative and the count comes
    out above the collection's count. *)
Lemma searchDispatch_count_wraps (sargs : liveFenceSwitches) (e : exec)
    (c : Collection) :
  col (sw e) = Some c ->
  sw_output (sw e) = outputCount ->
  sw_wheres (sw e) = [] ->
  globEverything (sw e) = true ->
  2 ^ 63 <= cursor (base sargs) < 2 ^ 64 ->
  col_Count c + (2 ^ 64 - cursor (base sargs)) < 2 ^ 63 ->
  count (sw (fst (searchDispatch sargs e)))
    = col_Count c + (2 ^ 64 - cursor (base sargs)).
Proof.
  intros C O W G Hk Hc.
  rewrite (searchDispatch_shortcut _ _ _ C O W G). simpl.
  assert (0 <= col_Count c) by (unfold col_Count; lia).
  unfold int_of_uint64, wrap_int, uint64_of_int.
  replace (cursor (base sargs) <? 2 ^ 63) with false by lia.
  set (d := col_Count c - (cursor (base sargs) - 2 ^ 64)).
  assert (E : (d + 2 ^ 63) mod 2 ^ 64 - 2 ^ 63 = d).
  { rewrite Z.mod_small; lia. }
  rewrite E. replace (d <? 0) with false by lia.
  rewrite Z.mod_small; lia.
Qed.

End CountShortcut.

(* ===================================================================== *)
(** ** Value-range bounds (multiGlobParse) *)

(** Go's string order is a total order. *)
Lemma ascii_compare_refl (a : ascii) : Ascii.compare a a = Eq.
Proof. unfold Ascii.compare. apply N.compare_refl. Qed.

Lemma ascii_compare_lt_trans (a b c : ascii) :
  Ascii.compare a b = Lt -> Ascii.compare b c = Lt -> Ascii.compare a c = Lt.
Proof.
  unfold Ascii.compare. rewrite !N.compare_lt_iff. lia.
Qed.

Lemma str_compare_refl (a : string) : String.compare a a = Eq.
Proof.
  induction a as [|c a IH]; simpl; [reflexivity|].
  rewrite ascii_compare_refl. exact IH.
Qed.

Lemma str_compare_lt_trans (a b c : string) :
  String.compare a b = Lt -> String.compare b c = Lt -> String.compare a c = Lt.
Proof.
  revert b c. induction a as [|x a IH]; intros [|y b] [|z c]; simpl;
    try discriminate; try reflexivity.
  destruct (Ascii.compare x y) eqn:Exy; try discriminate;
  destruct (Ascii.compare y z) eqn:Eyz; try discriminate; intros Hab Hbc.
  - apply Ascii.compare_eq_iff in Exy, Eyz. subst.
    rewrite ascii_compare_refl. eapply IH; eassumption.
  - apply Ascii.compare_eq_iff in Exy. subst. rewrite Eyz. reflexivity.
  - apply Ascii.compare_eq_iff in Eyz. subst. rewrite Exy. reflexivity.
  - rewrite (ascii_compare_lt_trans _ _ _ Exy Eyz). reflexivity.
Qed.

Lemma str_le_refl (a : string) : str_le a a = true.
Proof. unfold str_le, String.leb. rewrite str_compare_refl. reflexivity. Qed.

Lemma str_lt_le (a b : string) : str_lt a b = true -> str_le a b = true.
Proof.
  unfold str_lt, str_le, String.ltb, String.leb.
  destruct (String.compare a b); congruence.
Qed.

Lemma str_nlt_le (a b : string) : str_lt a b = false -> str_le b a = true.
Proof.
  unfold str_lt, str_le, String.ltb, String.leb.
  rewrite (String.compare_antisym a b).
  destruct (String.compare b a); simpl; congruence.
Qed.

Lemma str_le_trans (a b c : string) :
  str_le a b = true -> str_le b c = true -> str_le a c = true.
Proof.
  unfold str_le, String.leb.
  destruct (String.compare a b) eqn:Eab; try discriminate;
  destruct (String.compare b c) eqn:Ebc; try discriminate; intros _ _.
  - apply String.compare_eq_iff in Eab, Ebc. subst.
    rewrite str_compare_refl. reflexivity.
  - apply String.compare_eq_iff in Eab. subst. rewrite Ebc. reflexivity.
  - apply String.compare_eq_iff in Ebc. subst. rewrite Eab. reflexivity.
  - rewrite (str_compare_lt_trans _ _ _ Eab Ebc). reflexivity.
Qed.

Lemma minimum_of_cons (l : list string) (x g : string) :
  minimum_of l x ->
  minimum_of (l ++ [g]) (if str_lt g x then g else x).
Proof.
  intros [I L]. destruct (str_lt g x) eqn:E; split.
  - apply in_or_app. right. left. reflexivity.
  - intros y [Y | [<- | []]]%in_app_or.
    + eapply str_le_trans; [apply str_lt_le, E | apply L, Y].
    + apply str_le_refl.
  - apply in_or_app. left. exact I.
  - intros y [Y | [<- | []]]%in_app_or.
    + apply L, Y.
    + apply str_nlt_le, E.
Qed.

Lemma maximum_of_cons (l : list string) (x g : string) :
  maximum_of l x ->
  maximum_of (l ++ [g]) (if str_lt x g then g else x).
Proof.
  intros [I L]. destruct (str_lt x g) eqn:E; split.
  - apply in_or_app. right. left. reflexivity.
  - intros y [Y | [<- | []]]%in_app_or.
    + eapply str_le_trans; [apply L, Y | apply str_lt_le, E].
    + apply str_le_refl.
  - apply in_or_app. left. exact I.
  - intros y [Y | [<- | []]]%in_app_or.
    + apply L, Y.
    + apply str_nlt_le, E.
Qed.

Section MultiGlobParse.
Context `{Library}.

Lemma globLoop_noBound (desc first : bool) (limits : string * string)
    (globs : list string) :
  existsb noBound (limitsOf globs desc) = true ->
  globLoop desc first limits globs = ("", "").
Proof.
  revert first limits. induction globs as [|p globs IH]; intros first limits;
    simpl; [discriminate|].
  unfold globRound. fold (noBound (glob_Limits p desc)).
  destruct (noBound (glob_Limits p desc)) eqn:N; simpl; [reflexivity|].
  intros E. destruct first; [|destruct desc]; apply IH, E.
Qed.

(** The loop after its first round: the running limits are the minimum and
    maximum (ascending) or maximum and minimum (descending) of the limits
    seen so far, and stay so. *)
Lemma globLoop_asc (seen : list (string * string)) (limits : string * string)
    (globs : list string) :
  existsb noBound (limitsOf globs false) = false ->
  minimum_of (map fst seen) (fst limits) ->
  maximum_of (map snd seen) (snd limits) ->
  minimum_of (map fst (seen ++ limitsOf globs false))
             (fst (globLoop false false limits globs))
  /\ maximum_of (map snd (seen ++ limitsOf globs false))
                (snd (globLoop false false limits globs)).
Proof.
  revert seen limits. induction globs as [|p globs IH]; intros seen limits;
    simpl.
  - rewrite app_nil_r. auto.
  - unfold globRound. fold (noBound (glob_Limits p false)).
    destruct (noBound (glob_Limits p false)) eqn:N; simpl; [discriminate|].
    intros E Mn Mx.
    replace (seen ++ glob_Limits p false :: limitsOf globs false)%list
      with ((seen ++ [glob_Limits p false]) ++ limitsOf globs false)%list
      by (rewrite <- app_assoc; reflexivity).
    apply IH; [exact E| |]; rewrite map_app; simpl.
    + apply minimum_of_cons, Mn.
    + apply maximum_of_cons, Mx.
Qed.

Lemma globLoop_desc (seen : list (string * string)) (limits : string * string)
    (globs : list string) :
  existsb noBound (limitsOf globs true) = false ->
  maximum_of (map fst seen) (fst limits) ->
  minimum_of (map snd seen) (snd limits) ->
  maximum_of (map fst (seen ++ limitsOf globs true))
             (fst (globLoop true false limits globs))
  /\ minimum_of (map snd (seen ++ limitsOf globs true))
                (snd (globLoop true false limits globs)).
Proof.
  revert seen limits. induction globs as [|p globs IH]; intros seen limits;
    simpl.
  - rewrite app_nil_r. auto.
  - unfold globRound. fold (noBound (glob_Limits p true)).
    destruct (noBound (glob_Limits p true)) eqn:N; simpl; [discriminate|].
    intros E Mx Mn.
    replace (seen ++ glob_Limits p true :: limitsOf globs true)%list
      with ((seen ++ [glob_Limits p true]) ++ limitsOf globs true)%list
      by (rewrite <- app_assoc; reflexivity).
    apply IH; [exact E| |]; rewrite map_app; simpl.
    + apply maximum_of_cons, Mx.
    + apply minimum_of_cons, Mn.
Qed.

Lemma singleton_extremes (x : string) :
  minimum_of [x] x /\ maximum_of [x] x.
Proof.
  split; (split; [left; reflexivity|]);
    intros y [<- | []]; apply str_le_refl.
Qed.

End MultiGlobParse.

(** C7.  [multiGlobParse]: if some pattern has no derivable bound (both
    limits empty) the result is the empty pair, whatever the other patterns
    and the direction; otherwise, for a list with at least one pattern,
    ascending order gives the minimum of the lows and the maximum of the
    highs, and descending order the maximum of the lows and the minimum of
    the highs, in Go's string order.  (For no pattern at all the result is
    the empty pair.) *)
Theorem multiGlobParse_bounds `{Library} (globs : list string) (desc : bool) :
  let lows := map fst (limitsOf globs desc) in
  let highs := map snd (limitsOf globs desc) in
  let low := fst (multiGlobParse globs desc) in
  let high := snd (multiGlobParse globs desc) in
  (existsb noBound (limitsOf globs desc) = true ->
     multiGlobParse globs desc = ("", ""))
  /\ (existsb noBound (limitsOf globs desc) = false -> globs <> [] ->
      if desc then maximum_of lows low /\ minimum_of highs high
      else minimum_of lows low /\ maximum_of highs high)
  /\ (globs = [] -> multiGlobParse globs desc = ("", "")).
Proof.
  cbv zeta. split; [|split].
  - apply globLoop_noBound.
  - destruct globs as [|p globs]; [congruence|]. intros E _.
    unfold multiGlobParse. simpl in *. unfold globRound.
    fold (noBound (glob_Limits p desc)).
    apply orb_false_elim in E. destruct E as [N E]. rewrite N.
    destruct (singleton_extremes (fst (glob_Limits p desc))) as [m1 M1].
    destruct (singleton_extremes (snd (glob_Limits p desc))) as [m2 M2].
    destruct desc.
    + apply (globLoop_desc [glob_Limits p true] _ _ E M1 m2).
    + apply (globLoop_asc [glob_Limits p false] _ _ E m1 M2).
  - intros ->. reflexivity.
Qed.

(* ===================================================================== *)
(** ** Reasoning about steps *)

Section Keeps.
Context (I : frame -> Prop).

Lemma keeps_ret {A} (a : A) (V : A -> Prop) : V a -> keeps I (ret a) V.
Proof. intros Va f If. split; [exact If|]. intros b [= <-]. exact Va. Qed.

Lemma keeps_bind {A B} (m : step A) (k : A -> step B)
    (V : A -> Prop) (W : B -> Prop) :
  keeps I m V -> (forall a, V a -> keeps I (k a) W) -> keeps I (bind m k) W.
Proof.
  intros Hm Hk f If. unfold bind. destruct (Hm f If) as [I1 V1].
  destruct (m f) as [f1 [a|]]; simpl in *.
  - apply (Hk a (V1 a eq_refl) f1 I1).
  - split; [exact I1 | discriminate].
Qed.

Lemma keeps_weaken {A} (m : step A) (V W : A -> Prop) :
  (forall a, V a -> W a) -> keeps I m V -> keeps I m W.
Proof.
  intros VW Hm f If. destruct (Hm f If) as [I1 V1]. split; [exact I1|].
  intros a E. apply VW, V1, E.
Qed.

Lemma keeps_when (b : bool) (m : step unit) (V : unit -> Prop) :
  V tt -> keeps I m V -> keeps I (when b m) V.
Proof. intros Vt Hm. destruct b; [exact Hm | apply keeps_ret, Vt]. Qed.

End Keeps.

Section ParseRectAreaFacts.
Context `{Library}.

Lemma rectToken_suffix (l : list string)
    (k : list string -> string -> RectArea) :
  (forall l' tok, l' `suffix_of` l -> nvs (k l' tok) `suffix_of` l) ->
  nvs (rectToken l k) `suffix_of` l.
Proof.
  intros Hk. unfold rectToken. destruct l as [|tok l]; simpl.
  - apply suffix_nil.
  - destruct (missing tok true); [apply suffix_nil|].
    apply Hk, suffix_cons_r. reflexivity.
Qed.

Lemma rectFloat_suffix (l : list string) (s : string)
    (k : float64 -> RectArea) :
  (forall x, nvs (k x) `suffix_of` l) -> nvs (rectFloat s k) `suffix_of` l.
Proof.
  intros Hk. unfold rectFloat.
  destruct (ParseFloat s); [apply Hk | apply suffix_nil].
Qed.

Lemma rectInt_suffix (l : list string) (s : string) (bad : Z -> bool)
    (k : Z -> RectArea) :
  (forall x, nvs (k x) `suffix_of` l) -> nvs (rectInt s bad k) `suffix_of` l.
Proof.
  intros Hk. unfold rectInt. destruct (Atoi s) as [x|]; [|apply suffix_nil].
  destruct (bad x); [apply suffix_nil | apply Hk].
Qed.

(** The tokens [parseRectArea] leaves are a suffix of those it was given:
    it only takes tokens from the front. *)
Lemma parseRectArea_suffix (ltyp : string) (l : list string) :
  nvs (parseRectArea ltyp l) `suffix_of` l.
Proof.
  unfold parseRectArea.
  repeat match goal with
  | |- nvs (if ?b then _ else _) `suffix_of` _ => destruct b
  | |- nvs (rectToken _ _) `suffix_of` _ =>
      apply rectToken_suffix; intros ? ? ?
  | |- nvs (rectToken ?l' _) `suffix_of` ?l =>
      transitivity l'; [apply rectToken_suffix; intros ? ? ? | assumption]
  | |- nvs (rectFloat _ _) `suffix_of` _ => apply rectFloat_suffix; intros ?
  | |- nvs (rectInt _ _ _) `suffix_of` _ => apply rectInt_suffix; intros ?
  | |- nvs (match ?x with _ => _ end) `suffix_of` _ => destruct x
  | |- nvs (rectDone _ _ _ _ _ _) `suffix_of` _ => simpl; assumption
  | |- nvs (rectFail _) `suffix_of` _ => apply suffix_nil
  | H : ?a `suffix_of` ?b |- ?a `suffix_of` ?c =>
      transitivity b; [exact H|]
  end.
Qed.

Lemma parseRectArea_nvs (P : string -> Prop) (ltyp : string)
    (l : list string) :
  Forall P l -> Forall P (nvs (parseRectArea ltyp l)).
Proof.
  intros F. destruct (parseRectArea_suffix ltyp l) as [pre E].
  rewrite E in F. apply Forall_app in F. apply F.
Qed.

Lemma parseRectArea_length (ltyp : string) (l : list string) :
  (length (nvs (parseRectArea ltyp l)) <= length l)%nat.
Proof. apply suffix_length, parseRectArea_suffix. Qed.

(** Only the kinds [tile] and [mvt] return tile coordinates; every other
    kind, and every failure, returns the zero values. *)
Lemma parseRectArea_tile_zero (ltyp : string) (l : list string) :
  ltyp <> "tile" -> ltyp <> "mvt" ->
  rtileX (parseRectArea ltyp l) = 0
  /\ rtileY (parseRectArea ltyp l) = 0
  /\ rtileZ (parseRectArea ltyp l) = 0.
Proof.
  intros Nt Nm. apply String.eqb_neq in Nt, Nm.
  unfold parseRectArea. rewrite Nt, Nm. simpl.
  unfold rectToken, rectFloat, rectDone.
  repeat match goal with
  | |- context [if ?b then _ else _] => destruct b
  | |- context [tokenval ?l] => destruct (tokenval l) as [[? ?] ?]
  | |- context [match ?x with _ => _ end] => destruct x
  end; simpl; auto.
Qed.

End ParseRectAreaFacts.

Section TileFields.
Context `{Library}.
Variable K : Z * Z * Z -> Prop.
Hypothesis K_zero : K (0, 0, 0).

Local Abbreviation inv := (tileInv K).

Lemma inv_return_ {A} (V : A -> Prop) : keeps inv (@return_ A) V.
Proof. intros f If. split; [exact If | discriminate]. Qed.

Lemma inv_setErr (e : option error) (V : unit -> Prop) :
  V tt -> keeps inv (setErr e) V.
Proof. intros Vt f If. split; [exact If|]. intros [] _. exact Vt. Qed.

Lemma inv_fail {A} (e : error) (V : A -> Prop) : keeps inv (@fail A e) V.
Proof. intros f If. split; [exact If | discriminate]. Qed.

(** An assignment that leaves the tile fields alone. *)
Lemma inv_setLfs (g : liveFenceSwitches -> liveFenceSwitches)
    (V : unit -> Prop) :
  V tt -> (forall l, tiles (g l) = tiles l) -> keeps inv (setLfs g) V.
Proof.
  intros Vt Hg f [Fv Kt]. split.
  - split; [exact Fv|]. simpl. rewrite Hg. exact Kt.
  - intros [] _. exact Vt.
Qed.

(** The assignment of zero tile fields. *)
Lemma inv_setLfs_zero (g : liveFenceSwitches -> liveFenceSwitches)
    (V : unit -> Prop) :
  V tt -> (forall l, tiles (g l) = (0, 0, 0)) -> keeps inv (setLfs g) V.
Proof.
  intros Vt Hg f [Fv Kt]. split.
  - split; [exact Fv|]. simpl. rewrite Hg. exact K_zero.
  - intros [] _. exact Vt.
Qed.

Lemma inv_getLfs : keeps inv getLfs (fun _ => True).
Proof. intros f If. split; [exact If | auto]. Qed.

Lemma inv_getVs : keeps inv getVs (Forall notTile).
Proof.
  intros f If. split; [exact If|]. intros a [= <-]. apply If.
Qed.

Lemma inv_setVs (l : list string) (V : unit -> Prop) :
  V tt -> Forall notTile l -> keeps inv (setVs l) V.
Proof.
  intros Vt Fl f [Fv Kt]. split; [split; assumption|]. intros [] _. exact Vt.
Qed.

Lemma notTile_empty : notTile "".
Proof. split; discriminate. Qed.

Lemma inv_token : keeps inv token (fun p => notTile (fst p)).
Proof.
  intros f [Fv Kt]. unfold token. destruct Fv as [|tok l Pt Fl]; simpl.
  - split; [split; [constructor | exact Kt]|]. intros a [= <-]. apply notTile_empty.
  - split; [split; assumption|]. intros a [= <-]. exact Pt.
Qed.

Lemma inv_required : keeps inv required notTile.
Proof.
  unfold required. eapply keeps_bind; [apply inv_token|].
  intros p Pp. destruct (missing p.1 p.2); [apply inv_fail | apply keeps_ret, Pp].
Qed.

Lemma inv_float_arg (s : string) : keeps inv (float_arg s) (fun _ => True).
Proof.
  unfold float_arg. destruct (ParseFloat s); [|apply inv_fail].
  eapply keeps_bind; [apply inv_setErr with (V := fun _ => True); exact Logic.I|].
  intros _ _. apply keeps_ret. exact Logic.I.
Qed.

Lemma inv_radius_arg (s : string) : keeps inv (radius_arg s) (fun _ => True).
Proof.
  unfold radius_arg. destruct (ParseFloat s) as [m|]; [|apply inv_fail].
  destruct (m <? 0)%float; [apply inv_fail|].
  eapply keeps_bind; [apply inv_setErr with (V := fun _ => True); exact Logic.I|].
  intros _ _. apply keeps_ret. exact Logic.I.
Qed.

Lemma tiles_lfs_obj (o : geojson.Object) (l : liveFenceSwitches) :
  tiles (lfs_obj o l) = tiles l.
Proof. reflexivity. Qed.

Lemma tiles_lfs_roam (g : roamSwitches -> roamSwitches) (l : liveFenceSwitches) :
  tiles (lfs_roam g l) = tiles l.
Proof. reflexivity. Qed.

(** The steps of a case, one after the other. *)
Ltac steps :=
  repeat first
    [ apply inv_fail
    | apply inv_return_
    | apply keeps_ret; exact Logic.I
    | apply inv_setErr; exact Logic.I
    | apply inv_setLfs; [exact Logic.I | intros ?; reflexivity]
    | apply keeps_when; [exact Logic.I|]
    | apply inv_float_arg
    | apply inv_radius_arg
    | eapply keeps_bind;
        [ first [ apply inv_required | apply inv_token | apply inv_getLfs
                | apply inv_getVs | apply inv_float_arg | apply inv_radius_arg
                | apply inv_setErr with (V := fun _ => True); exact Logic.I
                | apply inv_setLfs with (V := fun _ => True);
                    [exact Logic.I | intros ?; reflexivity]
                | apply keeps_when with (V := fun _ => True); [exact Logic.I|] ]
        | intros ? ? ]
    | match goal with
      | |- keeps _ (if ?b then _ else _) _ => destruct b
      | |- keeps _ (match ?x with _ => _ end) _ => destruct x
      | |- keeps _ (let '(_, _) := ?x in _) _ => destruct x
      | |- forall _, _ => intros ?
      end ].

Lemma inv_casePoint (cmd : string) : keeps inv (casePoint cmd) (fun _ => True).
Proof.
  unfold casePoint. steps.
  eapply keeps_bind with (V := fun _ => True); steps.
Qed.

Lemma inv_caseCircle (ltyp : string) :
  keeps inv (caseCircle ltyp) (fun _ => True).
Proof. unfold caseCircle. steps. Qed.

Lemma inv_parse_obj (json : string) : keeps inv (parse_obj json) (fun _ => True).
Proof. unfold parse_obj. steps. Qed.

Lemma inv_caseObject : keeps inv caseObject (fun _ => True).
Proof. unfold caseObject. steps. apply inv_parse_obj. Qed.

Lemma inv_caseSector (ltyp : string) :
  keeps inv (caseSector ltyp) (fun _ => True).
Proof. unfold caseSector. steps. apply inv_parse_obj. Qed.

Lemma inv_caseGet (s : Server) : keeps inv (caseGet s) (fun _ => True).
Proof. unfold caseGet. steps. Qed.

Lemma inv_required_into (g : string -> roamSwitches -> roamSwitches) :
  keeps inv (required_into g) (fun _ => True).
Proof. unfold required_into. steps. Qed.

Lemma inv_roam_meters_arg (s : string) :
  keeps inv (roam_meters_arg s) (fun _ => True).
Proof. unfold roam_meters_arg. steps. Qed.

Lemma inv_caseRoam : keeps inv caseRoam (fun _ => True).
Proof.
  unfold caseRoam. steps.
  eapply keeps_bind; [apply inv_required_into|]; intros ? _.
  eapply keeps_bind; [apply inv_required_into|]; intros ? _.
  steps.
  eapply keeps_bind; [apply inv_roam_meters_arg|]; intros ? _.
  steps.
Qed.

(** The assignment of the results of [parseRectArea] for a kind that is not
    tile-like: the tile fields become zero. *)
Lemma inv_rect_results (ltyp : string) (v : list string)
    (g : liveFenceSwitches -> liveFenceSwitches) :
  ltyp <> "tile" -> ltyp <> "mvt" -> Forall notTile v ->
  (forall l, tiles (g l) = tiles l) ->
  let r := parseRectArea ltyp v in
  keeps inv
    (setVs (nvs r) ;;
     setLfs (fun l => lfs_base (with_tile (rtileX r) (rtileY r) (rtileZ r)) (g l)) ;;
     setErr (rerr r))
    (fun _ => True).
Proof.
  intros Nt Nm Fv Hg r.
  destruct (parseRectArea_tile_zero ltyp v Nt Nm) as (X & Y & Z).
  fold r in X, Y, Z.
  eapply keeps_bind;
    [apply inv_setVs with (V := fun _ => True);
       [exact Logic.I | apply parseRectArea_nvs, Fv]|].
  intros _ _.
  eapply keeps_bind;
    [apply inv_setLfs_zero with (V := fun _ => True); [exact Logic.I|]|].
  - intros l. unfold tiles. simpl. rewrite X, Y, Z. reflexivity.
  - intros _ _. apply inv_setErr. exact Logic.I.
Qed.

Lemma inv_caseRect (ltyp : string) :
  ltyp <> "tile" -> ltyp <> "mvt" -> keeps inv (caseRect ltyp) (fun _ => True).
Proof.
  intros Nt Nm. unfold caseRect.
  eapply keeps_bind; [apply inv_getVs|]. intros v Fv.
  pose proof (inv_rect_results ltyp v (fun l => lfs_obj (grect (parseRectArea ltyp v)) l)
                Nt Nm Fv (fun l => eq_refl)) as R.
  cbv zeta in R.
  intros f If. unfold bind at 1 2 3.
  specialize (R f If). unfold bind at 1 2 in R. simpl in *.
  destruct R as [R _].
  destruct (rerr (parseRectArea ltyp v)); simpl.
  - split; [exact R | discriminate].
  - destruct (ltyp =? "mvt")%string; simpl; split; auto; apply R.
Qed.

Lemma inv_switchKind (s : Server) (cmd ltyp : string) :
  ltyp <> "tile" -> ltyp <> "mvt" ->
  keeps inv (switchKind s cmd ltyp) (fun _ => True).
Proof.
  intros Nt Nm. unfold switchKind.
  repeat match goal with
  | |- keeps _ (if ?b then _ else _) _ => destruct b
  end;
  first [ apply inv_casePoint | apply inv_caseCircle | apply inv_caseObject
        | apply inv_caseSector | apply inv_caseRect; assumption
        | apply inv_caseGet | apply inv_caseRoam
        | apply keeps_ret; exact Logic.I ].
Qed.

Lemma inv_clipClause : keeps inv clipClause (fun _ => True).
Proof.
  unfold clipClause.
  eapply keeps_bind; [apply inv_required|]. intros tok _.
  destruct (negb _); [apply inv_fail|].
  eapply keeps_bind; [apply inv_required|]. intros kind [Nt Nm].
  destruct (clipKind (ToLower kind)); [|apply inv_fail].
  eapply keeps_bind; [apply inv_getVs|]. intros v Fv.
  pose proof (inv_rect_results (ToLower kind) v (fun l => l) Nt Nm Fv
                (fun l => eq_refl)) as R.
  cbv zeta in R.
  intros f If. unfold bind at 1 2 3.
  specialize (R f If). unfold bind at 1 2 in R. simpl in *.
  destruct R as [R _].
  destruct (is_errNotRectangle _); simpl; [split; [exact R | discriminate]|].
  destruct (rerr (parseRectArea (ToLower kind) v)); simpl.
  - split; [exact R | discriminate].
  - split; auto.
Qed.

Lemma inv_clipLoop (fuel : nat) : keeps inv (clipLoop fuel) (fun _ => True).
Proof.
  induction fuel as [|n IH]; intros f If; simpl.
  - destruct (vs f); simpl; auto.
  - destruct (vs f) eqn:E; simpl; [auto|].
    apply (keeps_bind inv clipClause (fun _ => clipLoop n) (fun _ => True)
             (fun _ => True) inv_clipClause (fun _ _ => IH) f If).
Qed.

Lemma inv_applyBuffer : keeps inv applyBuffer (fun _ => True).
Proof. unfold applyBuffer. steps. Qed.

Lemma notTile_BOUNDS : notTile "BOUNDS".
Proof. split; discriminate. Qed.

Lemma inv_implicitBounds (cmd typ : string) :
  notTile typ -> keeps inv (implicitBounds cmd typ) notTile.
Proof.
  intros Nt. unfold implicitBounds.
  eapply keeps_bind; [apply inv_getLfs|]. intros l _.
  destruct (isImplicitBounds _ _ _); [|apply keeps_ret, Nt].
  eapply keeps_bind;
    [apply inv_setLfs with (V := fun _ => True);
       [exact Logic.I | intros ?; reflexivity]|].
  intros _ _.
  eapply keeps_bind; [apply inv_getVs|]. intros v Fv.
  eapply keeps_bind;
    [apply inv_setVs with (V := fun _ => True);
       [exact Logic.I | constructor; assumption]|].
  intros _ _. apply keeps_ret, notTile_BOUNDS.
Qed.

(** The tail of [resolveTarget]: the clip loop and the buffer. *)
Lemma inv_clip_and_buffer :
  keeps inv (do v <- getVs; clipLoop (length v) ;; applyBuffer) (fun _ => True).
Proof.
  eapply keeps_bind; [apply inv_getVs|]. intros v _.
  eapply keeps_bind; [apply inv_clipLoop|]. intros _ _.
  apply inv_applyBuffer.
Qed.

Lemma inv_resolveTarget (s : Server) (cmd : string) (types : gmap string bool) :
  keeps inv (resolveTarget s cmd types) (fun _ => True).
Proof.
  unfold resolveTarget.
  eapply keeps_bind; [apply inv_required|]. intros typ0 N0.
  eapply keeps_bind; [apply inv_implicitBounds, N0|]. intros typ [Nt Nm].
  eapply keeps_bind; [apply inv_getLfs|]. intros l _.
  destruct (negb _); [apply inv_fail|].
  eapply keeps_bind; [apply inv_switchKind; assumption|]. intros _ _.
  apply inv_clip_and_buffer.
Qed.

End TileFields.

Section TileFieldsOfRectangles.
Context `{Library}.

(** [caseRect] overwrites the tile fields, whatever they were. *)
Lemma caseRect_zero (ltyp : string) (f : frame) :
  ltyp <> "tile" -> ltyp <> "mvt" -> Forall notTile (vs f) ->
  tileInv zeroTiles (fst (caseRect ltyp f)).
Proof.
  intros Nt Nm Fv.
  destruct (parseRectArea_tile_zero ltyp (vs f) Nt Nm) as (X & Y & Z).
  pose proof (parseRectArea_nvs notTile ltyp (vs f) Fv) as Fn.
  unfold caseRect, bind, getVs, setVs, setLfs, setErr, when, return_, ret.
  simpl.
  destruct (rerr (parseRectArea ltyp (vs f))); simpl;
    [|destruct (ltyp =? "mvt")%string; simpl];
    (split; [exact Fn | unfold zeroTiles, tiles; simpl; rewrite X, Y, Z; reflexivity]).
Qed.

(** A step that establishes [J], followed by steps that keep it. *)
Lemma bind_establishes {A B} (J : frame -> Prop) (m : step A)
    (k : A -> step B) (V : B -> Prop) (f : frame) :
  J (fst (m f)) -> (forall a, keeps J (k a) V) -> J (fst (bind m k f)).
Proof.
  intros Jm Hk. unfold bind. destruct (m f) as [f1 [a|]]; simpl in *.
  - apply (Hk a f1 Jm).
  - exact Jm.
Qed.

Lemma required_cons (l : liveFenceSwitches) (e : option error)
    (tok : string) (rest : list string) :
  tok <> "" ->
  required (mkFrame l e (tok :: rest)) = (mkFrame l e rest, Next tok).
Proof.
  intros N. apply String.eqb_neq in N.
  unfold required, bind, token, missing. simpl. rewrite N. reflexivity.
Qed.

Lemma plainRect_notTile (typ : string) : plainRect (ToLower typ) -> notTile typ.
Proof.
  unfold notTile. intros [E | [E | E]]; rewrite E; split; discriminate.
Qed.

Lemma switchKind_plainRect (s : Server) (cmd ltyp : string) :
  plainRect ltyp -> switchKind s cmd ltyp = caseRect ltyp.
Proof. intros [-> | [-> | ->]]; reflexivity. Qed.

(** From the kind token on, once the kind is accepted. *)
Lemma resolve_plainRect (s : Server) (cmd typ : string) (f : frame) :
  plainRect (ToLower typ) -> Forall notTile (vs f) ->
  tileInv zeroTiles
    (fst ((switchKind s cmd (ToLower typ) ;;
           do v <- getVs; clipLoop (length v) ;; applyBuffer) f)).
Proof.
  intros P Fv. rewrite (switchKind_plainRect _ _ _ P).
  destruct (plainRect_notTile _ P) as [Nt Nm].
  apply bind_establishes with (V := fun _ => True).
  - apply caseRect_zero; assumption.
  - intros _. apply inv_clip_and_buffer. reflexivity.
Qed.

Lemma bind_next {A B} (m : step A) (k : A -> step B) (f f' : frame) (a : A) :
  m f = (f', Next a) -> bind m k f = k a f'.
Proof. intros E. unfold bind. rewrite E. reflexivity. Qed.

Lemma bind_getLfs {B} (k : liveFenceSwitches -> step B) (f : frame) :
  bind getLfs k f = k (lfs f) f.
Proof. reflexivity. Qed.

Lemma bind_return {A B} (m : step A) (k : A -> step B) (f f' : frame) :
  m f = (f', Return) -> bind m k f = (f', Return).
Proof. intros E. unfold bind. rewrite E. reflexivity. Qed.

Lemma required_empty (l : liveFenceSwitches) (e : option error)
    (rest : list string) :
  required (mkFrame l e ("" :: rest))
  = (mkFrame l (Some errInvalidNumberOfArguments) rest, Return).
Proof. reflexivity. Qed.

(** [implicitBounds] either leaves the kind token as it is, or puts it back
    in front of the tokens and makes the kind BOUNDS. *)
Lemma implicitBounds_run (cmd typ : string) (f : frame) :
  implicitBounds cmd typ f =
    if isImplicitBounds cmd (output (base (lfs f))) typ
    then (mkFrame (lfs_base (with_output defaultSearchOutput) (lfs f)) (err f)
                  (typ :: vs f), Next "BOUNDS")
    else (f, Next typ).
Proof.
  unfold implicitBounds. rewrite bind_getLfs.
  destruct (isImplicitBounds _ _ _); reflexivity.
Qed.

(** After the kind token: the kind is looked up, and resolved if found. *)
Lemma resolve_from_kind (s : Server) (cmd : string) (types : gmap string bool)
    (typ : string) (f : frame) :
  plainRect (ToLower typ) -> Forall notTile (vs f) ->
  let k := fun typ : string =>
    do l <- getLfs;
    if negb (lookupType types (ToLower typ)
             || (fence (base l) && (ToLower typ =? "roam")%string
                 && (cmd =? "nearby")%string))
    then fail (errInvalidArgument typ)
    else
      switchKind s cmd (ToLower typ) ;;
      do v <- getVs; clipLoop (length v) ;; applyBuffer in
  err (fst (k typ f)) = None -> tiles (lfs (fst (k typ f))) = (0, 0, 0).
Proof.
  intros P Fv. cbv beta zeta. rewrite bind_getLfs.
  destruct (negb _); [discriminate|].
  intros _. apply (resolve_plainRect s cmd typ f P Fv).
Qed.

Lemma resolveTarget_plainRect (s : Server) (cmd : string)
    (types : gmap string bool) (l : liveFenceSwitches) (e : option error)
    (typ : string) (rest : list string) :
  plainRectKind cmd (output (base l)) typ -> Forall notTile (typ :: rest) ->
  let f := fst (resolveTarget s cmd types (mkFrame l e (typ :: rest))) in
  err f = None -> tiles (lfs f) = (0, 0, 0).
Proof.
  intros P Fv. cbv zeta. unfold resolveTarget.
  destruct (String.eqb_spec typ "") as [-> | N].
  { rewrite (bind_return _ _ _ _ (required_empty l e rest)). discriminate. }
  rewrite (bind_next _ _ _ _ _ (required_cons l e typ rest N)).
  pose proof (implicitBounds_run cmd typ (mkFrame l e rest)) as E.
  simpl in E. inversion Fv as [|? ? Nt Fr]; subst.
  destruct P as [C | [C P]]; rewrite C in E;
    rewrite (bind_next _ _ _ _ _ E).
  - apply (resolve_from_kind s cmd types "BOUNDS"); [left; reflexivity|].
    simpl. constructor; assumption.
  - apply (resolve_from_kind s cmd types typ); [exact P | exact Fr].
Qed.

End TileFieldsOfRectangles.


(* ===================================================================== *)
(** ** The clip loop ends *)

Section ClipLoop.
Context `{Library}.

(** A round of the loop that falls through has taken at least two tokens. *)
Lemma clipClause_consumes (f f' : frame) :
  clipClause f = (f', Next tt) -> (length (vs f') < length (vs f))%nat.
Proof.
  unfold clipClause, required.
  unfold bind at 1 2. unfold token at 1.
  destruct (vs f) as [|tok rest]; simpl; [discriminate|].
  destruct (missing tok true); simpl; [discriminate|].
  destruct (negb _); simpl; [discriminate|].
  unfold bind at 1 2. unfold token at 1. simpl.
  destruct rest as [|kind rest]; simpl; [discriminate|].
  destruct (missing kind true); simpl; [discriminate|].
  destruct (clipKind _); simpl; [|discriminate].
  unfold bind, getVs, setVs, setLfs, setErr, fail, return_. simpl.
  pose proof (parseRectArea_length (ToLower kind) rest) as L.
  destruct (is_errNotRectangle _); simpl; [discriminate|].
  destruct (rerr _); simpl; [discriminate|].
  intros [= <-]. simpl. lia.
Qed.

(** With [length vs] rounds allowed the loop is left as Go leaves it: by a
    [return], or with no token left. *)
Lemma clipLoop_exit (fuel : nat) (f f' : frame) :
  (length (vs f) <= fuel)%nat ->
  clipLoop fuel f = (f', Next tt) -> vs f' = [].
Proof.
  revert f. induction fuel as [|n IH]; intros f L; simpl.
  - destruct (vs f) eqn:E; simpl in L; [|lia]. intros [= <-]. exact E.
  - destruct (vs f) eqn:E; [intros [= <-]; exact E|].
    unfold bind. destruct (clipClause f) as [f1 [[]|]] eqn:C; [|discriminate].
    apply IH. apply clipClause_consumes in C. rewrite E in C. simpl in *. lia.
Qed.

(** More rounds than [length vs] change nothing. *)
Lemma clipLoop_fuel (fuel : nat) (f : frame) :
  (length (vs f) <= fuel)%nat ->
  clipLoop fuel f = clipLoop (length (vs f)) f.
Proof.
  remember (length (vs f)) as n eqn:En. revert f fuel En.
  induction n as [n IH] using lt_wf_ind. intros f fuel En L.
  destruct fuel as [|m], n as [|k]; simpl; try lia; try reflexivity.
  - destruct (vs f); [reflexivity | discriminate En].
  - destruct (vs f) eqn:E; [reflexivity|].
    unfold bind. destruct (clipClause f) as [f1 [[]|]] eqn:C; [|reflexivity].
    pose proof (clipClause_consumes _ _ C) as D. rewrite E in D.
    assert (D' : (length (vs f1) < S k)%nat) by (rewrite En; exact D).
    simpl in En, L.
    rewrite (IH (length (vs f1)) D' f1 m eq_refl) by lia.
    rewrite (IH (length (vs f1)) D' f1 k eq_refl) by lia.
    reflexivity.
Qed.

End ClipLoop.

(* ===================================================================== *)
(** ** The point, get and roam targets, case by case *)

Section Targets.
Context `{Library}.

(** A number parsed without error is the number [strconv.ParseFloat]
    returned beside a nil error. *)
Lemma ParseFloat_Some (s : string) (x : float64) :
  ParseFloat s = Some x <-> strconv_ParseFloat s = (x, None).
Proof.
  unfold ParseFloat. destruct (strconv_ParseFloat s) as [y [e|]]; split;
    intros E; try discriminate E; inversion E; reflexivity.
Qed.

(** X24.  [casePoint] for the nearby command, once latitude and longitude have
    parsed: no token, or an empty one, gives the radius -1; a token that does
    not parse, or parses to a number below zero, is an invalid argument; any
    other parsed value, the NaN included, becomes the radius. *)
Lemma casePoint_nearby (l : liveFenceSwitches) (e : option error)
    (slat slon : string) (lat lon : float64) (rest : list string) :
  slat <> "" -> slon <> "" ->
  ParseFloat slat = Some lat -> ParseFloat slon = Some lon ->
  casePoint "nearby" (mkFrame l e (slat :: slon :: rest)) =
    match rest with
    | [] => (mkFrame (lfs_obj (nearbyCircle lat lon (-1)%float) l) None [], Next tt)
    | s :: rest' =>
        if (s =? "")%string
        then (mkFrame (lfs_obj (nearbyCircle lat lon (-1)%float) l) None rest', Next tt)
        else
          match ParseFloat s with
          | None => (mkFrame l (Some (errInvalidArgument s)) rest', Return)
          | Some m =>
              if (m <? 0)%float
              then (mkFrame l (Some (errInvalidArgument s)) rest', Return)
              else (mkFrame (lfs_obj (nearbyCircle lat lon m) l) None rest', Next tt)
          end
    end.
Proof.
  intros Nlat Nlon Plat Plon. apply String.eqb_neq in Nlat, Nlon.
  unfold casePoint, required, float_arg, radius_arg, bind, token, missing.
  simpl. rewrite Nlat. simpl. rewrite Nlon. simpl.
  rewrite Plat. simpl. rewrite Plon. simpl.
  destruct rest as [|s rest']; simpl; [reflexivity|].
  destruct (s =? "")%string; simpl; [reflexivity|].
  destruct (ParseFloat s) as [m|]; simpl; [|reflexivity].
  destruct (m <? 0)%float; reflexivity.
Qed.

(** [caseGet] with a clip request: the guard stores its error and the
    lookups are made all the same; a missing key or id replaces the error,
    and when both are found the step falls through with the error pending. *)
Lemma caseGet_with_clip (s : Server) (l : liveFenceSwitches)
    (e : option error) (key id : string) (rest : list string) :
  clip (base l) = true -> key <> "" -> id <> "" ->
  caseGet s (mkFrame l e (key :: id :: rest)) =
    match cols_Get s key with
    | None => (mkFrame l (Some errKeyNotFound) rest, Return)
    | Some c =>
        match col_Get c id with
        | None => (mkFrame l (Some errIDNotFound) rest, Return)
        | Some o =>
            (mkFrame (lfs_obj (object.Geo o) l)
                     (Some (errInvalidArgument "cannot clip with get")) rest,
             Next tt)
        end
    end.
Proof.
  intros C Nk Ni. apply String.eqb_neq in Nk, Ni.
  unfold caseGet, required, bind, token, missing, when, getLfs. simpl.
  rewrite C. simpl. rewrite Nk. simpl. rewrite Ni. simpl.
  destruct (cols_Get s key) as [c|]; [|reflexivity].
  destruct (col_Get c id); reflexivity.
Qed.

(** X25.  A roam clause that resolves has a key and an id that are not empty,
    and its radius is whatever number the radius token parsed to. *)
Lemma caseRoam_resolved (f f' : frame) :
  caseRoam f = (f', Next tt) ->
  on (roam (lfs f')) = true
  /\ rkey (roam (lfs f')) <> ""
  /\ id (roam (lfs f')) <> ""
  /\ exists smeters, ParseFloat smeters = Some (meters (roam (lfs f'))).
Proof.
  unfold caseRoam, required_into, required, roam_meters_arg.
  unfold bind, token, setLfs, fail, ret, setErr. simpl.
  destruct (tokenval (vs f)) as [[v1 k] ok1]. simpl.
  destruct (missing k ok1) eqn:Mk; simpl; [discriminate|].
  destruct (tokenval v1) as [[v2 i] ok2]. simpl.
  destruct (missing i ok2) eqn:Mi; simpl; [discriminate|].
  destruct (tokenval v2) as [[v3 sm] ok3]. simpl.
  destruct (missing sm ok3); simpl; [discriminate|].
  destruct (strconv_ParseFloat sm) as [m [e0|]] eqn:Pm; simpl; [discriminate|].
  apply ParseFloat_Some in Pm.
  unfold missing in Mk, Mi. apply orb_false_elim in Mk, Mi.
  destruct Mk as [_ Mk], Mi as [_ Mi]. apply String.eqb_neq in Mk, Mi.
  destruct (tokenval v3) as [[v4 sc] ok4]. simpl.
  destruct ok4; simpl.
  - destruct (negb _); simpl; [discriminate|].
    destruct (tokenval v4) as [[v5 fld] ok5]. simpl.
    destruct (missing fld ok5); simpl; [discriminate|].
    intros [= <-]. simpl. repeat split; try assumption. exists sm. exact Pm.
  - intros [= <-]. simpl. repeat split; try assumption. exists sm. exact Pm.
Qed.

(** Nothing in the roam case looks at the sign of the radius: a radius
    token that parses is stored as it is. *)
Lemma caseRoam_any_radius (l : liveFenceSwitches) (e : option error)
    (key id smeters : string) (m : float64) :
  key <> "" -> id <> "" -> smeters <> "" -> ParseFloat smeters = Some m ->
  exists f',
    caseRoam (mkFrame l e [key; id; smeters]) = (f', Next tt)
    /\ err f' = None
    /\ meters (roam (lfs f')) = m.
Proof.
  intros Nk Ni Nm Pm. apply String.eqb_neq in Nk, Ni, Nm.
  apply ParseFloat_Some in Pm.
  unfold caseRoam, required_into, required, roam_meters_arg.
  unfold bind, token, setLfs, fail, ret, setErr, missing. simpl.
  rewrite Nk. simpl. rewrite Ni. simpl. rewrite Nm. simpl. rewrite Pm. simpl.
  eexists. repeat split.
Qed.

End Targets.

(* ===================================================================== *)
(** * Concrete commands

    The model run on commands against [Sample.server], whose only
    collection is [fleet], with the sample library and index. *)

Section Runs.
Local Existing Instance Sample.library.
Local Existing Instance Sample.index.

(** C1, as the code has it at [MVT 0 0 1], the north-west tile of zoom
    level 1 (longitude -180 to 0, latitude 0 to 85.05112878).  The claim has
    every edge move outward by 10% of the tile's width or height before
    clamping, so the eastern edge should come to 18.  In the code the
    eastern edge is computed from the western edge after that one was moved
    to -198: it comes to 19.8, and the resolved rectangle is not the
    symmetric expansion. *)
Theorem mvt_expansion_reads_moved_edge :
  let tile := rect_of_bounds (Sample.tileBounds 0 0 1) in
  let r := parseRectArea "mvt" ["0"; "0"; "1"] in
  rerr r = None
  /\ grect r = geojson.Rect (expandMvt tile)
  /\ geometry.X (geometry.Min tile) = (-180)%float
  /\ geometry.X (geometry.Max tile) = 0%float
  /\ geometry.X (geometry.Max (expandMvt_symmetric tile)) = 18%float
  /\ geometry.X (geometry.Max (expandMvt tile)) = ((0 - -198) * 0.1)%float
  /\ (19 <? geometry.X (geometry.Max (expandMvt tile)))%float = true
  /\ expandMvt tile <> expandMvt_symmetric tile.
Proof.
  cbv zeta. repeat split; try (vm_compute; reflexivity).
  intro E.
  assert (F : (19 <? geometry.X (geometry.Max (expandMvt_symmetric
                 (rect_of_bounds (Sample.tileBounds 0 0 1)))))%float = true)
    by (rewrite <- E; vm_compute; reflexivity).
  vm_compute in F. discriminate F.
Qed.

(** C2, as the code has it.  With CLIP requested, a [get] target whose key
    is missing fails with [errKeyNotFound], one whose id is missing with
    [errIDNotFound]: the lookups are made and their errors replace the clip
    error.  When key and id are found the clip error is returned, after the
    lookups; and when a [clipby] clause follows, its [parseRectArea] call
    clears the error and the command resolves. *)
Theorem get_with_clip_goes_on :
  clip (base (fst (resolve "intersects" ["fleet"; "CLIP"; "GET"; "depot"; "truck-1"]))) = true
  /\ snd (resolve "intersects" ["fleet"; "CLIP"; "GET"; "depot"; "truck-1"])
     = Some errKeyNotFound
  /\ snd (resolve "intersects" ["fleet"; "CLIP"; "GET"; "fleet"; "truck-9"])
     = Some errIDNotFound
  /\ snd (resolve "intersects" ["fleet"; "CLIP"; "GET"; "fleet"; "truck-1"])
     = Some (errInvalidArgument "cannot clip with get")
  /\ snd (resolve "intersects"
            ["fleet"; "CLIP"; "GET"; "fleet"; "truck-1";
             "CLIPBY"; "BOUNDS"; "1"; "2"; "3"; "4"])
     = None.
Proof. repeat split; vm_compute; reflexivity. Qed.

(** C4, as the code has it.  On a nearby fence command the clause
    [ROAM fleet truck-1 -5] resolves without error to a roam descriptor
    whose radius is -5: the roam case does not test the sign of the radius,
    which the point and circle cases do. *)
Theorem roam_accepts_negative_radius :
  let r := cmdSearchArgs Sample.server true "nearby"
             ["people"; "ROAM"; "fleet"; "truck-1"; "-5"] nearbyTypes in
  snd r = None
  /\ on (roam (fst r)) = true
  /\ rkey (roam (fst r)) = "fleet"
  /\ id (roam (fst r)) = "truck-1"
  /\ meters (roam (fst r)) = (-5)%float
  /\ (meters (roam (fst r)) <? 0)%float = true
  /\ snd (resolve "nearby" ["people"; "POINT"; "33"; "-115"; "-5"])
     = Some (errInvalidArgument "-5").
Proof. cbv zeta. repeat split; vm_compute; reflexivity. Qed.

(** C6, as the code has it.  [SEARCH fleet CURSOR 18446744073709551615
    MATCH * COUNT] on a collection of two objects: no index call is made,
    and the count is 3.  The cursor is a [uint64], [int(cursor)] is -1, and
    2 - (-1) is not below zero; the claim gives max(2 - cursor, 0) = 0. *)
Theorem count_shortcut_wraps_cursor :
  let r := cmdSearch Sample.server
             (Sample.message ["SEARCH"; "fleet"; "CURSOR";
                              "18446744073709551615"; "MATCH"; "*"; "COUNT"]) in
  calls r = []
  /\ col_Count Sample.fleet = 2
  /\ int_of_uint64 18446744073709551615 = -1
  /\ option_map count (writer r) = Some 3
  /\ Z.max (col_Count Sample.fleet - 18446744073709551615) 0 = 0.
Proof. cbv zeta. repeat split; vm_compute; reflexivity. Qed.

(** C8, as the code has it.  [NEARBY fleet POINT 33 -115 NaN]: the radius
    token parses to the NaN, which is not below zero, so it is accepted and
    the target is a circle whose radius is the NaN, a value that is not
    greater than or equal to zero.  Without a radius token the radius is -1,
    with the token 0 it is 0, and the token -1 is an invalid argument. *)
Theorem nearby_point_accepts_nan :
  ParseFloat "NaN" = Some nan
  /\ (0 <=? nan)%float = false
  /\ resolve "nearby" ["fleet"; "POINT"; "33"; "-115"; "NaN"]
     = (fst (resolve "nearby" ["fleet"; "POINT"; "33"; "-115"; "NaN"]), None)
  /\ obj (fst (resolve "nearby" ["fleet"; "POINT"; "33"; "-115"; "NaN"]))
     = nearbyCircle 33 (-115) nan
  /\ obj (fst (resolve "nearby" ["fleet"; "POINT"; "33"; "-115"]))
     = nearbyCircle 33 (-115) (-1)
  /\ obj (fst (resolve "nearby" ["fleet"; "POINT"; "33"; "-115"; "0"]))
     = nearbyCircle 33 (-115) 0
  /\ snd (resolve "nearby" ["fleet"; "POINT"; "33"; "-115"; "-1"])
     = Some (errInvalidArgument "-1").
Proof. repeat split; vm_compute; reflexivity. Qed.

(** C5 fails where the key names no collection:
    [NEARBY depot SPARSE 3 POINT 33 -115] resolves to a circle of radius -1
    with a sparse factor of 3, and the command returns its (empty) reply
    without error. *)
Lemma sparse_without_collection :
  let args := ["depot"; "SPARSE"; "3"; "POINT"; "33"; "-115"] in
  let r := cmdNearby Sample.server (Sample.message ("NEARBY" :: args)) in
  snd (resolve "nearby" args) = None
  /\ sparse (base (fst (resolve "nearby" args))) = 3
  /\ obj (fst (resolve "nearby" args)) = nearbyCircle 33 (-115) (-1)
  /\ ((-1) <? 0)%float = true
  /\ out r = Returned (resp.Native "") None
  /\ out r <> Returned resp.NOMessage (Some (plain sparseError)).
Proof.
  cbv zeta. repeat split; try (vm_compute; reflexivity).
  vm_compute. discriminate.
Qed.


(** [strings.ToLower] folds capital letters outside ASCII as well.  The
    kind token T, U+0130, L, E (U+0130 is the bytes 196 176) is the kind
    [tile], the token C, L, U+0130, P, B, Y the keyword [clipby]; a roam
    radius that overflows leaves an infinity in the field beside the
    error. *)
Lemma tokens_beyond_ascii :
  let dotted := String (ascii_of_nat 196) (String (ascii_of_nat 176) "") in
  let kind := "T" ++ dotted ++ "LE" in
  let keyword := "CL" ++ dotted ++ "PBY" in
  ToLower kind = "tile"
  /\ resolve "within" ["fleet"; kind; "1"; "0"; "1"]
     = (fst (resolve "within" ["fleet"; "TILE"; "1"; "0"; "1"]), None)
  /\ tiles (fst (resolve "within" ["fleet"; kind; "1"; "0"; "1"])) = (1, 0, 1)
  /\ resolve "within" ["fleet"; "POINT"; "33"; "-115"; keyword; "HASH"; "9q"]
     = resolve "within" ["fleet"; "POINT"; "33"; "-115"; "CLIPBY"; "HASH"; "9q"]
  /\ snd (resolve "within" ["fleet"; "POINT"; "33"; "-115"; keyword; "HASH"; "9q"])
     = None
  /\ (let r := resolve "nearby" ["fleet"; "FENCE"; "ROAM"; "fleet"; "truck-1"; "1e999"] in
      snd r = Some (errInvalidArgument "1e999")
      /\ meters (roam (fst r)) = infinity).
Proof. cbv zeta. repeat split; vm_compute; reflexivity. Qed.

End Runs.

(* ===================================================================== *)
(** * The general theorems at concrete commands *)

Section Witnesses.
Local Existing Instance Sample.library.
Local Existing Instance Sample.index.

(** The roam fence of the specification's scenario goes live, carrying its
    roam descriptor. *)
Lemma fence_request_goes_live_witness :
  let msg := Sample.message
               ["NEARBY"; "people"; "FENCE"; "ROAM"; "fleet"; "truck-1"; "500"] in
  let sargs := fst (resolve "nearby" (tail (Args msg))) in
  fence (base sargs) = true
  /\ roam sargs = mkRoam true "fleet" "truck-1" false 500%float ""
  /\ cmdNearby Sample.server msg
     = mkResult (Returned resp.NOMessage (Some (live (lfs_cmd "nearby" sargs))))
                [] None [].
Proof.
  cbv zeta. split; [vm_compute; reflexivity|]. split; [vm_compute; reflexivity|].
  refine (proj1 (fence_request_goes_live Sample.server _ _ _) _);
    vm_compute; reflexivity.
Defined.

(** SPARSE on the fleet: without a radius the command fails, with the radius
    5 it runs the intersects traversal. *)
Lemma sparse_needs_a_distance_witness :
  let knn := Sample.message ["NEARBY"; "fleet"; "SPARSE"; "3"; "POINT"; "33"; "-115"] in
  let near := Sample.message
                ["NEARBY"; "fleet"; "SPARSE"; "3"; "POINT"; "33"; "-115"; "5"] in
  (out (cmdNearby Sample.server knn)
     = Returned resp.NOMessage (Some (plain sparseError))
   /\ calls (cmdNearby Sample.server knn) = []
   /\ pushes (cmdNearby Sample.server knn) = [])
  /\ calls (cmdNearby Sample.server near)
     = [CallIntersects (nearbyCircle 33 (-115) 5) 3].
Proof.
  cbv zeta. split.
  - refine (proj1 (sparse_needs_a_distance Sample.server _
                     (fst (resolve "nearby" ["fleet"; "SPARSE"; "3"; "POINT"; "33"; "-115"]))
                     _ Sample.fleet (geometry.mkPoint (-115)%float 33%float) (-1)%float 64
                     _ _ _ _ _ _) _);
      vm_compute; reflexivity.
  - refine (proj2 (sparse_needs_a_distance Sample.server _
                     (fst (resolve "nearby"
                             ["fleet"; "SPARSE"; "3"; "POINT"; "33"; "-115"; "5"]))
                     _ Sample.fleet (geometry.mkPoint (-115)%float 33%float) 5%float 64
                     _ _ _ _ _ _) _);
      vm_compute; reflexivity.
Defined.

(** Two prefix patterns in both directions, and a pattern without prefix
    among them. *)
Lemma multiGlobParse_bounds_witness :
  let globs := ["abc*"; "abd*"] in
  (minimum_of (map fst (limitsOf globs false)) (fst (multiGlobParse globs false))
   /\ maximum_of (map snd (limitsOf globs false)) (snd (multiGlobParse globs false)))
  /\ (maximum_of (map fst (limitsOf globs true)) (fst (multiGlobParse globs true))
      /\ minimum_of (map snd (limitsOf globs true)) (snd (multiGlobParse globs true)))
  /\ fst (multiGlobParse globs false) = "abc"
  /\ snd (multiGlobParse globs true) = "abc"
  /\ multiGlobParse ["abc*"; "*"; "abd*"] false = ("", "").
Proof.
  cbv zeta. split; [|split; [|split; [|split]]].
  - refine (proj1 (proj2 (multiGlobParse_bounds ["abc*"; "abd*"] false)) _ _);
      [vm_compute; reflexivity | discriminate].
  - refine (proj1 (proj2 (multiGlobParse_bounds ["abc*"; "abd*"] true)) _ _);
      [vm_compute; reflexivity | discriminate].
  - vm_compute; reflexivity.
  - vm_compute; reflexivity.
  - refine (proj1 (multiGlobParse_bounds ["abc*"; "*"; "abd*"] false) _).
    vm_compute; reflexivity.
Defined.

Lemma notTile_tokens_witness :
  Forall notTile ["1"; "2"; "3"; "4"; "CLIPBY"; "QUADKEY"; "2"].
Proof.
  repeat constructor; intro E; vm_compute in E; discriminate E.
Defined.


End Witnesses.

(* ===================================================================== *)
(** * Further properties of the resolver and the executor *)

(* ===================================================================== *)
(** ** parseRectArea *)

Section RectAreaProperties.
Context `{Library}.

Lemma rectKind_cases (ltyp : string) :
  rectKind ltyp = true ->
  ltyp = "bounds" \/ ltyp = "hash" \/ ltyp = "quadkey" \/ ltyp = "tile"
  \/ ltyp = "mvt".
Proof.
  unfold rectKind. rewrite !orb_true_iff, !String.eqb_eq. tauto.
Qed.

(** A required token of [parseRectArea], case by case. *)
Lemma rectToken_cons (tok : string) (l : list string)
    (k : list string -> string -> RectArea) :
  rectToken (tok :: l) k
  = if (tok =? "")%string then rectFail errInvalidNumberOfArguments else k l tok.
Proof. reflexivity. Qed.

Lemma rectToken_nil (k : list string -> string -> RectArea) :
  rectToken [] k = rectFail errInvalidNumberOfArguments.
Proof. reflexivity. Qed.

End RectAreaProperties.

(** X1.  BOUNDS: when the four tokens are there and parse, the rectangle's
    corners are the parsed numbers exactly, minimum corner from the first
    two and maximum corner from the last two, with no reordering and no
    clamping; the four tokens are consumed, the tile results are 0. *)
Theorem bounds_corners_are_the_tokens `{Library}
    (sminLat sminLon smaxLat smaxLon : string) (a b c d : float64)
    (rest : list string) :
  sminLat <> "" -> sminLon <> "" -> smaxLat <> "" -> smaxLon <> "" ->
  ParseFloat sminLat = Some a -> ParseFloat sminLon = Some b ->
  ParseFloat smaxLat = Some c -> ParseFloat smaxLon = Some d ->
  parseRectArea "bounds" (sminLat :: sminLon :: smaxLat :: smaxLon :: rest)
  = mkRectArea rest
      (geojson.Rect (geometry.mkRect (geometry.mkPoint b a) (geometry.mkPoint d c)))
      0 0 0 None.
Proof.
  intros N1 N2 N3 N4 P1 P2 P3 P4. apply String.eqb_neq in N1, N2, N3, N4.
  unfold parseRectArea. simpl.
  rewrite !rectToken_cons, N1, N2, N3, N4.
  unfold rectFloat. rewrite P1, P2, P3, P4. reflexivity.
Qed.

(** X2.  [parseRectArea] returns [errNotRectangle] for exactly the kinds it
    has no case for.  So the test [err == errNotRectangle] that follows the
    call in a [clipby] clause never holds: the clause reaches the call only
    for bounds, hash, tile and quadkey. *)
Theorem not_a_rectangle_only_for_other_kinds `{Library}
    (ltyp : string) (l : list string) :
  is_errNotRectangle (rerr (parseRectArea ltyp l)) = negb (rectKind ltyp)
  /\ (clipKind ltyp = true ->
      is_errNotRectangle (rerr (parseRectArea ltyp l)) = false).
Proof.
  assert (E : is_errNotRectangle (rerr (parseRectArea ltyp l))
              = negb (rectKind ltyp)).
  { unfold parseRectArea, rectKind.
    destruct (ltyp =? "bounds")%string; simpl.
    { unfold rectToken, rectFloat, rectDone.
      repeat match goal with
      | |- context [tokenval ?x] => destruct (tokenval x) as [[? ?] ?]
      | |- context [if ?b then _ else _] => destruct b
      | |- context [match ?x with _ => _ end] => destruct x
      end; reflexivity. }
    destruct (ltyp =? "hash")%string; simpl.
    { unfold rectToken, rectDone.
      repeat match goal with
      | |- context [tokenval ?x] => destruct (tokenval x) as [[? ?] ?]
      | |- context [if ?b then _ else _] => destruct b
      end; reflexivity. }
    destruct (ltyp =? "quadkey")%string; simpl.
    { unfold rectToken, rectDone.
      repeat match goal with
      | |- context [tokenval ?x] => destruct (tokenval x) as [[? ?] ?]
      | |- context [if ?b then _ else _] => destruct b
      | |- context [match ?x with _ => _ end] => destruct x
      end; reflexivity. }
    destruct ((ltyp =? "tile") || (ltyp =? "mvt"))%string eqn:T; simpl;
      [|reflexivity].
    unfold rectToken, rectInt, rectDone.
    repeat match goal with
    | |- context [tokenval ?x] => destruct (tokenval x) as [[? ?] ?]
    | |- context [if ?b then _ else _] => destruct b
    | |- context [match ?x with _ => _ end] => destruct x
    end; reflexivity. }
  split; [exact E|]. intros C. rewrite E. unfold clipKind in C.
  unfold rectKind. apply negb_false_iff.
  rewrite !orb_true_iff in *. tauto.
Qed.

(** X3.  A successful [parseRectArea] returns tile coordinates in range:
    x and y are not negative and z lies in 0..23; and for the kinds [tile]
    and [mvt] they are the integers the first three tokens parse to. *)
Theorem tile_coordinates_in_range `{Library} (ltyp : string) (l : list string) :
  rerr (parseRectArea ltyp l) = None ->
  (0 <= rtileX (parseRectArea ltyp l)
   /\ 0 <= rtileY (parseRectArea ltyp l)
   /\ 0 <= rtileZ (parseRectArea ltyp l) <= 23)
  /\ (ltyp = "tile" \/ ltyp = "mvt" ->
      exists sx sy sz rest,
        l = sx :: sy :: sz :: rest
        /\ nvs (parseRectArea ltyp l) = rest
        /\ Atoi sx = Some (rtileX (parseRectArea ltyp l))
        /\ Atoi sy = Some (rtileY (parseRectArea ltyp l))
        /\ Atoi sz = Some (rtileZ (parseRectArea ltyp l))).
Proof.
  destruct (String.eqb_spec ltyp "tile") as [Et | Nt];
    [|destruct (String.eqb_spec ltyp "mvt") as [Em | Nm]].
  3: { intros _. split; [|intros [E | E]; contradiction].
       destruct (parseRectArea_tile_zero ltyp l Nt Nm) as (-> & -> & ->). lia. }
  all: subst ltyp; unfold parseRectArea; simpl;
    destruct l as [|sx [|sy [|sz rest]]];
    rewrite ?rectToken_cons, ?rectToken_nil;
    repeat match goal with
    | |- context [if (?s =? "")%string then _ else _] =>
        destruct (s =? "")%string; rewrite ?rectToken_nil, ?rectToken_cons
    end;
    try (simpl; discriminate);
    unfold rectInt;
    destruct (Atoi sx) as [x|] eqn:Ax; try (simpl; discriminate);
    destruct (Z.ltb_spec x 0); try (simpl; discriminate);
    destruct (Atoi sy) as [y|] eqn:Ay; try (simpl; discriminate);
    destruct (Z.ltb_spec y 0); try (simpl; discriminate);
    destruct (Atoi sz) as [z|] eqn:Az; try (simpl; discriminate);
    destruct (Z.ltb_spec z 0); try (simpl; discriminate);
    destruct (Z.ltb_spec 23 z); try (simpl; discriminate);
    simpl; intros _; (split; [lia|]); intros _;
    exists sx, sy, sz, rest; repeat split; assumption.
Qed.

(** X4.  For each of its five kinds [parseRectArea] reads a fixed number of
    tokens from the front (four for bounds, one for hash and quadkey, three
    for tile and mvt): with fewer tokens it fails with
    [errInvalidNumberOfArguments], and when it succeeds the tokens it leaves
    are the input less exactly that many. *)
Theorem parseRectArea_reads_its_arity `{Library} (ltyp : string) (l : list string) :
  rectKind ltyp = true ->
  ((length l < arity ltyp)%nat ->
     rerr (parseRectArea ltyp l) = Some errInvalidNumberOfArguments)
  /\ (rerr (parseRectArea ltyp l) = None ->
      nvs (parseRectArea ltyp l) = drop (arity ltyp) l
      /\ (arity ltyp <= length l)%nat).
Proof.
  intros R. apply rectKind_cases in R.
  destruct R as [-> | [-> | [-> | [-> | ->]]]];
    unfold parseRectArea, arity; simpl;
    destruct l as [|t1 [|t2 [|t3 [|t4 rest]]]];
    rewrite ?rectToken_cons, ?rectToken_nil;
    repeat match goal with
    | |- context [if (?s =? "")%string then _ else _] =>
        destruct (s =? "")%string; rewrite ?rectToken_nil, ?rectToken_cons
    end;
    unfold rectFloat, rectInt, rectDone;
    repeat match goal with
    | |- context [match ?x with _ => _ end] => destruct x
    | |- context [if ?b then _ else _] => destruct b
    end;
    simpl; (split; [intros L | intros E]);
    try reflexivity; try discriminate; try lia;
    (split; [reflexivity | lia]).
Qed.

(** The clamp at a lower and at an upper bound, as Go's comparisons have
    it. *)
Lemma clamp_low (x lo : float64) :
  (lo <? lo)%float = false ->
  ((if (x <? lo)%float then lo else x) <? lo)%float = false.
Proof. intros L. destruct (x <? lo)%float eqn:E; [exact L | exact E]. Qed.

Lemma clamp_high (x hi : float64) :
  (hi <? hi)%float = false ->
  (hi <? (if (hi <? x)%float then hi else x))%float = false.
Proof. intros L. destruct (hi <? x)%float eqn:E; [exact L | exact E]. Qed.

(** X5.  Whatever rectangle it is given, the [mvt] expansion returns one
    whose minimum edges are not below, and whose maximum edges are not
    above, the bounds of the latitude and longitude domains (in Go's
    comparison, which a NaN edge passes). *)
Theorem mvt_expansion_is_clamped (rect : geometry.Rect) :
  let r := expandMvt rect in
  (geometry.Y (geometry.Min r) <? bing.MinLatitude)%float = false
  /\ (bing.MaxLatitude <? geometry.Y (geometry.Max r))%float = false
  /\ (geometry.X (geometry.Min r) <? bing.MinLongitude)%float = false
  /\ (bing.MaxLongitude <? geometry.X (geometry.Max r))%float = false.
Proof.
  cbv zeta. unfold expandMvt. cbv zeta. simpl.
  repeat split; first [apply clamp_low | apply clamp_high]; reflexivity.
Qed.

(** X6.  MVT differs from TILE by the expansion only: on the same tokens the
    two kinds consume the same tokens, return the same tile coordinates and
    the same error, and when they succeed the [mvt] rectangle is the
    expansion of the [tile] rectangle. *)
Theorem mvt_is_the_expanded_tile `{Library} (l : list string) :
  let t := parseRectArea "tile" l in
  let m := parseRectArea "mvt" l in
  nvs m = nvs t /\ rerr m = rerr t
  /\ (rtileX m, rtileY m, rtileZ m) = (rtileX t, rtileY t, rtileZ t)
  /\ (rerr t = None ->
      exists rect, grect t = geojson.Rect rect
                   /\ grect m = geojson.Rect (expandMvt rect)).
Proof.
  cbv zeta. unfold parseRectArea. simpl.
  destruct l as [|sx [|sy [|sz rest]]];
    rewrite ?rectToken_cons, ?rectToken_nil;
    repeat match goal with
    | |- context [if (?s =? "")%string then _ else _] =>
        destruct (s =? "")%string; rewrite ?rectToken_nil, ?rectToken_cons
    end;
    unfold rectInt, rectDone; simpl;
    repeat match goal with
    | |- context [match ?x with _ => _ end] => destruct x
    | |- context [if ?b then _ else _] => destruct b
    end;
    simpl; (split; [reflexivity | split; [reflexivity | split; [reflexivity|]]]);
    try discriminate;
    intros _; eexists; split; reflexivity.
Qed.

(* ===================================================================== *)
(** ** cmdSearchArgs: early returns and trailing tokens *)

Section EarlyReturns.
Context `{Library}.

Lemma rwe_bind {A B} (m : step A) (k : A -> step B) :
  returnsWithError m -> (forall a, returnsWithError (k a)) ->
  returnsWithError (bind m k).
Proof.
  intros Hm Hk f f'. unfold bind. destruct (m f) as [f1 [a|]] eqn:E.
  - apply Hk.
  - intros [= <-]. apply (Hm f f1 E).
Qed.

Lemma rwe_ret {A} (a : A) : returnsWithError (ret a).
Proof. intros f f'. discriminate. Qed.

Lemma rwe_fail {A} (e : error) : returnsWithError (@fail A e).
Proof. intros f f' [= <-]. discriminate. Qed.

Lemma rwe_setErr (e : option error) : returnsWithError (setErr e).
Proof. intros f f'. discriminate. Qed.

Lemma rwe_setLfs (g : liveFenceSwitches -> liveFenceSwitches) :
  returnsWithError (setLfs g).
Proof. intros f f'. discriminate. Qed.

Lemma rwe_getLfs : returnsWithError getLfs.
Proof. intros f f'. discriminate. Qed.

Lemma rwe_getVs : returnsWithError getVs.
Proof. intros f f'. discriminate. Qed.

Lemma rwe_setVs (l : list string) : returnsWithError (setVs l).
Proof. intros f f'. discriminate. Qed.

Lemma rwe_token : returnsWithError token.
Proof.
  intros f f'. unfold token. destruct (tokenval (vs f)) as [[? ?] ?].
  discriminate.
Qed.

Lemma rwe_when (b : bool) (m : step unit) :
  returnsWithError m -> returnsWithError (when b m).
Proof. intros Hm. destruct b; [exact Hm | apply rwe_ret]. Qed.

(** [err = e; if err != nil { return }] *)
Lemma rwe_check (e : option error) :
  returnsWithError
    (setErr e ;; match e with Some _ => return_ | None => ret tt end).
Proof.
  intros f f'. unfold bind, setErr, return_, ret. simpl.
  destruct e; intros [= <-]; discriminate.
Qed.

Ltac early :=
  repeat first
    [ apply rwe_fail | apply rwe_ret | apply rwe_setErr | apply rwe_setLfs
    | apply rwe_getLfs | apply rwe_getVs | apply rwe_setVs | apply rwe_token
    | apply rwe_check
    | apply rwe_when
    | apply rwe_bind; [|intros ?]
    | match goal with
      | |- returnsWithError (if ?b then _ else _) => destruct b
      | |- returnsWithError (match ?x with Some _ => _ | None => _ end) =>
          destruct x
      | |- returnsWithError (let '(_, _) := ?x in _) => destruct x
      end ].

Lemma rwe_required : returnsWithError required.
Proof. unfold required. early. Qed.

Lemma rwe_float_arg (s : string) : returnsWithError (float_arg s).
Proof. unfold float_arg. early. Qed.

Lemma rwe_radius_arg (s : string) : returnsWithError (radius_arg s).
Proof. unfold radius_arg. early. Qed.

Lemma rwe_parse_obj (json : string) : returnsWithError (parse_obj json).
Proof. unfold parse_obj. early. Qed.

Lemma rwe_casePoint (cmd : string) : returnsWithError (casePoint cmd).
Proof.
  unfold casePoint.
  repeat first [ apply rwe_required | apply rwe_float_arg
               | apply rwe_radius_arg | progress early ].
Qed.

Lemma rwe_caseCircle (ltyp : string) : returnsWithError (caseCircle ltyp).
Proof.
  unfold caseCircle.
  repeat first [ apply rwe_required | apply rwe_float_arg
               | apply rwe_radius_arg | progress early ].
Qed.

Lemma rwe_caseObject : returnsWithError caseObject.
Proof.
  unfold caseObject.
  repeat first [ apply rwe_required | apply rwe_parse_obj | progress early ].
Qed.

Lemma rwe_caseSector (ltyp : string) : returnsWithError (caseSector ltyp).
Proof.
  unfold caseSector.
  repeat first [ apply rwe_required | apply rwe_float_arg
               | apply rwe_parse_obj | progress early ].
Qed.

Lemma rwe_caseRect (ltyp : string) : returnsWithError (caseRect ltyp).
Proof.
  intros f f'. unfold caseRect, bind, getVs, setVs, setLfs, setErr, when,
    return_, ret. simpl.
  destruct (rerr (parseRectArea ltyp (vs f))) eqn:E; simpl.
  - intros [= <-]. simpl. first [discriminate | rewrite E; discriminate].
  - destruct (ltyp =? "mvt")%string; discriminate.
Qed.

Lemma rwe_caseGet (s : Server) : returnsWithError (caseGet s).
Proof.
  unfold caseGet. repeat first [ apply rwe_required | progress early ].
Qed.

Lemma rwe_caseRoam : returnsWithError caseRoam.
Proof.
  unfold caseRoam, required_into, roam_meters_arg.
  repeat first [ apply rwe_required | progress early ].
Qed.

Lemma rwe_switchKind (s : Server) (cmd ltyp : string) :
  returnsWithError (switchKind s cmd ltyp).
Proof.
  unfold switchKind.
  repeat match goal with
  | |- returnsWithError (if ?b then _ else _) => destruct b
  end;
  first [ apply rwe_casePoint | apply rwe_caseCircle | apply rwe_caseObject
        | apply rwe_caseSector | apply rwe_caseRect | apply rwe_caseGet
        | apply rwe_caseRoam | apply rwe_ret ].
Qed.

Lemma rwe_clipClause : returnsWithError clipClause.
Proof.
  unfold clipClause.
  apply rwe_bind; [apply rwe_required | intros tok].
  destruct (negb _); [apply rwe_fail|].
  apply rwe_bind; [apply rwe_required | intros kind].
  destruct (clipKind _); [|apply rwe_fail].
  intros f f'. unfold bind, getVs, setVs, setLfs, setErr, fail, return_. simpl.
  destruct (is_errNotRectangle _); [intros [= <-]; discriminate|].
  destruct (rerr (parseRectArea (ToLower kind) (vs f))) eqn:E; simpl.
  - intros [= <-]. simpl. first [discriminate | rewrite E; discriminate].
  - discriminate.
Qed.

Lemma rwe_clipLoop (fuel : nat) : returnsWithError (clipLoop fuel).
Proof.
  induction fuel as [|n IH]; intros f f'; simpl.
  - destruct (vs f); discriminate.
  - destruct (vs f); [discriminate|].
    apply (rwe_bind clipClause (fun _ => clipLoop n) rwe_clipClause
             (fun _ => IH)).
Qed.

Lemma rwe_applyBuffer : returnsWithError applyBuffer.
Proof. unfold applyBuffer. early. Qed.

Lemma rwe_implicitBounds (cmd typ : string) :
  returnsWithError (implicitBounds cmd typ).
Proof. unfold implicitBounds. early. Qed.

Lemma rwe_resolveTarget (s : Server) (cmd : string) (types : gmap string bool) :
  returnsWithError (resolveTarget s cmd types).
Proof.
  unfold resolveTarget.
  apply rwe_bind; [apply rwe_required | intros typ0].
  apply rwe_bind; [apply rwe_implicitBounds | intros typ].
  apply rwe_bind; [apply rwe_getLfs | intros l].
  destruct (negb _); [apply rwe_fail|].
  apply rwe_bind; [apply rwe_switchKind | intros _].
  apply rwe_bind; [apply rwe_getVs | intros v].
  apply rwe_bind; [apply rwe_clipLoop | intros _].
  apply rwe_applyBuffer.
Qed.

(** A [bind] that falls through has fallen through twice. *)
Lemma bind_Next_inv {A B} (m : step A) (k : A -> step B) (f f' : frame) (b : B) :
  bind m k f = (f', Next b) ->
  exists a f1, m f = (f1, Next a) /\ k a f1 = (f', Next b).
Proof.
  unfold bind. destruct (m f) as [f1 [a|]]; [|discriminate].
  intros E. exists a, f1. split; [reflexivity | exact E].
Qed.

Lemma applyBuffer_vs (f f' : frame) (fl : flow unit) :
  applyBuffer f = (f', fl) -> vs f' = vs f.
Proof.
  unfold applyBuffer. rewrite bind_getLfs.
  destruct (hasbuffer _); [|intros [= <- _]; reflexivity].
  destruct (buffer_Simple _ _) as [o [e|]];
    unfold bind, setLfs, setErr, return_, ret; simpl;
    intros [= <- _]; reflexivity.
Qed.

End EarlyReturns.

(** X7.  No trailing token is tolerated: whenever the target resolution of
    [cmdSearchArgs] ends without error, it ran to its last statement and
    every token has been consumed; and it never returns early without an
    error. *)
Theorem resolved_target_leaves_no_token `{Library}
    (s : Server) (cmd : string) (types : gmap string bool)
    (f f' : frame) (fl : flow unit) :
  resolveTarget s cmd types f = (f', fl) ->
  (fl = Return -> err f' <> None)
  /\ (err f' = None -> fl = Next tt /\ vs f' = []).
Proof.
  intros E.
  assert (R : fl = Return -> err f' <> None).
  { intros ->. apply (rwe_resolveTarget s cmd types f f' E). }
  split; [exact R|]. intros N.
  destruct fl as [[]|]; [|exfalso; apply (R eq_refl N)].
  split; [reflexivity|].
  unfold resolveTarget in E.
  apply bind_Next_inv in E. destruct E as (typ0 & f1 & _ & E).
  apply bind_Next_inv in E. destruct E as (typ & f2 & _ & E).
  rewrite bind_getLfs in E.
  destruct (negb _); [discriminate E|].
  apply bind_Next_inv in E. destruct E as ([] & f3 & _ & E).
  apply bind_Next_inv in E. destruct E as (v & f4 & G & E).
  injection G as <- <-.
  apply bind_Next_inv in E. destruct E as ([] & f5 & L & E).
  apply clipLoop_exit in L; [|reflexivity].
  rewrite (applyBuffer_vs _ _ _ E). exact L.
Qed.

(* ===================================================================== *)
(** ** Which kinds a command accepts *)

Section Kinds.
Context `{Library}.

Lemma lookup_nearbyTypes (ltyp : string) :
  lookupType nearbyTypes ltyp = (ltyp =? "point")%string.
Proof.
  unfold lookupType, nearbyTypes.
  destruct (String.eqb_spec ltyp "point") as [-> | N].
  - rewrite lookup_singleton_eq. reflexivity.
  - rewrite lookup_singleton_ne by congruence. reflexivity.
Qed.

(** The implicit BOUNDS of lines 217-226 is for within and intersects
    only. *)
Lemma isImplicitBounds_nearby (o : outputT) (typ : string) :
  isImplicitBounds "nearby" o typ = false.
Proof.
  unfold isImplicitBounds. simpl. rewrite andb_false_r. reflexivity.
Qed.

(** [resolveTarget] from a kind token that is not empty, up to the test of
    the kind. *)
Lemma resolveTarget_kind (s : Server) (cmd : string) (types : gmap string bool)
    (l : liveFenceSwitches) (e : option error) (typ : string)
    (rest : list string) :
  typ <> "" -> isImplicitBounds cmd (output (base l)) typ = false ->
  resolveTarget s cmd types (mkFrame l e (typ :: rest)) =
    if negb (lookupType types (ToLower typ)
             || (fence (base l) && (ToLower typ =? "roam")%string
                 && (cmd =? "nearby")%string))
    then (mkFrame l (Some (errInvalidArgument typ)) rest, Return)
    else (switchKind s cmd (ToLower typ) ;;
          do v <- getVs; clipLoop (length v) ;; applyBuffer)
           (mkFrame l e rest).
Proof.
  intros N Im. unfold resolveTarget.
  rewrite (bind_next _ _ _ _ _ (required_cons l e typ rest N)).
  pose proof (implicitBounds_run cmd typ (mkFrame l e rest)) as E.
  simpl in E. rewrite Im in E. rewrite (bind_next _ _ _ _ _ E).
  rewrite bind_getLfs. simpl. destruct (negb _); reflexivity.
Qed.

End Kinds.

(** X8.  The nearby command accepts the kind POINT, and the kind ROAM when
    the request is a fence, and no other: a descriptor that resolves has one
    of the two, and any other kind token fails with [errInvalidArgument] of
    the token as it was written, with no target set. *)
Theorem nearby_accepts_point_or_fenced_roam `{Library}
    (s : Server) (fromFenceCmd : bool) (vs rest : list string) (typ : string)
    (t : searchScanBaseTokens) (l : liveFenceSwitches) (e : option error) :
  parseSearchScanBaseTokens s "nearby"
    (if fromFenceCmd then with_fence true zeroBase else zeroBase) vs
    = (typ :: rest, t, None) ->
  cmdSearchArgs s fromFenceCmd "nearby" vs nearbyTypes = (l, e) ->
  (e = None ->
     ToLower typ = "point" \/ (fence t = true /\ ToLower typ = "roam"))
  /\ (typ <> "" -> ToLower typ <> "point" ->
      ~ (fence t = true /\ ToLower typ = "roam") ->
      e = Some (errInvalidArgument typ) /\ obj l = geojson.nil).
Proof.
  intros B. unfold cmdSearchArgs. rewrite B.
  destruct (String.eqb_spec typ "") as [-> | N].
  { unfold resolveTarget.
    rewrite (bind_return _ _ _ _ (required_empty _ None rest)). simpl.
    intros [= <- <-]. split; [discriminate | congruence]. }
  rewrite (resolveTarget_kind s "nearby" nearbyTypes _ None typ rest N
             (isImplicitBounds_nearby _ _)).
  rewrite lookup_nearbyTypes. simpl. rewrite andb_true_r.
  destruct (String.eqb_spec (ToLower typ) "point") as [P | P]; simpl.
  { intros _. split; [auto | congruence]. }
  destruct (fence t) eqn:F; simpl.
  - destruct (String.eqb_spec (ToLower typ) "roam") as [R | R]; simpl.
    + intros _. split; [auto|]. intros _ _ X. exfalso. apply X. auto.
    + intros [= <- <-]. split; [discriminate | auto].
  - intros [= <- <-]. split; [discriminate | auto].
Qed.

(* ===================================================================== *)
(** ** The sector and get targets, case by case *)

(** X9.  SECTOR: a clip request is refused before any token is read; with
    five tokens that parse, bearings that compare equal give the
    equal-bearings error, which quotes the two bearing tokens; otherwise the
    target is what the geometry library parses from the generated sector,
    and its error if it has one.  The radius is used as parsed, whatever
    its sign. *)
Theorem sector_target `{Library} (ltyp : string) (l : liveFenceSwitches)
    (e : option error) (slat slon smeters sb1 sb2 : string)
    (lat lon m b1 b2 : float64) (rest : list string) :
  slat <> "" -> slon <> "" -> smeters <> "" -> sb1 <> "" -> sb2 <> "" ->
  ParseFloat slat = Some lat -> ParseFloat slon = Some lon ->
  ParseFloat smeters = Some m ->
  ParseFloat sb1 = Some b1 -> ParseFloat sb2 = Some b2 ->
  let f := mkFrame l e (slat :: slon :: smeters :: sb1 :: sb2 :: rest) in
  (clip (base l) = true ->
     caseSector ltyp f
     = (mkFrame l (Some (errInvalidArgument ("cannot clip with " ++ ltyp)))
                (vs f), Return))
  /\ (clip (base l) = false ->
      caseSector ltyp f =
        if (b1 =? b2)%float
        then (mkFrame l (Some (equalBearings sb1 sb2)) rest, Return)
        else
          let '(o, e') := geojson_Parse (sectr_JSON lon lat m b1 b2) in
          (mkFrame (lfs_obj o l) e' rest,
           match e' with Some _ => Return | None => Next tt end)).
Proof.
  intros N1 N2 N3 N4 N5 P1 P2 P3 P4 P5.
  apply String.eqb_neq in N1, N2, N3, N4, N5. cbv zeta. split; intros C.
  - unfold caseSector. rewrite bind_getLfs. simpl. rewrite C. reflexivity.
  - unfold caseSector. rewrite bind_getLfs. simpl. rewrite C.
    unfold when, required, float_arg, parse_obj, bind, token, missing. simpl.
    rewrite N1. simpl. rewrite N2. simpl. rewrite N3. simpl.
    rewrite N4. simpl. rewrite N5. simpl.
    rewrite P1. simpl. rewrite P2. simpl. rewrite P3. simpl.
    rewrite P4. simpl. rewrite P5. simpl.
    destruct (b1 =? b2)%float; [reflexivity|].
    destruct (geojson_Parse _) as [o [e'|]]; reflexivity.
Qed.

(** X10.  GET without a clip request: a missing key is [errKeyNotFound], a
    missing id in an existing collection is [errIDNotFound], and otherwise
    the target is the stored object's geometry; the two tokens are
    consumed and the key is looked up before the id. *)
Theorem get_target `{Library} (s : Server) (l : liveFenceSwitches)
    (e : option error) (key id : string) (rest : list string) :
  clip (base l) = false -> key <> "" -> id <> "" ->
  caseGet s (mkFrame l e (key :: id :: rest)) =
    match cols_Get s key with
    | None => (mkFrame l (Some errKeyNotFound) rest, Return)
    | Some c =>
        match col_Get c id with
        | None => (mkFrame l (Some errIDNotFound) rest, Return)
        | Some o => (mkFrame (lfs_obj (object.Geo o) l) e rest, Next tt)
        end
    end.
Proof.
  intros C Nk Ni. apply String.eqb_neq in Nk, Ni.
  unfold caseGet, required, bind, token, missing, when, getLfs. simpl.
  rewrite C. simpl. rewrite Nk. simpl. rewrite Ni. simpl.
  destruct (cols_Get s key) as [c|]; [|reflexivity].
  destruct (col_Get c id); reflexivity.
Qed.

(* ===================================================================== *)
(** ** The clip loop, round by round *)

Section ClipRounds.
Context `{Library}.

Lemma clipby_not_empty (tok : string) : ToLower tok = "clipby" -> tok <> "".
Proof. intros E ->. discriminate E. Qed.

(** One successful round of the loop. *)
Lemma clipClause_round (l : liveFenceSwitches) (e : option error)
    (tok kind : string) (v : list string) :
  ToLower tok = "clipby" -> kind <> "" -> clipKind (ToLower kind) = true ->
  rerr (parseRectArea (ToLower kind) v) = None ->
  clipClause (mkFrame l e (tok :: kind :: v))
  = (mkFrame (clipped (parseRectArea (ToLower kind) v) l) None
             (nvs (parseRectArea (ToLower kind) v)), Next tt).
Proof.
  intros C Nk K R. pose proof (clipby_not_empty _ C) as Nt.
  apply String.eqb_neq in Nt, Nk.
  unfold clipClause, required, bind, token, missing. simpl.
  rewrite Nt. simpl. rewrite C. simpl. rewrite Nk. simpl. rewrite K.
  unfold getVs, setVs, setLfs, setErr. simpl. rewrite R. simpl. reflexivity.
Qed.

(** A round that fails on its keyword or on its kind. *)
Lemma clipClause_refused (l : liveFenceSwitches) (e : option error)
    (tok : string) (v : list string) :
  tok <> "" ->
  clipClause (mkFrame l e (tok :: v)) =
    if negb (ToLower tok =? "clipby")%string
    then (mkFrame l (Some errInvalidNumberOfArguments) v, Return)
    else
      match v with
      | [] => (mkFrame l (Some errInvalidNumberOfArguments) [], Return)
      | kind :: v' =>
          if (kind =? "")%string
          then (mkFrame l (Some errInvalidNumberOfArguments) v', Return)
          else if clipKind (ToLower kind)
          then clipClause (mkFrame l e (tok :: v))
          else (mkFrame l (Some (errInvalidArgument
                                   ("cannot clipby " ++ ToLower kind))) v',
                Return)
      end.
Proof.
  intros Nt. apply String.eqb_neq in Nt.
  destruct (negb (ToLower tok =? "clipby")%string) eqn:C.
  - unfold clipClause, required, bind, token, missing. simpl.
    rewrite Nt. simpl. rewrite C. reflexivity.
  - destruct v as [|kind v'].
    + unfold clipClause, required, bind, token, missing. simpl.
      rewrite Nt. simpl. rewrite C. reflexivity.
    + destruct (kind =? "")%string eqn:Nk.
      * unfold clipClause, required, bind, token, missing. simpl.
        rewrite Nt. simpl. rewrite C. simpl. rewrite Nk. reflexivity.
      * destruct (clipKind (ToLower kind)) eqn:K; [reflexivity|].
        unfold clipClause, required, bind, token, missing. simpl.
        rewrite Nt. simpl. rewrite C. simpl. rewrite Nk. simpl. rewrite K.
        reflexivity.
Qed.

End ClipRounds.

(** X11.  Clip clauses compose from left to right: after two clauses that
    parse, the target is the first target clipped by the first rectangle and
    the result clipped by the second, the pending error is cleared, and the
    tile fields are those the last clause's [parseRectArea] returned (0
    unless its kind is tile), whatever the target's own were. *)
Theorem clip_clauses_compose `{Library} (l : liveFenceSwitches)
    (e : option error) (tok1 kind1 tok2 kind2 : string)
    (v1 v2 : list string) (fuel : nat) :
  let r1 := parseRectArea (ToLower kind1) v1 in
  let r2 := parseRectArea (ToLower kind2) v2 in
  ToLower tok1 = "clipby" -> kind1 <> "" -> clipKind (ToLower kind1) = true ->
  ToLower tok2 = "clipby" -> kind2 <> "" -> clipKind (ToLower kind2) = true ->
  rerr r1 = None -> nvs r1 = tok2 :: kind2 :: v2 ->
  rerr r2 = None -> nvs r2 = [] ->
  (2 <= fuel)%nat ->
  clipLoop fuel (mkFrame l e (tok1 :: kind1 :: v1))
  = (mkFrame (clipped r2 (clipped r1 l)) None [], Next tt)
  /\ obj (clipped r2 (clipped r1 l))
     = clip_Clip (clip_Clip (obj l) (grect r1)) (grect r2)
  /\ tiles (clipped r2 (clipped r1 l)) = (rtileX r2, rtileY r2, rtileZ r2)
  /\ mvt (base (clipped r2 (clipped r1 l))) = mvt (base l).
Proof.
  cbv zeta. intros C1 N1 K1 C2 N2 K2 R1 V1 R2 V2 F.
  split; [|repeat split].
  destruct fuel as [|[|n]]; try lia.
  simpl. unfold bind at 1.
  rewrite (clipClause_round l e tok1 kind1 v1 C1 N1 K1 R1), V1.
  simpl. unfold bind at 1.
  rewrite (clipClause_round _ None tok2 kind2 v2 C2 N2 K2 R2), V2.
  destruct n; reflexivity.
Qed.

(** X12.  What a [clipby] clause refuses: a trailing token that is not the
    keyword, or a keyword with no kind after it, is
    [errInvalidNumberOfArguments]; a kind other than bounds, hash, tile and
    quadkey (mvt and the kinds that are no rectangle among them) is the
    invalid argument "cannot clipby" followed by the kind in lower case.
    The target is left as it was. *)
Theorem clipby_refusals `{Library} (l : liveFenceSwitches) (e : option error)
    (tok : string) (v : list string) :
  tok <> "" ->
  (ToLower tok <> "clipby" ->
     clipClause (mkFrame l e (tok :: v))
     = (mkFrame l (Some errInvalidNumberOfArguments) v, Return))
  /\ (ToLower tok = "clipby" -> v = [] ->
      clipClause (mkFrame l e (tok :: v))
      = (mkFrame l (Some errInvalidNumberOfArguments) [], Return))
  /\ (forall kind v', ToLower tok = "clipby" -> v = kind :: v' ->
      kind <> "" -> clipKind (ToLower kind) = false ->
      clipClause (mkFrame l e (tok :: v))
      = (mkFrame l (Some (errInvalidArgument ("cannot clipby " ++ ToLower kind)))
                 v', Return))
  /\ clipKind "mvt" = false.
Proof.
  intros Nt. pose proof (clipClause_refused l e tok v Nt) as E.
  split; [|split; [|split; [|reflexivity]]].
  - intros C. apply String.eqb_neq in C. rewrite C in E. exact E.
  - intros C ->. rewrite C in E. exact E.
  - intros kind v' C -> Nk K. apply String.eqb_neq in Nk.
    rewrite C, Nk, K in E. exact E.
Qed.

(* ===================================================================== *)
(** ** Whole resolutions *)

Section WholeResolutions.
Context `{Library}.

Lemma casePoint_other (cmd : string) (l : liveFenceSwitches) (e : option error)
    (slat slon : string) (lat lon : float64) (rest : list string) :
  cmd <> "nearby" -> slat <> "" -> slon <> "" ->
  ParseFloat slat = Some lat -> ParseFloat slon = Some lon ->
  casePoint cmd (mkFrame l e (slat :: slon :: rest))
  = (mkFrame (lfs_obj (geojson.NewPoint (geometry.mkPoint lon lat)) l) None rest,
     Next tt).
Proof.
  intros Nc Nlat Nlon Plat Plon. apply String.eqb_neq in Nc, Nlat, Nlon.
  unfold casePoint, required, float_arg, bind, token, missing.
  simpl. rewrite Nlat. simpl. rewrite Nlon. simpl.
  rewrite Plat. simpl. rewrite Plon. simpl. rewrite Nc. reflexivity.
Qed.

Lemma applyBuffer_off (f : frame) :
  hasbuffer (base (lfs f)) = false -> applyBuffer f = (f, Next tt).
Proof. intros B. unfold applyBuffer. rewrite bind_getLfs, B. reflexivity. Qed.

End WholeResolutions.

(** X13.  For within and intersects a POINT target is the point itself and
    no radius token is read: the resolution ends there when no token
    follows (and no buffer is asked for), and a token that follows and is
    not the keyword [clipby], a radius for one, fails the command with
    [errInvalidNumberOfArguments]. *)
Theorem point_target_reads_no_radius `{Library}
    (s : Server) (cmd : string) (types : gmap string bool)
    (l : liveFenceSwitches) (typ slat slon : string) (lat lon : float64)
    (rest : list string) :
  cmd <> "nearby" -> ToLower typ = "point" -> lookupType types "point" = true ->
  isImplicitBounds cmd (output (base l)) typ = false ->
  slat <> "" -> slon <> "" ->
  ParseFloat slat = Some lat -> ParseFloat slon = Some lon ->
  let target := lfs_obj (geojson.NewPoint (geometry.mkPoint lon lat)) l in
  (rest = [] -> hasbuffer (base l) = false ->
     resolveTarget s cmd types (mkFrame l None (typ :: slat :: slon :: rest))
     = (mkFrame target None [], Next tt))
  /\ (forall tok more, rest = tok :: more -> tok <> "" ->
      ToLower tok <> "clipby" ->
      resolveTarget s cmd types (mkFrame l None (typ :: slat :: slon :: rest))
      = (mkFrame target (Some errInvalidNumberOfArguments) more, Return)).
Proof.
  intros Nc P T Im Nlat Nlon Plat Plon. cbv zeta.
  assert (Nt : typ <> "") by (intros ->; discriminate P).
  assert (R : resolveTarget s cmd types (mkFrame l None (typ :: slat :: slon :: rest))
              = (do v <- getVs; clipLoop (length v) ;; applyBuffer)
                  (mkFrame (lfs_obj (geojson.NewPoint (geometry.mkPoint lon lat)) l)
                           None rest)).
  { rewrite (resolveTarget_kind s cmd types l None typ _ Nt Im).
    rewrite P, T. simpl.
    change (switchKind s cmd "point") with (casePoint cmd).
    rewrite (bind_next _ _ _ _ _
               (casePoint_other cmd l None slat slon lat lon rest
                  Nc Nlat Nlon Plat Plon)).
    reflexivity. }
  rewrite R. split.
  - intros -> B. unfold bind, getVs. simpl. apply applyBuffer_off. exact B.
  - intros tok more -> Ntok C.
    pose proof (clipClause_refused
      (lfs_obj (geojson.NewPoint (geometry.mkPoint lon lat)) l) None tok more Ntok)
      as E.
    apply String.eqb_neq in C. rewrite C in E. simpl in E.
    unfold bind at 1. unfold getVs at 1. cbv beta iota.
    unfold bind at 1. simpl clipLoop. unfold bind at 1. rewrite E. reflexivity.
Qed.

(** X14.  The implicit BOUNDS: for within and intersects, when the base
    tokens took BOUNDS as the output mode and four numbers follow, the
    first of them is read as the first coordinate: the target is the
    rectangle of the four numbers, the output mode is set back to the
    default, and the tile fields are 0. *)
Theorem implicit_bounds_target `{Library}
    (s : Server) (cmd : string) (types : gmap string bool)
    (l : liveFenceSwitches) (s1 s2 s3 s4 : string) (a b c d : float64) :
  cmd = "within" \/ cmd = "intersects" ->
  output (base l) = outputBounds ->
  lookupType types "bounds" = true ->
  hasbuffer (base l) = false ->
  s1 <> "" -> s2 <> "" -> s3 <> "" -> s4 <> "" ->
  ParseFloat s1 = Some a -> ParseFloat s2 = Some b ->
  ParseFloat s3 = Some c -> ParseFloat s4 = Some d ->
  resolveTarget s cmd types (mkFrame l None [s1; s2; s3; s4])
  = (mkFrame
       (lfs_base (with_tile 0 0 0)
          (lfs_obj
             (geojson.Rect (geometry.mkRect (geometry.mkPoint b a)
                                            (geometry.mkPoint d c)))
             (lfs_base (with_output defaultSearchOutput) l)))
       None [], Next tt).
Proof.
  intros Hc O T B N1 N2 N3 N4 P1 P2 P3 P4.
  assert (Im : isImplicitBounds cmd (output (base l)) s1 = true).
  { unfold isImplicitBounds. rewrite O, Z.eqb_refl, P1.
    destruct Hc as [-> | ->]; reflexivity. }
  unfold resolveTarget.
  rewrite (bind_next _ _ _ _ _ (required_cons l None s1 _ N1)).
  pose proof (implicitBounds_run cmd s1 (mkFrame l None [s2; s3; s4])) as E.
  simpl in E. rewrite Im in E. rewrite (bind_next _ _ _ _ _ E).
  rewrite bind_getLfs. change (ToLower "BOUNDS") with "bounds".
  rewrite T. simpl.
  change (switchKind s cmd "bounds") with (caseRect "bounds").
  apply String.eqb_neq in N1, N2, N3, N4.
  unfold caseRect, bind, getVs, setVs, setLfs, setErr, when. simpl.
  unfold parseRectArea. simpl.
  rewrite !rectToken_cons, N1, N2, N3, N4.
  unfold rectFloat. rewrite P1, P2, P3, P4. simpl.
  rewrite applyBuffer_off by exact B. reflexivity.
Qed.

(* ===================================================================== *)
(** ** What a traversal pushes *)

Section Pushes.
Context `{Library} `{Index}.

Lemma pushed_push (p : ScanWriterParams) (e : exec) :
  pushed (fst (push p e)) = (pushed e ++ [p])%list.
Proof.
  unfold push. destruct (pushObject (sw e) p) as [[sw' k] [x|]]; reflexivity.
Qed.

Lemma traverse_prefix {C : Type} (proj : C -> object.Object)
    (iter : C -> exec -> exec * bool) (cands : list C) (e : exec) :
  pushesOrStops proj iter ->
  exists k,
    map p_obj (pushed (traverse iter cands e))
    = (map p_obj (pushed e) ++ take k (map proj cands))%list.
Proof.
  intros P. revert e. induction cands as [|c cands IH]; intros e; simpl.
  - exists 0%nat. rewrite app_nil_r. reflexivity.
  - destruct (P c e) as [[Same Stop] | (p & Push & Obj)];
      destruct (iter c e) as [e' go]; simpl in *.
    + subst go. exists 0%nat. rewrite Same, app_nil_r. reflexivity.
    + destruct go.
      * destruct (IH e') as [k Ek]. exists (S k).
        rewrite Ek, Push, map_app, <- app_assoc. simpl. rewrite Obj.
        reflexivity.
      * exists 1%nat. rewrite Push, map_app. simpl. rewrite Obj.
        destruct (map proj cands); reflexivity.
Qed.

Lemma pushes_iterWithin : pushesOrStops (fun o => o) iterWithin.
Proof.
  intros o e. right. eexists. split; [apply pushed_push | reflexivity].
Qed.

Lemma pushes_iterIntersects (sargs : liveFenceSwitches) :
  pushesOrStops (fun o => o) (iterIntersects sargs).
Proof.
  intros o e. right. eexists. split; [apply pushed_push | reflexivity].
Qed.

Lemma pushes_iterSparse (sargs : liveFenceSwitches) :
  pushesOrStops (fun o => o) (iterSparse sargs).
Proof.
  intros o e. right. eexists. split; [apply pushed_push | reflexivity].
Qed.

Lemma pushes_iterNearby (sargs : liveFenceSwitches) (maxDist : float64) :
  pushesOrStops fst (iterNearby sargs maxDist).
Proof.
  intros [o dist] e. rewrite iterNearby_cutoff.
  destruct (_ && _)%bool; [left; split; reflexivity|].
  right. eexists. split; [apply pushed_push | reflexivity].
Qed.

Lemma traverse_Forall {C : Type} (P : ScanWriterParams -> Prop)
    (iter : C -> exec -> exec * bool) (cands : list C) (e : exec) :
  (forall c e', Forall P (pushed e') -> Forall P (pushed (fst (iter c e')))) ->
  Forall P (pushed e) -> Forall P (pushed (traverse iter cands e)).
Proof.
  intros Hi. revert e. induction cands as [|c cands IH]; intros e F; simpl.
  - exact F.
  - specialize (Hi c e F). destruct (iter c e) as [e' go]. simpl in Hi.
    destruct go; [apply IH, Hi | exact Hi].
Qed.

Lemma push_Forall (P : ScanWriterParams -> Prop) (p : ScanWriterParams)
    (e : exec) :
  P p -> Forall P (pushed e) -> Forall P (pushed (fst (push p e))).
Proof.
  intros Pp F. rewrite pushed_push. apply Forall_app. split; [exact F|].
  constructor; [exact Pp | constructor].
Qed.

Lemma nearbyDispatch_params (sargs : liveFenceSwitches) (e e' : exec)
    (cs : list call) :
  nearbyDispatch sargs e = Some (inr (e', cs)) ->
  Forall (nearbyParams sargs) (pushed e) ->
  Forall (nearbyParams sargs) (pushed e').
Proof.
  unfold nearbyDispatch. destruct (col (sw e)) as [c|]; [|intros [= <- _]; auto].
  destruct (obj sargs); try discriminate.
  destruct (0 <? sparse (base sargs)).
  - destruct (_ <? _)%float; [discriminate|]. intros [= <- _].
    apply traverse_Forall. intros o e1 F1. unfold iterSparse, iterStep.
    apply push_Forall; [|exact F1].
    unfold nearbyParams. simpl. repeat split. intros ->. reflexivity.
  - intros [= <- _]. apply traverse_Forall. intros [o dist] e1 F1.
    rewrite iterNearby_cutoff. destruct (_ && _)%bool; [exact F1|].
    unfold iterStep. apply push_Forall; [|exact F1].
    unfold nearbyParams. simpl. repeat split. intros ->. reflexivity.
Qed.

Lemma withinDispatch_params (cmd : string) (sargs : liveFenceSwitches)
    (e : exec) :
  Forall (withinParams cmd sargs) (pushed e) ->
  Forall (withinParams cmd sargs) (pushed (fst (withinDispatch cmd sargs e))).
Proof.
  intros F. unfold withinDispatch. destruct (col (sw e)) as [c|]; [|exact F].
  destruct (String.eqb_spec cmd "within") as [-> | Nw]; simpl.
  - apply traverse_Forall; [|exact F]. intros o e1 F1.
    apply push_Forall; [|exact F1]. repeat split.
  - destruct (String.eqb_spec cmd "intersects") as [-> | Ni]; simpl; [|exact F].
    apply traverse_Forall; [|exact F]. intros o e1 F1.
    apply push_Forall; [|exact F1]. repeat split.
Qed.

End Pushes.

(** X15.  Every traversal callback of the three commands pushes candidates
    in the order the index hands them over, each at most once, and none
    after the first one it stops at: the objects pushed during a traversal
    are a prefix of the index's candidates. *)
Theorem pushed_objects_are_a_prefix `{Library} `{Index}
    (sargs : liveFenceSwitches) (maxDist : float64)
    (cands : list object.Object) (near : list (object.Object * float64))
    (e : exec) :
  (exists k, map p_obj (pushed (traverse iterWithin cands e))
             = (map p_obj (pushed e) ++ take k cands)%list)
  /\ (exists k, map p_obj (pushed (traverse (iterIntersects sargs) cands e))
                = (map p_obj (pushed e) ++ take k cands)%list)
  /\ (exists k, map p_obj (pushed (traverse (iterSparse sargs) cands e))
                = (map p_obj (pushed e) ++ take k cands)%list)
  /\ (exists k, map p_obj (pushed (traverse (iterNearby sargs maxDist) near e))
                = (map p_obj (pushed e) ++ take k (map fst near))%list).
Proof.
  repeat split.
  - destruct (traverse_prefix (fun o => o) iterWithin cands e pushes_iterWithin)
      as [k E]. exists k. rewrite E, map_id. reflexivity.
  - destruct (traverse_prefix (fun o => o) _ cands e (pushes_iterIntersects sargs))
      as [k E]. exists k. rewrite E, map_id. reflexivity.
  - destruct (traverse_prefix (fun o => o) _ cands e (pushes_iterSparse sargs))
      as [k E]. exists k. rewrite E, map_id. reflexivity.
  - apply (traverse_prefix fst _ near e (pushes_iterNearby sargs maxDist)).
Qed.

(** X16.  Whatever the command line, every candidate [cmdNearby] pushes
    tells the sink to skip the glob match and the spatial test, carries no
    clip geometry, and has a zero distance unless distance output was
    requested. *)
Theorem nearby_pushes_skip_the_tests `{Library} `{Index}
    (s : Server) (msg : Message) :
  let sargs := lfs_cmd "nearby"
                 (fst (cmdSearchArgs s false "nearby" (tail (Args msg)) nearbyTypes)) in
  Forall (nearbyParams sargs) (pushes (cmdNearby s msg)).
Proof.
  cbv zeta. unfold cmdNearby.
  destruct (cmdSearchArgs s false "nearby" (tail (Args msg)) nearbyTypes)
    as [sargs [x|]]; simpl; [constructor|].
  destruct (fence (base sargs)); [constructor|].
  destruct (makeWriter s msg (lfs_cmd "nearby" sargs) false) as [sw0 [x|]];
    [constructor|].
  destruct (nearbyDispatch _ _) as [[x | [e cs]]|] eqn:D; try constructor.
  rewrite pushes_finish.
  apply (nearbyDispatch_params _ _ _ _ D). constructor.
Qed.


(* ===================================================================== *)
(** ** The distance cutoff of the nearest-first traversal (cmdNearby) *)

Section Cutoff.
Context `{Library} `{Index}.

(** Callbacks that agree on every candidate run the same traversal. *)
Lemma traverse_ext {C : Type} (f g : C -> exec -> exec * bool)
    (cands : list C) (e : exec) :
  (forall c e', f c e' = g c e') -> traverse f cands e = traverse g cands e.
Proof.
  intros A. revert e. induction cands as [|c cands IH]; intros e; simpl.
  - reflexivity.
  - rewrite A. destruct (g c e) as [e' go]. destruct go; [apply IH | reflexivity].
Qed.

(** A candidate the callback refuses with the state untouched ends the
    traversal as if the candidates had ended before it. *)
Lemma traverse_refused {C : Type} (iter : C -> exec -> exec * bool)
    (before after : list C) (c : C) (e : exec) :
  (forall e', iter c e' = (e', false)) ->
  traverse iter (before ++ c :: after) e = traverse iter before e.
Proof.
  intros Stop. revert e. induction before as [|b before IH]; intros e; simpl.
  - rewrite Stop. reflexivity.
  - destruct (iter b e) as [e' go]. destruct go; [apply IH | reflexivity].
Qed.

(** When the callback pushes each of the candidates and asks for more, the
    traversal pushes them all, in order. *)
Lemma traverse_all {C : Type} (proj : C -> object.Object)
    (iter : C -> exec -> exec * bool) (cands : list C) (e : exec) :
  Forall (fun c => forall e',
            snd (iter c e') = true
            /\ exists p, pushed (fst (iter c e')) = (pushed e' ++ [p])%list
                         /\ p_obj p = proj c) cands ->
  map p_obj (pushed (traverse iter cands e))
  = (map p_obj (pushed e) ++ map proj cands)%list.
Proof.
  intros A. revert e. induction A as [|c cands Ac _ IH]; intros e; simpl.
  - rewrite app_nil_r. reflexivity.
  - destruct (Ac e) as [Go (p & Push & Obj)].
    destruct (iter c e) as [e' go]. simpl in Go, Push. subst go.
    rewrite IH, Push, map_app, <- app_assoc. simpl. rewrite Obj. reflexivity.
Qed.

(** With a sink that takes every candidate and asks for more, [iterStep]
    pushes the candidate and goes on. *)
Lemma iterStep_goes_on (sargs : liveFenceSwitches) (o : object.Object)
    (dist : float64) (e : exec) :
  (forall w q, exists w', pushObject w q = (w', true, None)) ->
  snd (iterStep sargs o dist e) = true
  /\ exists p, pushed (fst (iterStep sargs o dist e)) = (pushed e ++ [p])%list
               /\ p_obj p = o.
Proof.
  intros Sink. split.
  - unfold iterStep, push. destruct (Sink (sw e) (mkParams o dist
      (distance (base sargs)) true true geojson.nil)) as [w' ->]. reflexivity.
  - eexists. split; [apply pushed_push | reflexivity].
Qed.

(** Without SPARSE, and with a collection and a circle as the target, the
    command is the nearest-first traversal with [iterNearby] as its callback
    and the circle's radius as the cutoff. *)
Lemma cmdNearby_nearest (s : Server) (msg : Message)
    (sargs : liveFenceSwitches) (sw0 : scanWriter) (c : Collection)
    (center : geometry.Point) (maxDist : float64) (steps : Z) :
  cmdSearchArgs s false "nearby" (tail (Args msg)) nearbyTypes = (sargs, None) ->
  fence (base sargs) = false ->
  makeWriter s msg (lfs_cmd "nearby" sargs) false = (sw0, None) ->
  col sw0 = Some c ->
  obj sargs = geojson.Circle center maxDist steps ->
  sparse (base sargs) <= 0 ->
  cmdNearby s msg
  = finish msg
      (traverse (iterNearby (lfs_cmd "nearby" sargs) maxDist)
         (Nearby c (obj sargs)) (start msg sw0))
      [CallNearby (obj sargs)].
Proof.
  intros E F W C O S. rewrite (cmdNearby_dispatch _ _ _ _ E F W).
  unfold nearbyDispatch. rewrite col_start, C. simpl. rewrite O.
  replace (0 <? sparse (base sargs)) with false by lia. reflexivity.
Qed.

End Cutoff.

(** C10.  A nearby command without SPARSE, on an existing collection, whose
    target resolved to a circle of radius [maxDist], makes one index call,
    the nearest-first traversal [Nearby], and:
    - when the radius is not above zero (0, -0, the -1 of a missing radius
      token) the command is the traversal whose callback is [iterStep] on
      every candidate, whatever its distance, the same as with the radius
      -1; with a sink that takes every candidate, every candidate of the
      index is pushed;
    - when the radius is above zero and the index hands over a candidate
      whose distance exceeds it, the command is the traversal of the
      candidates before that one: that candidate and all later ones are not
      pushed, and with a sink that takes every candidate the pushed ones are
      exactly the candidates before it, if those are within the radius. *)
Theorem nearby_cutoff_only_for_positive_radius `{Library} `{Index}
    (s : Server) (msg : Message) (sargs : liveFenceSwitches)
    (sw0 : scanWriter) (c : Collection)
    (center : geometry.Point) (maxDist : float64) (steps : Z) :
  cmdSearchArgs s false "nearby" (tail (Args msg)) nearbyTypes = (sargs, None) ->
  fence (base sargs) = false ->
  makeWriter s msg (lfs_cmd "nearby" sargs) false = (sw0, None) ->
  col sw0 = Some c ->
  obj sargs = geojson.Circle center maxDist steps ->
  sparse (base sargs) <= 0 ->
  let sargs' := lfs_cmd "nearby" sargs in
  let cands := Nearby c (obj sargs) in
  let unbounded := fun cd : object.Object * float64 =>
    iterStep sargs' (fst cd) (if distance (base sargs) then snd cd else 0%float) in
  let sink := forall w q, exists w', pushObject w q = (w', true, None) in
  calls (cmdNearby s msg) = [CallNearby (obj sargs)]
  /\ ((0 <? maxDist)%float = false ->
      cmdNearby s msg
      = finish msg (traverse unbounded cands (start msg sw0))
               [CallNearby (obj sargs)]
      /\ cmdNearby s msg
         = finish msg (traverse (iterNearby sargs' (-1)%float) cands (start msg sw0))
                  [CallNearby (obj sargs)]
      /\ (sink -> map p_obj (pushes (cmdNearby s msg)) = map fst cands))
  /\ ((0 <? maxDist)%float = true ->
      forall before o dist after,
        cands = (before ++ (o, dist) :: after)%list ->
        (maxDist <? dist)%float = true ->
        cmdNearby s msg
        = finish msg (traverse (iterNearby sargs' maxDist) before (start msg sw0))
                 [CallNearby (obj sargs)]
        /\ (exists k, map p_obj (pushes (cmdNearby s msg)) = take k (map fst before))
        /\ (sink ->
            Forall (fun cd => (maxDist <? snd cd)%float = false) before ->
            map p_obj (pushes (cmdNearby s msg)) = map fst before)).
Proof.
  intros E F W C O S. cbv zeta.
  rewrite (cmdNearby_nearest _ _ _ _ _ _ _ _ E F W C O S).
  split; [apply calls_finish|]. split.
  - intros P.
    assert (T : traverse (iterNearby (lfs_cmd "nearby" sargs) maxDist)
                  (Nearby c (obj sargs)) (start msg sw0)
                = traverse (fun cd : object.Object * float64 =>
                              iterStep (lfs_cmd "nearby" sargs) (fst cd)
                                (if distance (base sargs) then snd cd else 0%float))
                    (Nearby c (obj sargs)) (start msg sw0)).
    { apply traverse_ext. intros [o d] e'. rewrite iterNearby_cutoff, P.
      reflexivity. }
    split; [rewrite T; reflexivity|]. split.
    + f_equal. apply traverse_ext. intros [o d] e'.
      rewrite !iterNearby_cutoff, P. reflexivity.
    + intros Sink. rewrite pushes_finish, T.
      rewrite (traverse_all fst).
      * unfold start. destruct (OutputType msg); reflexivity.
      * apply Forall_forall. intros [o d] _ e'.
        apply (iterStep_goes_on _ _ _ _ Sink).
  - intros P before o dist after Ec D. rewrite Ec.
    rewrite traverse_refused
      by (intros e'; rewrite iterNearby_cutoff, P, D; reflexivity).
    split; [reflexivity|]. split.
    + rewrite pushes_finish.
      destruct (traverse_prefix fst _ before (start msg sw0)
                  (pushes_iterNearby (lfs_cmd "nearby" sargs) maxDist)) as [k Ek].
      exists k. rewrite Ek. unfold start. destruct (OutputType msg); reflexivity.
    + intros Sink Fw. rewrite pushes_finish.
      rewrite (traverse_all fst).
      * unfold start. destruct (OutputType msg); reflexivity.
      * apply Forall_forall. intros [o' d'] In' e'.
        rewrite Forall_forall in Fw. specialize (Fw _ In'). simpl in Fw.
        rewrite iterNearby_cutoff, Fw, andb_false_r.
        apply (iterStep_goes_on _ _ _ _ Sink).
Qed.

(* ===================================================================== *)
(** ** A key that names no collection *)

(** X18.  When the key names no collection ([sw.col] is nil) each of the
    three commands skips its traversal block: it makes no index call, pushes
    nothing, and returns the reply the scan writer writes for no result,
    without error; this also where SPARSE has no distance. *)
Theorem missing_collection_gives_an_empty_reply `{Library} `{Index}
    (s : Server) (msg : Message) (sargs : liveFenceSwitches)
    (sw0 : scanWriter) :
  col sw0 = None ->
  (cmdSearchArgs s false "nearby" (tail (Args msg)) nearbyTypes = (sargs, None) ->
   fence (base sargs) = false ->
   makeWriter s msg (lfs_cmd "nearby" sargs) false = (sw0, None) ->
   cmdNearby s msg = finish msg (start msg sw0) [])
  /\ (forall cmd,
      cmdSearchArgs s false cmd (tail (Args msg)) withinOrIntersectsTypes
        = (sargs, None) ->
      fence (base sargs) = false ->
      makeWriter s msg (lfs_cmd cmd sargs) false = (sw0, None) ->
      cmdWITHINorINTERSECTS s cmd msg = finish msg (start msg sw0) [])
  /\ (cmdSeachValuesArgs s (tail (Args msg)) = (sargs, None) ->
      makeWriter s msg sargs true = (sw0, None) ->
      cmdSearch s msg = finish msg (start msg sw0) [])
  /\ calls (finish msg (start msg sw0) []) = []
  /\ pushes (finish msg (start msg sw0) []) = []
  /\ exists v, out (finish msg (start msg sw0) []) = Returned v None.
Proof.
  intros C.
  assert (C' : col (sw (start msg sw0)) = None) by (rewrite col_start; exact C).
  split; [|split; [|split; [|split; [|split]]]].
  - intros E F W. rewrite (cmdNearby_dispatch _ _ _ _ E F W).
    unfold nearbyDispatch. rewrite C'. reflexivity.
  - intros cmd E F W. unfold cmdWITHINorINTERSECTS. rewrite E. simpl.
    rewrite F. simpl in W. rewrite W. unfold withinDispatch. rewrite C'.
    reflexivity.
  - intros E W. unfold cmdSearch. rewrite E. rewrite W.
    unfold searchDispatch. rewrite C'. reflexivity.
  - apply calls_finish.
  - rewrite pushes_finish. unfold start. destruct (OutputType msg); reflexivity.
  - unfold finish, start. destruct (OutputType msg); simpl; eexists; reflexivity.
Qed.

(* ===================================================================== *)
(** ** multiGlobParse and the choice of the scan *)

Section ScanChoice.
Context `{Library}.

(** The content of the bounds of [multiGlobParse] for a list with a first
    pattern and no pattern without bound. *)
Lemma multiGlobParse_extremes (p : string) (globs : list string) (desc : bool) :
  existsb noBound (limitsOf (p :: globs) desc) = false ->
  let lows := map fst (limitsOf (p :: globs) desc) in
  let highs := map snd (limitsOf (p :: globs) desc) in
  let r := multiGlobParse (p :: globs) desc in
  if desc then maximum_of lows (fst r) /\ minimum_of highs (snd r)
  else minimum_of lows (fst r) /\ maximum_of highs (snd r).
Proof.
  intros E. cbv zeta. unfold multiGlobParse. simpl in *. unfold globRound.
  fold (noBound (glob_Limits p desc)).
  apply orb_false_elim in E. destruct E as [N E]. rewrite N.
  destruct (singleton_extremes (fst (glob_Limits p desc))) as [m1 M1].
  destruct (singleton_extremes (snd (glob_Limits p desc))) as [m2 M2].
  destruct desc.
  - apply (globLoop_desc [glob_Limits p true] _ _ E M1 m2).
  - apply (globLoop_asc [glob_Limits p false] _ _ E m1 M2).
Qed.

Lemma str_le_empty (x : string) : str_le x "" = true -> x = "".
Proof. destruct x; [reflexivity | discriminate]. Qed.

Lemma str_le_antisym (x y : string) :
  str_le x y = true -> str_le y x = true -> x = y.
Proof. apply String.leb_antisym. Qed.

Lemma minimum_unique (l : list string) (x y : string) :
  minimum_of l x -> minimum_of l y -> x = y.
Proof.
  intros [Ix Lx] [Iy Ly]. apply str_le_antisym; [apply Lx, Iy | apply Ly, Ix].
Qed.

Lemma maximum_unique (l : list string) (x y : string) :
  maximum_of l x -> maximum_of l y -> x = y.
Proof.
  intros [Ix Lx] [Iy Ly]. apply str_le_antisym; [apply Ly, Ix | apply Lx, Iy].
Qed.

Lemma minimum_perm (l l' : list string) (x : string) :
  Permutation l l' -> minimum_of l x -> minimum_of l' x.
Proof.
  intros P [I L]. split.
  - eapply Permutation_in; eassumption.
  - intros y Y. apply L. eapply Permutation_in; [symmetry|]; eassumption.
Qed.

Lemma maximum_perm (l l' : list string) (x : string) :
  Permutation l l' -> maximum_of l x -> maximum_of l' x.
Proof.
  intros P [I L]. split.
  - eapply Permutation_in; eassumption.
  - intros y Y. apply L. eapply Permutation_in; [symmetry|]; eassumption.
Qed.

Lemma existsb_perm {A} (f : A -> bool) (l l' : list A) :
  Permutation l l' -> existsb f l = existsb f l'.
Proof.
  intros P. induction P; simpl.
  - reflexivity.
  - rewrite IHP. reflexivity.
  - rewrite !orb_assoc, (orb_comm (f y) (f x)). reflexivity.
  - congruence.
Qed.

(** A pattern with a bound has a limit that is not empty. *)
Lemma bounded_limit (g : string * string) :
  noBound g = false -> fst g <> "" \/ snd g <> "".
Proof.
  unfold noBound. intros E. apply andb_false_iff in E.
  destruct E as [E | E]; apply String.eqb_neq in E; auto.
Qed.

Lemma existsb_noBound_false (l : list (string * string)) (g : string * string) :
  existsb noBound l = false -> In g l -> noBound g = false.
Proof.
  intros E I. destruct (noBound g) eqn:N; [|reflexivity].
  assert (X : existsb noBound l = true)
    by (apply existsb_exists; exists g; auto).
  congruence.
Qed.

(** With a first pattern and no pattern without bound, the bounds are not
    the empty pair. *)
Lemma multiGlobParse_bounded (p : string) (globs : list string) (desc : bool) :
  existsb noBound (limitsOf (p :: globs) desc) = false ->
  multiGlobParse (p :: globs) desc <> ("", "").
Proof.
  intros E X. pose proof (multiGlobParse_extremes p globs desc E) as M.
  cbv zeta in M. rewrite X in M. simpl fst in M. simpl snd in M.
  destruct desc.
  - destruct M as [[_ Lmax] [Imin _]].
    apply in_map_iff in Imin. destruct Imin as (g & Sg & Ig).
    destruct (bounded_limit g (existsb_noBound_false _ _ E Ig)) as [N | N];
      [|congruence].
    apply N, str_le_empty, Lmax, in_map, Ig.
  - destruct M as [[Imin _] [_ Lmax]].
    apply in_map_iff in Imin. destruct Imin as (g & Fg & Ig).
    destruct (bounded_limit g (existsb_noBound_false _ _ E Ig)) as [N | N];
      [congruence|].
    apply N, str_le_empty, Lmax, in_map, Ig.
Qed.

End ScanChoice.

(** X19.  The bounds [multiGlobParse] derives do not depend on the order of
    the patterns: a permutation of the list gives the same pair, in either
    direction. *)
Theorem multiGlobParse_ignores_the_order `{Library}
    (globs globs' : list string) (desc : bool) :
  Permutation globs globs' ->
  multiGlobParse globs desc = multiGlobParse globs' desc.
Proof.
  intros P.
  assert (PL : Permutation (limitsOf globs desc) (limitsOf globs' desc))
    by (apply Permutation_map, P).
  destruct (existsb noBound (limitsOf globs desc)) eqn:E.
  - unfold multiGlobParse. rewrite (globLoop_noBound _ _ _ _ E).
    rewrite (existsb_perm _ _ _ PL) in E.
    rewrite (globLoop_noBound _ _ _ _ E). reflexivity.
  - pose proof E as E'. rewrite (existsb_perm _ _ _ PL) in E'.
    destruct globs as [|p globs], globs' as [|p' globs'].
    + reflexivity.
    + apply Permutation_nil in P. discriminate P.
    + symmetry in P. apply Permutation_nil in P. discriminate P.
    + pose proof (multiGlobParse_extremes p globs desc E) as M.
      pose proof (multiGlobParse_extremes p' globs' desc E') as M'.
      cbv zeta in M, M'.
      assert (P1 : Permutation (map fst (limitsOf (p :: globs) desc))
                               (map fst (limitsOf (p' :: globs') desc)))
        by (apply Permutation_map, PL).
      assert (P2 : Permutation (map snd (limitsOf (p :: globs) desc))
                               (map snd (limitsOf (p' :: globs') desc)))
        by (apply Permutation_map, PL).
      destruct (multiGlobParse (p :: globs) desc) as [lo hi].
      destruct (multiGlobParse (p' :: globs') desc) as [lo' hi'].
      simpl fst in *. simpl snd in *.
      destruct desc; destruct M as [M1 M2], M' as [M1' M2']; f_equal.
      * apply (maximum_unique _ _ _ (maximum_perm _ _ _ P1 M1) M1').
      * apply (minimum_unique _ _ _ (minimum_perm _ _ _ P2 M2) M2').
      * apply (minimum_unique _ _ _ (minimum_perm _ _ _ P1 M1) M1').
      * apply (maximum_unique _ _ _ (maximum_perm _ _ _ P2 M2) M2').
Qed.

(** X20.  When [cmdSearch] does not take the count shortcut and the
    collection exists, it makes exactly one index call: the full scan
    [SearchValues] when there is no pattern or some pattern has no bound,
    and otherwise the range scan [SearchValuesRange] between the bounds of
    [multiGlobParse]; both in the requested direction. *)
Theorem search_scan_choice `{Library} `{Index}
    (sargs : liveFenceSwitches) (e : exec) (c : Collection) :
  col (sw e) = Some c ->
  (sw_output (sw e) =? outputCount) && (length (sw_wheres (sw e)) =? 0)%nat
    && globEverything (sw e) = false ->
  let globs := sw_globs (sw e) in
  let d := desc (base sargs) in
  (globs = [] \/ existsb noBound (limitsOf globs d) = true ->
     snd (searchDispatch sargs e) = [CallSearchValues d])
  /\ (globs <> [] -> existsb noBound (limitsOf globs d) = false ->
      snd (searchDispatch sargs e)
      = [CallSearchValuesRange (fst (multiGlobParse globs d))
                               (snd (multiGlobParse globs d)) d]).
Proof.
  intros C S. cbv zeta. unfold searchDispatch. rewrite C, S. split.
  - intros X.
    assert (E : multiGlobParse (sw_globs (sw e)) (desc (base sargs)) = ("", "")).
    { destruct X as [-> | X]; [reflexivity | apply globLoop_noBound, X]. }
    rewrite E. reflexivity.
  - intros N X. destruct (sw_globs (sw e)) as [|p globs] eqn:G; [congruence|].
    pose proof (multiGlobParse_bounded p globs _ X) as B.
    destruct (multiGlobParse (p :: globs) (desc (base sargs))) as [lo hi].
    simpl fst. simpl snd.
    destruct ((lo =? "") && (hi =? ""))%string eqn:Z; [|reflexivity].
    apply andb_true_iff in Z. destruct Z as [Z1 Z2].
    apply String.eqb_eq in Z1, Z2. subst. congruence.
Qed.

(* ===================================================================== *)
(** ** The circle and tile targets, case by case *)

(** X21.  CIRCLE: a clip request is refused before any token is read; the
    radius token is required, and one that does not parse, or parses to a
    number below zero, is an invalid argument; any other parsed radius
    makes the circle around the parsed point. *)
Theorem circle_target `{Library} (ltyp : string) (l : liveFenceSwitches)
    (e : option error) (slat slon : string) (lat lon : float64)
    (rest : list string) :
  slat <> "" -> slon <> "" ->
  ParseFloat slat = Some lat -> ParseFloat slon = Some lon ->
  let f := mkFrame l e (slat :: slon :: rest) in
  (clip (base l) = true ->
     caseCircle ltyp f
     = (mkFrame l (Some (errInvalidArgument ("cannot clip with " ++ ltyp)))
                (vs f), Return))
  /\ (clip (base l) = false ->
      caseCircle ltyp f =
        match rest with
        | [] => (mkFrame l (Some errInvalidNumberOfArguments) [], Return)
        | smeters :: rest' =>
            if (smeters =? "")%string
            then (mkFrame l (Some errInvalidNumberOfArguments) rest', Return)
            else
              match ParseFloat smeters with
              | None => (mkFrame l (Some (errInvalidArgument smeters)) rest', Return)
              | Some m =>
                  if (m <? 0)%float
                  then (mkFrame l (Some (errInvalidArgument smeters)) rest', Return)
                  else (mkFrame (lfs_obj (nearbyCircle lat lon m) l) None rest',
                        Next tt)
              end
        end).
Proof.
  intros N1 N2 P1 P2. apply String.eqb_neq in N1, N2. cbv zeta.
  split; intros C.
  - unfold caseCircle. rewrite bind_getLfs. simpl. rewrite C. reflexivity.
  - unfold caseCircle. rewrite bind_getLfs. simpl. rewrite C.
    unfold when, required, float_arg, radius_arg, bind, token, missing. simpl.
    rewrite N1. simpl. rewrite N2. simpl. rewrite P1. simpl. rewrite P2. simpl.
    destruct rest as [|smeters rest']; simpl; [reflexivity|].
    destruct (smeters =? "")%string; simpl; [reflexivity|].
    destruct (ParseFloat smeters) as [m|]; simpl; [|reflexivity].
    destruct (m <? 0)%float; reflexivity.
Qed.

(** X22.  TILE and MVT: when the three tokens parse to coordinates in
    range, the descriptor's tile fields are those coordinates, the target is
    the tile's rectangle (expanded for MVT), and the [mvt] flag is set by
    MVT and left alone by TILE. *)
Theorem tile_target `{Library} (ltyp : string) (l : liveFenceSwitches)
    (e : option error) (sx sy sz : string) (x y z : Z) (rest : list string) :
  ltyp = "tile" \/ ltyp = "mvt" ->
  sx <> "" -> sy <> "" -> sz <> "" ->
  Atoi sx = Some x -> Atoi sy = Some y -> Atoi sz = Some z ->
  0 <= x -> 0 <= y -> 0 <= z <= 23 ->
  let tile := rect_of_bounds (bing_TileXYToBounds x y z) in
  exists f',
    caseRect ltyp (mkFrame l e (sx :: sy :: sz :: rest)) = (f', Next tt)
    /\ err f' = None /\ vs f' = rest
    /\ tiles (lfs f') = (x, y, z)
    /\ mvt (base (lfs f')) = ((ltyp =? "mvt")%string || mvt (base l))%bool
    /\ obj (lfs f')
       = geojson.Rect (if (ltyp =? "mvt")%string then expandMvt tile else tile)
    /\ roam (lfs f') = roam l.
Proof.
  intros K Nx Ny Nz Ax Ay Az Px Py Pz. cbv zeta.
  apply String.eqb_neq in Nx, Ny, Nz.
  assert (R : parseRectArea ltyp (sx :: sy :: sz :: rest)
              = mkRectArea rest
                  (geojson.Rect
                     (if (ltyp =? "mvt")%string
                      then expandMvt (rect_of_bounds (bing_TileXYToBounds x y z))
                      else rect_of_bounds (bing_TileXYToBounds x y z)))
                  x y z None).
  { destruct K as [-> | ->]; unfold parseRectArea; simpl;
      rewrite !rectToken_cons, Nx, Ny, Nz; unfold rectInt;
      rewrite Ax, Ay, Az;
      replace (x <? 0) with false by lia;
      replace (y <? 0) with false by lia;
      replace (z <? 0) with false by lia;
      replace (23 <? z) with false by lia; reflexivity. }
  unfold caseRect, bind, getVs, setVs, setLfs, setErr, when. simpl.
  rewrite R. simpl.
  destruct K as [-> | ->]; simpl; eexists; repeat split.
Qed.

(* ===================================================================== *)
(** * The further properties at concrete commands *)

Section MoreWitnesses.
Local Existing Instance Sample.library.
Local Existing Instance Sample.index.

Ltac side := first [discriminate | vm_compute; reflexivity | lia].
Ltac closed := first [vm_compute; reflexivity | vm_compute; discriminate].

(** [BOUNDS 1 2 3 4] before a clip clause. *)
Lemma bounds_corners_witness :
  parseRectArea "bounds" ["1"; "2"; "3"; "4"; "CLIPBY"]
  = mkRectArea ["CLIPBY"]
      (geojson.Rect (geometry.mkRect (geometry.mkPoint 2%float 1%float) (geometry.mkPoint 4%float 3%float)))
      0 0 0 None.
Proof.
  refine (bounds_corners_are_the_tokens "1" "2" "3" "4" 1%float 2%float 3%float
            4%float ["CLIPBY"] _ _ _ _ _ _ _ _); side.
Defined.

(** A hash in a clip clause. *)
Lemma not_a_rectangle_witness :
  clipKind "hash" = true
  /\ is_errNotRectangle (rerr (parseRectArea "hash" ["9q"])) = false.
Proof.
  split; [reflexivity|].
  exact (proj2 (not_a_rectangle_only_for_other_kinds "hash" ["9q"]) eq_refl).
Defined.

(** [TILE 1 0 1]. *)
Lemma tile_coordinates_witness :
  let r := parseRectArea "tile" ["1"; "0"; "1"] in
  rerr r = None /\ 0 <= rtileX r /\ 0 <= rtileY r /\ 0 <= rtileZ r <= 23.
Proof.
  cbv zeta. split; [vm_compute; reflexivity|].
  refine (proj1 (tile_coordinates_in_range "tile" ["1"; "0"; "1"] _)).
  vm_compute; reflexivity.
Defined.

(** A quadkey followed by two more tokens. *)
Lemma parseRectArea_arity_witness :
  nvs (parseRectArea "quadkey" ["2"; "CLIPBY"; "x"])
  = drop (arity "quadkey") ["2"; "CLIPBY"; "x"]
  /\ (arity "quadkey" <= length ["2"; "CLIPBY"; "x"])%nat.
Proof.
  refine (proj2 (parseRectArea_reads_its_arity "quadkey" ["2"; "CLIPBY"; "x"] _) _);
    vm_compute; reflexivity.
Defined.

(** The tile (0, 0, 1) as TILE and as MVT. *)
Lemma mvt_is_the_expanded_tile_witness :
  exists rect,
    grect (parseRectArea "tile" ["0"; "0"; "1"]) = geojson.Rect rect
    /\ grect (parseRectArea "mvt" ["0"; "0"; "1"]) = geojson.Rect (expandMvt rect).
Proof.
  refine (proj2 (proj2 (proj2 (mvt_is_the_expanded_tile ["0"; "0"; "1"]))) _).
  vm_compute; reflexivity.
Defined.

(** [WITHIN fleet POINT 33 -115] after the base tokens. *)
Lemma resolved_target_witness :
  let r := resolveTarget Sample.server "within" withinOrIntersectsTypes
             (mkFrame zeroLfs None ["POINT"; "33"; "-115"]) in
  err (fst r) = None /\ snd r = Next tt /\ vs (fst r) = [].
Proof.
  cbv zeta. split; [vm_compute; reflexivity|].
  refine (proj2 (resolved_target_leaves_no_token Sample.server "within"
                   withinOrIntersectsTypes _ _ _ (surjective_pairing _)) _).
  vm_compute; reflexivity.
Defined.

(** [NEARBY fleet POINT 33 -115] and [NEARBY fleet BOUNDS 1 2 3 4]. *)
Lemma nearby_kinds_witness :
  (ToLower "POINT" = "point" \/ (false = true /\ ToLower "POINT" = "roam"))
  /\ snd (resolve "nearby" ["fleet"; "HASH"; "9q"])
     = Some (errInvalidArgument "HASH").
Proof.
  split.
  - refine (proj1 (nearby_accepts_point_or_fenced_roam Sample.server false
                     ["fleet"; "POINT"; "33"; "-115"] ["33"; "-115"] "POINT"
                     (with_output Sample.oObjects (Sample.with_key "fleet" zeroBase))
                     _ _ _ (surjective_pairing _)) _);
      vm_compute; reflexivity.
  - refine (proj1 (proj2 (nearby_accepts_point_or_fenced_roam Sample.server false
                     ["fleet"; "HASH"; "9q"] ["9q"] "HASH"
                     (with_output Sample.oObjects (Sample.with_key "fleet" zeroBase))
                     _ _ _ (surjective_pairing _)) _ _ _)).
    + vm_compute; reflexivity.
    + discriminate.
    + vm_compute. discriminate.
    + intros [X _]. discriminate X.
Defined.

(** [SECTOR 1 2 3 4 4]. *)
Lemma sector_target_witness :
  caseSector "sector" (mkFrame zeroLfs None ["1"; "2"; "3"; "4"; "4"])
  = (mkFrame zeroLfs (Some (equalBearings "4" "4")) [], Return).
Proof.
  refine (proj2 (sector_target "sector" zeroLfs None "1" "2" "3" "4" "4"
                   1%float 2%float 3%float 4%float 4%float []
                   _ _ _ _ _ _ _ _ _ _) _); side.
Defined.

(** [GET fleet truck-1] and [GET depot truck-1]. *)
Lemma get_target_witness :
  caseGet Sample.server (mkFrame zeroLfs None ["fleet"; "truck-1"])
  = (mkFrame (lfs_obj (geojson.Point (geometry.mkPoint (-115)%float 33%float)) zeroLfs)
             None [], Next tt)
  /\ caseGet Sample.server (mkFrame zeroLfs None ["depot"; "truck-1"])
     = (mkFrame zeroLfs (Some errKeyNotFound) [], Return).
Proof.
  split.
  - etransitivity;
      [apply (get_target Sample.server zeroLfs None "fleet" "truck-1" []); side
      | vm_compute; reflexivity].
  - etransitivity;
      [apply (get_target Sample.server zeroLfs None "depot" "truck-1" []); side
      | vm_compute; reflexivity].
Defined.

(** [CLIPBY BOUNDS 1 2 3 4 CLIPBY HASH 9q] after a target. *)
Lemma clip_clauses_witness :
  let r1 := parseRectArea "bounds" ["1"; "2"; "3"; "4"; "CLIPBY"; "HASH"; "9q"] in
  let r2 := parseRectArea "hash" ["9q"] in
  clipLoop 9 (mkFrame zeroLfs None
                ["CLIPBY"; "BOUNDS"; "1"; "2"; "3"; "4"; "CLIPBY"; "HASH"; "9q"])
  = (mkFrame (clipped r2 (clipped r1 zeroLfs)) None [], Next tt).
Proof.
  cbv zeta.
  refine (proj1 (clip_clauses_compose zeroLfs None "CLIPBY" "BOUNDS" "CLIPBY" "HASH"
                   ["1"; "2"; "3"; "4"; "CLIPBY"; "HASH"; "9q"] ["9q"] 9
                   _ _ _ _ _ _ _ _ _ _ _)); side.
Defined.

(** [CLIPBY MVT 0 0 0] after a target. *)
Lemma clipby_refusals_witness :
  clipClause (mkFrame zeroLfs None ["CLIPBY"; "MVT"; "0"; "0"; "0"])
  = (mkFrame zeroLfs (Some (errInvalidArgument "cannot clipby mvt"))
             ["0"; "0"; "0"], Return).
Proof.
  refine (proj1 (proj2 (proj2 (clipby_refusals zeroLfs None "CLIPBY"
                                 ["MVT"; "0"; "0"; "0"] _)))
            "MVT" ["0"; "0"; "0"] _ _ _ _); side.
Defined.

(** [WITHIN fleet POINT 33 -115 500]. *)
Lemma point_target_witness :
  resolveTarget Sample.server "within" withinOrIntersectsTypes
    (mkFrame zeroLfs None ["POINT"; "33"; "-115"; "500"])
  = (mkFrame (lfs_obj (geojson.Point (geometry.mkPoint (-115)%float 33%float)) zeroLfs)
             (Some errInvalidNumberOfArguments) [], Return).
Proof.
  refine (proj2 (point_target_reads_no_radius Sample.server "within"
                   withinOrIntersectsTypes zeroLfs "POINT" "33" "-115"
                   33%float (-115)%float ["500"] _ _ _ _ _ _ _ _)
            "500" [] _ _ _); side.
Defined.

(** [WITHIN fleet BOUNDS 1 2 3 4], the base tokens having read BOUNDS as the
    output mode. *)
Lemma implicit_bounds_witness :
  let l := lfs_base (with_output Sample.oBounds) zeroLfs in
  resolveTarget Sample.server "within" withinOrIntersectsTypes
    (mkFrame l None ["1"; "2"; "3"; "4"])
  = (mkFrame
       (lfs_base (with_tile 0 0 0)
          (lfs_obj
             (geojson.Rect (geometry.mkRect (geometry.mkPoint 2%float 1%float)
                                            (geometry.mkPoint 4%float 3%float)))
             (lfs_base (with_output Sample.oObjects) l)))
       None [], Next tt).
Proof.
  cbv zeta.
  refine (implicit_bounds_target Sample.server "within" withinOrIntersectsTypes
            (lfs_base (with_output Sample.oBounds) zeroLfs) "1" "2" "3" "4"
            1%float 2%float 3%float 4%float
            (or_introl eq_refl) _ _ _ _ _ _ _ _ _ _ _); side.
Defined.

(** [NEARBY depot POINT 33 -115], no collection being named depot. *)
Lemma missing_collection_witness :
  let msg := Sample.message ["NEARBY"; "depot"; "POINT"; "33"; "-115"] in
  let sargs := fst (resolve "nearby" (tail (Args msg))) in
  let sw0 := fst (makeWriter Sample.server msg (lfs_cmd "nearby" sargs) false) in
  col sw0 = None
  /\ cmdNearby Sample.server msg = finish msg (start msg sw0) [].
Proof.
  cbv zeta. split; [vm_compute; reflexivity|].
  refine (proj1 (missing_collection_gives_an_empty_reply Sample.server _ _ _ _)
            _ _ _); vm_compute; reflexivity.
Defined.

(** Two prefix patterns in both orders. *)
Lemma multiGlobParse_order_witness :
  multiGlobParse ["abc*"; "abd*"] true = multiGlobParse ["abd*"; "abc*"] true.
Proof.
  refine (multiGlobParse_ignores_the_order ["abc*"; "abd*"] ["abd*"; "abc*"] true _).
  apply perm_swap.
Defined.

(** A search for the values with the prefix abc, and one with a pattern
    that has no prefix. *)
Lemma search_scan_choice_witness :
  let e := fun globs =>
    mkExec (mkSw (Some Sample.fleet) Sample.oObjects [] globs false 0 []
                 (resp.Native "")) None [] in
  snd (searchDispatch zeroLfs (e ["abc*"; "*"])) = [CallSearchValues false]
  /\ snd (searchDispatch zeroLfs (e ["abc*"]))
     = [CallSearchValuesRange (fst (multiGlobParse ["abc*"] false))
                              (snd (multiGlobParse ["abc*"] false)) false].
Proof.
  cbv zeta. split.
  - refine (proj1 (search_scan_choice zeroLfs _ Sample.fleet _ _) (or_intror _));
      vm_compute; reflexivity.
  - refine (proj2 (search_scan_choice zeroLfs _ Sample.fleet _ _) _ _);
      side.
Defined.

(** A count of the fleet from the cursor 1. *)
Lemma searchDispatch_count_witness :
  let sargs := lfs_base (Sample.with_cursor 1) zeroLfs in
  let e := mkExec (mkSw (Some Sample.fleet) Sample.oCount [] ["*"] true 0 []
                        (resp.Native "")) None [] in
  count (sw (fst (searchDispatch sargs e))) = Z.max (col_Count Sample.fleet - 1) 0
  /\ snd (searchDispatch sargs e) = [].
Proof.
  cbv zeta.
  refine (searchDispatch_count (lfs_base (Sample.with_cursor 1) zeroLfs) _
            Sample.fleet _ _ _ _ _ _);
    first [ vm_compute; reflexivity
          | vm_compute; split; [discriminate | reflexivity] ].
Defined.

(** [POINT 33 -115 5] for nearby. *)
Lemma casePoint_nearby_witness :
  casePoint "nearby" (mkFrame zeroLfs None ["33"; "-115"; "5"])
  = (mkFrame (lfs_obj (nearbyCircle 33 (-115) 5) zeroLfs) None [], Next tt).
Proof.
  etransitivity;
    [apply (casePoint_nearby zeroLfs None "33" "-115" 33%float (-115)%float ["5"]);
       side
    | vm_compute; reflexivity].
Defined.

(** [ROAM fleet truck-1 500]. *)
Lemma caseRoam_resolved_witness :
  let f' := fst (caseRoam (mkFrame zeroLfs None ["fleet"; "truck-1"; "500"])) in
  on (roam (lfs f')) = true
  /\ rkey (roam (lfs f')) <> ""
  /\ id (roam (lfs f')) <> ""
  /\ exists smeters, ParseFloat smeters = Some (meters (roam (lfs f'))).
Proof.
  cbv zeta.
  refine (caseRoam_resolved (mkFrame zeroLfs None ["fleet"; "truck-1"; "500"]) _ _).
  vm_compute; reflexivity.
Defined.

(** [CIRCLE 33 -115 -5]. *)
Lemma circle_target_witness :
  caseCircle "circle" (mkFrame zeroLfs None ["33"; "-115"; "-5"])
  = (mkFrame zeroLfs (Some (errInvalidArgument "-5")) [], Return).
Proof.
  etransitivity;
    [apply (proj2 (circle_target "circle" zeroLfs None "33" "-115"
                     33%float (-115)%float ["-5"] ltac:(side) ltac:(side)
                     ltac:(side) ltac:(side))); side
    | vm_compute; reflexivity].
Defined.

(** [MVT 1 0 1]. *)
Lemma tile_target_witness :
  exists f',
    caseRect "mvt" (mkFrame zeroLfs None ["1"; "0"; "1"]) = (f', Next tt)
    /\ err f' = None /\ vs f' = []
    /\ tiles (lfs f') = (1, 0, 1)
    /\ mvt (base (lfs f')) = true
    /\ obj (lfs f')
       = geojson.Rect (expandMvt (rect_of_bounds (Sample.tileBounds 1 0 1)))
    /\ roam (lfs f') = zeroRoam.
Proof.
  refine (tile_target "mvt" zeroLfs None "1" "0" "1" 1 0 1 []
            (or_intror eq_refl) _ _ _ _ _ _ _ _ _); side.
Defined.

(** The fleet, whose index reports truck-1 at the target and truck-2
    300 km away: with the radius 0 both trucks are pushed, with the radius 5
    truck-1 alone. *)
Lemma nearby_cutoff_witness :
  let zero := Sample.message ["NEARBY"; "fleet"; "POINT"; "33"; "-115"; "0"] in
  let five := Sample.message ["NEARBY"; "fleet"; "POINT"; "33"; "-115"; "5"] in
  let t1 := Sample.truck "truck-1" 33%float (-115)%float in
  let t2 := Sample.truck "truck-2" 34%float (-112)%float in
  Nearby Sample.fleet (nearbyCircle 33 (-115) 5) = [(t1, 0%float); (t2, 300000%float)]
  /\ map p_obj (pushes (cmdNearby Sample.server zero)) = [t1; t2]
  /\ map p_obj (pushes (cmdNearby Sample.server five)) = [t1].
Proof.
  cbv zeta. split; [vm_compute; reflexivity|]. split.
  - etransitivity;
      [ refine (proj2 (proj2 (proj1 (proj2
         (nearby_cutoff_only_for_positive_radius Sample.server
            (Sample.message ["NEARBY"; "fleet"; "POINT"; "33"; "-115"; "0"])
            (fst (resolve "nearby" ["fleet"; "POINT"; "33"; "-115"; "0"]))
            (fst (makeWriter Sample.server (Sample.message [])
                    (fst (resolve "nearby" ["fleet"; "POINT"; "33"; "-115"; "0"]))
                    false))
            Sample.fleet (geometry.mkPoint (-115)%float 33%float) 0%float 64
            _ _ _ _ _ _)) _)) _)
      | vm_compute; reflexivity ].
    1-7: closed.
    intros w q. eexists. reflexivity.
  - etransitivity;
      [ refine (proj2 (proj2 (proj2 (proj2
         (nearby_cutoff_only_for_positive_radius Sample.server
            (Sample.message ["NEARBY"; "fleet"; "POINT"; "33"; "-115"; "5"])
            (fst (resolve "nearby" ["fleet"; "POINT"; "33"; "-115"; "5"]))
            (fst (makeWriter Sample.server (Sample.message [])
                    (fst (resolve "nearby" ["fleet"; "POINT"; "33"; "-115"; "5"]))
                    false))
            Sample.fleet (geometry.mkPoint (-115)%float 33%float) 5%float 64
            _ _ _ _ _ _)) _
            [(Sample.truck "truck-1" 33%float (-115)%float, 0%float)]
            (Sample.truck "truck-2" 34%float (-112)%float) 300000%float []
            _ _)) _ _)
      | vm_compute; reflexivity ].
    1-9: closed.
    + intros w q. eexists. reflexivity.
    + repeat constructor.
Defined.

End MoreWitnesses.
